(** * Stressor: adapter pipeline, deep merge and k6 output sanitizer

    A shallow embedding of
      - [utils/merge]             ([deepMerge], [isObject]),
      - [adapters/load/sanitizer] ([K6OutputSanitizer]) with its report types,
      - [types/adapter]           ([Adapter]),
      - [adapters/load]           ([LoadAdapter]: the validation of its
                                   configuration),
      - the pipeline module       ([AdapterPipeline]),
    followed by the vocabulary of the statements and by the properties
    established about the code.

    Modelling conventions.
      - A JavaScript [number] is an IEEE-754 binary64 value: Rocq's primitive
        [float], whose operations round exactly as the JavaScript ones do.
      - A plain object and a [Map] are insertion-ordered dictionaries with
        string keys: writing an existing key keeps its position, writing a
        new key appends it.  A plain object is modelled by its own
        properties; the members every plain object inherits from
        [Object.prototype] are modelled where the code reads a table by an
        arbitrary name ([getMetricDescription]), and not for the keys of
        configuration trees.
      - [Prototype] embeds [deepMerge] a second time, with the prototype of
        the objects it returns: under the key [__proto__] an assignment can
        reach the accessor of [Object.prototype] instead of writing a
        property.  On a source without such a key the two embeddings agree
        ([PrototypeFacts.deepMerge_without_proto_key]).
      - The two registries of a pipeline are objects in a store, and a
        pipeline holds references to them, so that sharing between pipeline
        values is visible.
      - An adapter run is described by the number of turns of the event loop
        it takes and by the outcome of its promise; the event loop is a clock
        that settles the runs in flight when their instant comes.  The trace
        records every call of an adapter's [run] and every settlement. *)

From Stdlib Require Import List String Bool Arith ZArith QArith Qabs Lia.
From Stdlib Require Import Floats DecimalString.
Import ListNotations.

Set Implicit Arguments.
Set Warnings "-register-all,-inexact-float".

Local Close Scope Q_scope.
Local Open Scope string_scope.
Local Open Scope list_scope.
Local Open Scope nat_scope.

(* ================================================================== *)
(** ** Insertion-ordered dictionaries *)

Module Dict.
Section Dict.
Variable V : Type.

Definition t := list (string * V).

Definition empty : t := [].

(** [d[k]] / [d.get(k)]: [None] stands for [undefined]. *)
Fixpoint get (k : string) (d : t) : option V :=
  match d with
  | [] => None
  | (k', v) :: rest => if String.eqb k k' then Some v else get k rest
  end.

(** [d.has(k)]. *)
Definition has (k : string) (d : t) : bool :=
  match get k d with Some _ => true | None => false end.

(** [d[k] = v] / [d.set(k, v)]. *)
Fixpoint set (k : string) (v : V) (d : t) : t :=
  match d with
  | [] => [(k, v)]
  | (k', v') :: rest =>
      if String.eqb k k' then (k, v) :: rest else (k', v') :: set k v rest
  end.

(** [Object.keys], [Object.values] / [d.values()], [Object.entries]. *)
Definition keys (d : t) : list string := map fst d.
Definition values (d : t) : list V := map snd d.
Definition entries (d : t) : list (string * V) := d.

(** [Object.fromEntries]: the pairs are written one after the other. *)
Definition fromEntries (l : list (string * V)) : t :=
  fold_left (fun acc kv => set (fst kv) (snd kv) acc) l empty.

(** A dictionary is well formed when no key occurs twice. *)
Definition wf (d : t) : Prop := NoDup (keys d).
End Dict.
Arguments empty {V}.
End Dict.

(* ================================================================== *)
(** ** JavaScript values *)

Module Js.

Definition number := float.

Inductive value : Type :=
| VUndefined
| VNull
| VBool (b : bool)
| VNumber (n : number)
| VString (s : string)
| VArray (elems : list value)
| VObject (props : list (string * value)).
Arguments VNumber n%_float.

(** [ToBoolean]. *)
Definition truthy (v : value) : bool :=
  match v with
  | VUndefined | VNull => false
  | VBool b => b
  | VNumber n => negb (PrimFloat.is_zero n || PrimFloat.is_nan n)
  | VString s => negb (String.eqb s "")
  | VArray _ | VObject _ => true
  end.

(** [a || b]. *)
Definition or_else (a b : value) : value := if truthy a then a else b.

(** Reading [o[k]] on a value that is a plain object; a missing key reads
    as [undefined]. *)
Definition read (k : string) (props : Dict.t value) : value :=
  match Dict.get k props with Some v => v | None => VUndefined end.

(** [l[i]] for a possibly negative or out-of-range index. *)
Definition index {A : Type} (l : list A) (i : Z) : option A :=
  if (i <? 0)%Z then None else nth_error l (Z.to_nat i).

(** The integer-valued number [n] ([length] of an array). *)
Definition of_nat (n : nat) : number :=
  PrimFloat.of_uint63 (Uint63.of_Z (Z.of_nat n)).

(** [Math.min(...values)] (ECMA-262, 21.3.2.25): NaN is contagious, and
    [-0] is below [+0]. *)
Definition is_neg_zero (x : number) : bool :=
  PrimFloat.is_zero x && PrimFloat.get_sign x.
Definition is_pos_zero (x : number) : bool :=
  PrimFloat.is_zero x && negb (PrimFloat.get_sign x).

Fixpoint min_from (lowest : number) (l : list number) : number :=
  match l with
  | [] => lowest
  | x :: rest =>
      if PrimFloat.is_nan x then PrimFloat.nan
      else
        let lowest1 :=
          if is_neg_zero x && is_pos_zero lowest then x else lowest in
        let lowest2 := if PrimFloat.ltb x lowest1 then x else lowest1 in
        min_from lowest2 rest
  end.
Definition Math_min (l : list number) : number :=
  min_from PrimFloat.infinity l.

(** [Math.max(...values)] (ECMA-262, 21.3.2.24). *)
Fixpoint max_from (highest : number) (l : list number) : number :=
  match l with
  | [] => highest
  | x :: rest =>
      if PrimFloat.is_nan x then PrimFloat.nan
      else
        let highest1 :=
          if is_pos_zero x && is_neg_zero highest then x else highest in
        let highest2 := if PrimFloat.ltb highest1 x then x else highest1 in
        max_from highest2 rest
  end.
Definition Math_max (l : list number) : number :=
  max_from PrimFloat.neg_infinity l.

(** [values.reduce((a, b) => a + b, 0)]. *)
Definition sum (l : list number) : number :=
  fold_left PrimFloat.add l PrimFloat.zero.

(** [new Date(iso)]. *)
Inductive Date : Type := NewDate (iso : string).

End Js.

(* ================================================================== *)
(** ** utils/merge *)

Module Merge.
Import Js.

(** [typeof value === "object"]. *)
Definition typeof_object (v : value) : bool :=
  match v with
  | VNull | VArray _ | VObject _ => true
  | _ => false
  end.

Definition is_null (v : value) : bool :=
  match v with VNull => true | _ => false end.

(** [Array.isArray]. *)
Definition isArray (v : value) : bool :=
  match v with VArray _ => true | _ => false end.

(** [isObject]: not [null], of type ["object"], not an array. *)
Definition isObject (v : value) : bool :=
  negb (is_null v) && typeof_object v && negb (isArray v).

(** [deepMerge(target, source)]: [result] starts as a copy of [target]; each
    key of [source] is then written into it, merged recursively when both
    sides hold a non-array object and taken from [source] otherwise.

    The recursion descends into the values of [source], so the function is
    defined on [source] as a value; [deepMerge] below applies it to two
    objects, the only way the code calls it.

    Here [key in target] and [result[key] = ...] are taken on own
    properties.  That is what the code does under every key but
    [__proto__] when [target] does not own it; [Prototype.deepMerge_on]
    below covers that key too. *)
Fixpoint deepMerge_on (target : Dict.t value) (source : value) {struct source}
  : Dict.t value :=
  match source with
  | VObject sprops =>
      (fix loop (result : Dict.t value) (src : list (string * value))
           {struct src} : Dict.t value :=
         match src with
         | [] => result
         | (key, v) :: rest =>
             let written :=
               if Dict.has key target && isObject (read key target)
                  && isObject v
               then
                 match read key target with
                 | VObject tprops => VObject (deepMerge_on tprops v)
                 | _ => v
                 end
               else v in
             loop (Dict.set key written result) rest
         end) target sprops
  | _ => target
  end.

Definition deepMerge (target source : Dict.t value) : Dict.t value :=
  deepMerge_on target (VObject source).

(** The value [deepMerge] writes under [key] when [source[key]] is [v]. *)
Definition written (target : Dict.t value) (key : string) (v : value)
  : value :=
  if Dict.has key target && isObject (read key target) && isObject v
  then
    match read key target, v with
    | VObject tprops, VObject sprops => VObject (deepMerge tprops sprops)
    | _, _ => v
    end
  else v.

(** The loop of [deepMerge] over the entries of [source]. *)
Fixpoint merge_loop (target result : Dict.t value)
  (src : list (string * value)) : Dict.t value :=
  match src with
  | [] => result
  | (key, v) :: rest =>
      merge_loop target (Dict.set key (written target key v) result) rest
  end.

End Merge.

(* ================================================================== *)
(** ** utils/merge and the prototype of the result *)

(** [deepMerge] once more, this time with the prototype of the objects it
    returns.  Its arguments are plain objects as [JSON.parse] or an object
    literal makes them: their prototype is [Object.prototype], and a key
    [__proto__], if there is one, is an ordinary own property.  The result
    starts as [{ ...target }], an object of the same kind, but the
    assignment [result[key] = ...] under the key [__proto__] reaches the
    accessor of [Object.prototype] when [result] has no such own property:
    its setter changes the prototype of [result] when it is given an object
    or [null], and does nothing otherwise.  In the same way
    [target[key]] under that key reads the prototype of [target] when
    [target] has no such own property. *)

Module Prototype.
Import Js Merge.

(** What [deepMerge] returns and what it stores: a value taken as it is
    from the target or from the source, or the result of a merge, with its
    own properties and its prototype.  [None] is [Object.prototype], left
    where it was; [Some o] is what the setter was given, [Given VNull]
    being [null]. *)
Inductive object : Type :=
| Given (v : value)
| Merged (proto : option object) (props : list (string * object)).

(** What [deepMerge] is called on as its target: a plain object, or
    [Object.prototype] itself, which is what [target.__proto__] reads on a
    plain object without such an own property. *)
Inductive target : Type :=
| Plain (props : Dict.t value)
| ObjectPrototype.

(** [{ ...target }]: the own enumerable properties; [Object.prototype] has
    none. *)
Definition spread (t : target) : Dict.t object :=
  match t with
  | Plain props => map (fun kv => (fst kv, Given (snd kv))) props
  | ObjectPrototype => []
  end.

(** [key in target && isObject(target[key])]: the non-array object that
    [target[key]] reads, if it reads one.  On a plain object that is an own
    property, or the prototype under [__proto__]; every other member it
    inherits is a function.  The own members of [Object.prototype] are
    functions, and its [__proto__] reads [null]. *)
Definition object_at (t : target) (key : string) : option target :=
  match t with
  | Plain props =>
      match Dict.get key props with
      | Some (VObject tprops) => Some (Plain tprops)
      | Some _ => None
      | None => if String.eqb key "__proto__" then Some ObjectPrototype else None
      end
  | ObjectPrototype => None
  end.

(** What the setter of [__proto__] accepts: an object or [null]. *)
Definition object_or_null (o : object) : bool :=
  match o with
  | Given v => typeof_object v
  | Merged _ _ => true
  end.

(** [deepMerge(target, source)].  The recursion descends into the values of
    [source], so the function is defined on [source] as a value; the code
    calls it on non-array objects only. *)
Fixpoint deepMerge_on (t : target) (source : value) {struct source}
  : object :=
  match source with
  | VObject sprops =>
      (fix loop (proto : option object) (result : Dict.t object)
           (src : list (string * value)) {struct src} : object :=
         match src with
         | [] => Merged proto result
         | (key, v) :: rest =>
             let written :=
               match object_at t key with
               | Some t' => if isObject v then deepMerge_on t' v else Given v
               | None => Given v
               end in
             if String.eqb key "__proto__" && negb (Dict.has key result)
             then
               loop (if object_or_null written then Some written else proto)
                 result rest
             else loop proto (Dict.set key written result) rest
         end) None (spread t) sprops
  | _ => Merged None (spread t)
  end.

Definition deepMerge (target source : Dict.t value) : object :=
  deepMerge_on (Plain target) (VObject source).

(** The value [deepMerge] assigns under [key] when [source[key]] is [v]. *)
Definition written (t : target) (key : string) (v : value) : object :=
  match object_at t key with
  | Some t' => if isObject v then deepMerge_on t' v else Given v
  | None => Given v
  end.

(** The loop of [deepMerge] over the entries of [source]. *)
Fixpoint merge_loop (t : target) (proto : option object)
  (result : Dict.t object) (src : list (string * value)) : object :=
  match src with
  | [] => Merged proto result
  | (key, v) :: rest =>
      if String.eqb key "__proto__" && negb (Dict.has key result)
      then
        merge_loop t
          (if object_or_null (written t key v) then Some (written t key v)
           else proto)
          result rest
      else merge_loop t proto (Dict.set key (written t key v) result) rest
  end.

(** The own properties of an object. *)
Definition ownProperties (o : object) : Dict.t object :=
  match o with
  | Given (VObject props) => spread (Plain props)
  | Given _ => []
  | Merged _ props => props
  end.

(** [Object.getPrototypeOf] of the result of a merge, [None] being
    [Object.prototype]. *)
Definition prototypeOf (o : object) : option object :=
  match o with
  | Given _ => None
  | Merged proto _ => proto
  end.

(** An object by its own properties alone, at every level. *)
Fixpoint ownValue (o : object) : value :=
  match o with
  | Given v => v
  | Merged _ props =>
      VObject
        ((fix each (l : list (string * object)) : list (string * value) :=
            match l with
            | [] => []
            | (k, x) :: rest => (k, ownValue x) :: each rest
            end) props)
  end.

End Prototype.

(* ================================================================== *)
(** ** adapters/load/types/report *)

Module Report.
Import Js.

Inductive MetricType : Type := gauge | counter | trend | rate.
Inductive Contains : Type := contains_default | contains_time | contains_data.

(** The string a metric type is in the event stream. *)
Definition MetricType_string (t : MetricType) : string :=
  match t with
  | gauge => "gauge"
  | counter => "counter"
  | trend => "trend"
  | rate => "rate"
  end.

Definition Contains_string (c : Contains) : string :=
  match c with
  | contains_default => "default"
  | contains_time => "time"
  | contains_data => "data"
  end.

Record K6MetricData : Type := {
  md_name : string;
  md_type : MetricType;
  md_contains : Contains;
  md_thresholds : list value;
  md_submetrics : option (list value)
}.

Record K6Metric : Type := {
  m_data : K6MetricData;
  m_metric : string
}.

Record K6PointData : Type := {
  pd_time : string;
  pd_value : number;
  pd_tags : Dict.t string
}.

Record K6Point : Type := {
  p_metric : string;
  p_data : K6PointData
}.

(** [K6Output = K6Metric | K6Point], told apart by the [type] field. *)
Inductive K6Output : Type :=
| Metric (m : K6Metric)
| Point (p : K6Point).

(** What [descriptions[name] || ...] evaluates to: a string, or the member
    of [Object.prototype] that the table inherits under that name. *)
Inductive Description : Type :=
| Text (s : string)
| Inherited (member : string).

Record ReportPoint : Type := {
  pt_time : string;
  pt_value : number;
  pt_tags : Dict.t string;
  pt_timestamp : option Date
}.

Record Summary : Type := {
  sm_count : nat;
  sm_avg : number;
  sm_min : number;
  sm_max : number
}.

Record MetricReport : Type := {
  mr_name : string;
  mr_type : string;
  mr_description : Description;
  mr_unit : option string;
  mr_points : list ReportPoint;
  mr_summary : option Summary
}.

End Report.

(* ================================================================== *)
(** ** adapters/load/sanitizer *)

Module Sanitizer.
Import Js Report.

(** The state of a [K6OutputSanitizer]. *)
Record K6OutputSanitizer : Type := {
  metrics : Dict.t MetricReport;
  rawData : list K6Output
}.

Definition units : Dict.t string := [("time", "ms"); ("data", "bytes")].

(** [getUnitFromContains]: [units[contains]]. *)
Definition getUnitFromContains (contains : Contains) : option string :=
  Dict.get (Contains_string contains) units.

Definition descriptions : Dict.t string :=
  [ ("vus", "Virtual Users - Número de usuarios virtuales activos");
    ("vus_max",
     "Virtual Users Max - Máximo número de usuarios virtuales permitidos");
    ("http_reqs", "HTTP Requests - Total de peticiones HTTP realizadas");
    ("http_req_duration",
     "HTTP Request Duration - Duración de las peticiones HTTP");
    ("http_req_blocked",
     "HTTP Request Blocked - Tiempo bloqueado en la petición");
    ("http_req_connecting", "HTTP Request Connecting - Tiempo de conexión");
    ("http_req_tls_handshaking",
     "HTTP Request TLS Handshaking - Tiempo de handshake TLS");
    ("http_req_sending", "HTTP Request Sending - Tiempo enviando datos");
    ("http_req_waiting", "HTTP Request Waiting - Tiempo esperando respuesta");
    ("http_req_receiving", "HTTP Request Receiving - Tiempo recibiendo datos");
    ("http_req_failed",
     "HTTP Requests Failed - Porcentaje de peticiones fallidas");
    ("checks", "Checks - Verificaciones realizadas y su estado");
    ("data_sent", "Data Sent - Bytes enviados");
    ("data_received", "Data Received - Bytes recibidos");
    ("iteration_duration", "Iteration Duration - Duración de cada iteración");
    ("iterations", "Iterations - Total de iteraciones completadas") ].

(** The members [descriptions] inherits from [Object.prototype]; each is a
    function or an object, hence truthy. *)
Definition object_prototype_members : list string :=
  [ "constructor"; "__defineGetter__"; "__defineSetter__"; "hasOwnProperty";
    "__lookupGetter__"; "__lookupSetter__"; "isPrototypeOf";
    "propertyIsEnumerable"; "toString"; "valueOf"; "__proto__";
    "toLocaleString" ].

Definition inherited (name : string) : bool :=
  existsb (String.eqb name) object_prototype_members.

(** [getMetricDescription]: [descriptions[name] || `Métrica: ${name}`]. *)
Definition getMetricDescription (name : string) : Description :=
  match Dict.get name descriptions with
  | Some s => if String.eqb s "" then Text (String.append "Métrica: " name) else Text s
  | None =>
      if inherited name then Inherited name else Text (String.append "Métrica: " name)
  end.

(** [addMetricDefinition]. *)
Definition addMetricDefinition (metric : K6Metric)
  (ms : Dict.t MetricReport) : Dict.t MetricReport :=
  let unit := getUnitFromContains (md_contains (m_data metric)) in
  if negb (Dict.has (md_name (m_data metric)) ms) then
    Dict.set (md_name (m_data metric))
      {| mr_name := md_name (m_data metric);
         mr_type := MetricType_string (md_type (m_data metric));
         mr_description := getMetricDescription (md_name (m_data metric));
         mr_unit := unit;
         mr_points := [];
         mr_summary := None |} ms
  else ms.

(** The element [addDataPoint] pushes. *)
Definition reportPoint (point : K6Point) : ReportPoint :=
  {| pt_time := pd_time (p_data point);
     pt_timestamp := Some (NewDate (pd_time (p_data point)));
     pt_value := pd_value (p_data point);
     pt_tags := pd_tags (p_data point) |}.

(** [metric.points.push(p)] on a report. *)
Definition push (p : ReportPoint) (metric : MetricReport) : MetricReport :=
  {| mr_name := mr_name metric;
     mr_type := mr_type metric;
     mr_description := mr_description metric;
     mr_unit := mr_unit metric;
     mr_points := mr_points metric ++ [p];
     mr_summary := mr_summary metric |}.

(** [addDataPoint]. *)
Definition addDataPoint (point : K6Point)
  (ms : Dict.t MetricReport) : Dict.t MetricReport :=
  let metricName := p_metric point in
  let ms1 :=
    if negb (Dict.has metricName ms) then
      Dict.set metricName
        {| mr_name := metricName;
           mr_type := "unknown";
           mr_description := getMetricDescription metricName;
           mr_unit := None;
           mr_points := [];
           mr_summary := None |} ms
    else ms in
  match Dict.get metricName ms1 with
  | Some metric => Dict.set metricName (push (reportPoint point) metric) ms1
  | None => ms1
  end.

(** The summary [calculateSummaries] stores on a report with points. *)
Definition summarize (values : list number) : Summary :=
  {| sm_count := List.length values;
     sm_avg := PrimFloat.div (sum values) (of_nat (List.length values));
     sm_min := Math_min values;
     sm_max := Math_max values |}.

Definition withSummary (metric : MetricReport) : MetricReport :=
  if 0 <? List.length (mr_points metric) then
    {| mr_name := mr_name metric;
       mr_type := mr_type metric;
       mr_description := mr_description metric;
       mr_unit := mr_unit metric;
       mr_points := mr_points metric;
       mr_summary := Some (summarize (map pt_value (mr_points metric))) |}
  else metric.

(** [calculateSummaries]. *)
Definition calculateSummaries (ms : Dict.t MetricReport)
  : Dict.t MetricReport :=
  map (fun kv => (fst kv, withSummary (snd kv))) ms.

(** [processData]: definitions first, then points, then summaries. *)
Definition processData (this : K6OutputSanitizer) : K6OutputSanitizer :=
  let ms1 :=
    fold_left
      (fun ms item =>
         match item with
         | Metric m => addMetricDefinition m ms
         | Point _ => ms
         end) (rawData this) (metrics this) in
  let ms2 :=
    fold_left
      (fun ms item =>
         match item with
         | Point p => addDataPoint p ms
         | Metric _ => ms
         end) (rawData this) ms1 in
  {| metrics := calculateSummaries ms2; rawData := rawData this |}.

(** [new K6OutputSanitizer(rawOutput)]. *)
Definition new (rawOutput : list K6Output) : K6OutputSanitizer :=
  processData {| metrics := Dict.empty; rawData := rawOutput |}.

(** [getSanitizedOutput]. *)
Definition getSanitizedOutput (this : K6OutputSanitizer)
  : list MetricReport :=
  Dict.values (metrics this).

(** [getMetricByName]. *)
Definition getMetricByName (this : K6OutputSanitizer) (name : string)
  : option MetricReport :=
  Dict.get name (metrics this).

(** [getMetricsByType]. *)
Definition getMetricsByType (this : K6OutputSanitizer) (type : string)
  : list MetricReport :=
  filter (fun metric => String.eqb (mr_type metric) type)
    (Dict.values (metrics this)).

Record SummaryEntry : Type := {
  se_type : string;
  se_description : Description;
  se_unit : option string;
  se_dataPoints : nat;
  se_summary : option Summary
}.

(** [getSummary]: [summary[metric.name] = ...] for each report.  The
    dictionary holds what reading [summary[name]] returns under the names
    of the reports.  Under the name [__proto__] the assignment makes the
    entry the prototype of [summary]: reading that name returns the
    entry, as here, but the name is no key of the object. *)
Definition getSummary (this : K6OutputSanitizer) : Dict.t SummaryEntry :=
  fold_left
    (fun summary metric =>
       Dict.set (mr_name metric)
         {| se_type := mr_type metric;
            se_description := mr_description metric;
            se_unit := mr_unit metric;
            se_dataPoints := List.length (mr_points metric);
            se_summary := mr_summary metric |} summary)
    (Dict.values (metrics this)) Dict.empty.

Record MinimalEntry : Type := {
  me_summary : option Summary;
  me_lastValue : option number;
  me_unit : option string
}.

(** [metric.points[metric.points.length - 1]?.value]. *)
Definition lastValue (metric : MetricReport) : option number :=
  option_map pt_value
    (index (mr_points metric) (Z.of_nat (List.length (mr_points metric)) - 1)).

(** [toMinimalOutput]: [minimal[metric.name] = ...] for each report.  The
    dictionary holds what reading [minimal[name]] returns under the names
    of the reports.  Under the name [__proto__] the assignment makes the
    entry the prototype of [minimal]: reading that name returns the
    entry, as here, but the name is no key of the object. *)
Definition toMinimalOutput (this : K6OutputSanitizer)
  : Dict.t MinimalEntry :=
  fold_left
    (fun minimal metric =>
       Dict.set (mr_name metric)
         {| me_summary := mr_summary metric;
            me_lastValue := lastValue metric;
            me_unit := mr_unit metric |} minimal)
    (Dict.values (metrics this)) Dict.empty.

End Sanitizer.

(* ================================================================== *)
(** ** types/adapter and the event loop *)

Module Loop.
Import Js.

(** How a promise settles. *)
Inductive Outcome : Type :=
| Resolved (output : value)
| Rejected (error : string).

(** [Adapter<I, O>]: [run(input)] returns a promise at once; the work behind
    it takes [latency input] turns of the event loop and then settles the
    promise with [respond input].  Latency [0] is an [async] body that
    finishes without suspending: its promise is settled when [run] returns. *)
Record Adapter : Type := {
  latency : value -> nat;
  respond : value -> Outcome
}.

Inductive Event : Type :=
| Started (key : string) (input : value)
| Settled (key : string) (outcome : Outcome).

Record InFlight : Type := {
  f_key : string;
  f_due : nat;
  f_outcome : Outcome
}.

Definition ref := nat.

(** The store of registry objects, the clock of the event loop, the adapter
    runs that have not settled yet, and what has happened so far. *)
Record World : Type := {
  adapterObjects : list (Dict.t Adapter);
  configObjects : list (Dict.t value);
  now : nat;
  inflight : list InFlight;
  trace : list Event
}.

Record Promise : Type := {
  settles_at : nat;
  outcome : Outcome
}.

Inductive Result (A : Type) : Type :=
| Ok (a : A)
| Throw (error : string).
Arguments Ok {A} a.
Arguments Throw {A} error.

(** Computations over the world that return or throw. *)
Definition M (A : Type) : Type := World -> Result A * World.

Definition ret {A : Type} (a : A) : M A := fun w => (Ok a, w).

Definition bind {A B : Type} (m : M A) (k : A -> M B) : M B :=
  fun w =>
    match m w with
    | (Ok a, w1) => k a w1
    | (Throw e, w1) => (Throw e, w1)
    end.

Definition throw {A : Type} (e : string) : M A := fun w => (Throw e, w).

Fixpoint mapM {A B : Type} (f : A -> M B) (l : list A) : M (list B) :=
  match l with
  | [] => ret []
  | a :: rest =>
      bind (f a) (fun b => bind (mapM f rest) (fun bs => ret (b :: bs)))
  end.

(** *** The store *)

Definition adaptersAt (r : ref) (w : World) : Dict.t Adapter :=
  nth r (adapterObjects w) Dict.empty.

Definition configAt (r : ref) (w : World) : Dict.t value :=
  nth r (configObjects w) Dict.empty.

Definition newAdapters (o : Dict.t Adapter) : M ref :=
  fun w =>
    (Ok (List.length (adapterObjects w)),
     {| adapterObjects := adapterObjects w ++ [o];
        configObjects := configObjects w;
        now := now w; inflight := inflight w; trace := trace w |}).

Definition newConfig (o : Dict.t value) : M ref :=
  fun w =>
    (Ok (List.length (configObjects w)),
     {| adapterObjects := adapterObjects w;
        configObjects := configObjects w ++ [o];
        now := now w; inflight := inflight w; trace := trace w |}).

Fixpoint replace_at {A : Type} (i : nat) (a : A) (l : list A) : list A :=
  match l, i with
  | [], _ => []
  | _ :: rest, 0 => a :: rest
  | x :: rest, S j => x :: replace_at j a rest
  end.

Definition writeConfig (r : ref) (key : string) (v : value) : M unit :=
  fun w =>
    (Ok tt,
     {| adapterObjects := adapterObjects w;
        configObjects :=
          replace_at r (Dict.set key v (configAt r w)) (configObjects w);
        now := now w; inflight := inflight w; trace := trace w |}).

(** *** Promises *)

Definition emit (e : list Event) (w : World) : World :=
  {| adapterObjects := adapterObjects w;
     configObjects := configObjects w;
     now := now w; inflight := inflight w; trace := trace w ++ e |}.

(** [adapter.run(input)]: the call happens now; the promise it returns
    settles [latency] turns later. *)
Definition call (key : string) (adapter : Adapter) (input : value)
  : M Promise :=
  fun w =>
    let out := respond adapter input in
    let d := latency adapter input in
    let p := {| settles_at := now w + d; outcome := out |} in
    if d =? 0 then (Ok p, emit [Started key input; Settled key out] w)
    else
      (Ok p,
       {| adapterObjects := adapterObjects w;
          configObjects := configObjects w;
          now := now w;
          inflight :=
            inflight w
            ++ [{| f_key := key; f_due := now w + d; f_outcome := out |}];
          trace := trace w ++ [Started key input] |}).

(** One turn of the event loop: the runs due at the next instant settle, in
    the order in which they were started. *)
Definition tick (w : World) : World :=
  let t := S (now w) in
  {| adapterObjects := adapterObjects w;
     configObjects := configObjects w;
     now := t;
     inflight := filter (fun f => negb (f_due f =? t)) (inflight w);
     trace :=
       trace w
       ++ map (fun f => Settled (f_key f) (f_outcome f))
            (filter (fun f => f_due f =? t) (inflight w)) |}.

Fixpoint turns (n : nat) (w : World) : World :=
  match n with
  | 0 => w
  | S m => turns m (tick w)
  end.

(** Suspend until instant [t] (no time passes when [t] is not ahead). *)
Definition suspend_until (t : nat) (w : World) : World :=
  turns (t - now w) w.

(** [await p] where [p] is a promise or [null]. *)
Definition await (p : option Promise) : M value :=
  match p with
  | None => ret VNull
  | Some pr =>
      fun w =>
        let w1 := suspend_until (settles_at pr) w in
        match outcome pr with
        | Resolved v => (Ok v, w1)
        | Rejected e => (Throw e, w1)
        end
  end.

(** The rejection [Promise.all] reports: the earliest one, the first of the
    array among those of one instant. *)
Fixpoint first_rejection (ps : list (option Promise))
  : option (nat * string) :=
  match ps with
  | [] => None
  | p :: rest =>
      let later := first_rejection rest in
      match p with
      | Some {| settles_at := t; outcome := Rejected e |} =>
          match later with
          | Some (t', e') => if t' <? t then Some (t', e') else Some (t, e)
          | None => Some (t, e)
          end
      | _ => later
      end
  end.

Definition fulfilled (p : option Promise) : value :=
  match p with
  | Some {| outcome := Resolved v |} => v
  | _ => VNull
  end.

Definition last_settlement (ps : list (option Promise)) : nat :=
  fold_right
    (fun p t => match p with Some pr => Nat.max (settles_at pr) t | None => t end)
    0 ps.

(** [await Promise.all(promises)]. *)
Definition Promise_all (ps : list (option Promise)) : M (list value) :=
  fun w =>
    match first_rejection ps with
    | Some (t, e) => (Throw e, suspend_until t w)
    | None => (Ok (map fulfilled ps), suspend_until (last_settlement ps) w)
    end.

End Loop.

(* ================================================================== *)
(** ** The adapter pipeline *)

Module Pipeline.
Import Js Loop.

Record PipelineOptions : Type := {
  runInParallel : option bool;
  timeout : option number;
  saveRaw : option bool
}.

(** [options = {}]. *)
Definition no_options : PipelineOptions :=
  {| runInParallel := None; timeout := None; saveRaw := None |}.

(** An [AdapterPipeline] holds references to its two registry objects. *)
Record AdapterPipeline : Type := {
  adapters : ref;
  config : ref
}.

(** [new AdapterPipeline()]: both registries default to a fresh [{}]. *)
Definition new : M AdapterPipeline :=
  bind (newAdapters Dict.empty) (fun a =>
  bind (newConfig Dict.empty) (fun c =>
  ret {| adapters := a; config := c |})).

(** [addAdapter(key, adapter, config?)]; an absent [config] is
    [VUndefined]. *)
Definition addAdapter (key : string) (adapter : Adapter) (cfg : value)
  (this : AdapterPipeline) : M AdapterPipeline :=
  fun w =>
    bind (newAdapters (Dict.set key adapter (adaptersAt (adapters this) w)))
      (fun a =>
    bind (newConfig
            (Dict.set key (or_else cfg VUndefined)
               (configAt (config this) w)))
      (fun c =>
    ret {| adapters := a; config := c |})) w.

(** [setConfig(key, value)]: [this.config[key] = value], which writes an
    own property under every key but [__proto__]; under that key, when the
    registry does not own it, the code reaches the accessor of
    [Object.prototype] instead. *)
Definition setConfig (key : string) (v : value) (this : AdapterPipeline)
  : M AdapterPipeline :=
  bind (writeConfig (config this) key v) (fun _ => ret this).

(** [getAdapter(key)]: [this.adapters[key]] on the own properties of the
    registry.  Under the name of a member of [Object.prototype] that the
    registry does not own, the code reads the inherited member. *)
Definition getAdapter (key : string) (this : AdapterPipeline) (w : World)
  : option Adapter :=
  Dict.get key (adaptersAt (adapters this) w).

(** [getConfig(key)]: [this.config[key]] on the own properties of the
    registry.  Under the name of a member of [Object.prototype] that the
    registry does not own, the code reads the inherited member. *)
Definition getConfig (key : string) (this : AdapterPipeline) (w : World)
  : value :=
  read key (configAt (config this) w).

Definition is_true (b : option bool) : bool :=
  match b with Some true => true | _ => false end.

(** [.map((x, index) => f(x, index))]. *)
Fixpoint mapi_from {A B : Type} (i : nat) (f : A -> nat -> B) (l : list A)
  : list B :=
  match l with
  | [] => []
  | a :: rest => f a i :: mapi_from (S i) f rest
  end.

(** [finalConfig[key] ? adapter.run(finalConfig[key]) : null]. *)
Definition start (finalConfig : Dict.t value) (entry : string * Adapter)
  : M (option Promise) :=
  let (key, adapter) := entry in
  if truthy (read key finalConfig)
  then bind (call key adapter (read key finalConfig)) (fun p => ret (Some p))
  else ret None.

(** [run(config?, options = {})], as the language defines it.  In the
    sequential branch a promise that rejects while an earlier one is
    awaited has no handler attached yet; what the host does about it (Node
    ends the process by default) is not part of this definition. *)
Definition run (cfg : option (Dict.t value)) (options : PipelineOptions)
  (this : AdapterPipeline) : M (Dict.t value) :=
  fun w =>
    let finalConfig :=
      Merge.deepMerge (configAt (config this) w)
        (match cfg with Some c => c | None => Dict.empty end) in
    let registered := Dict.entries (adaptersAt (adapters this) w) in
    bind (mapM (start finalConfig) registered) (fun promises =>
    bind (if is_true (runInParallel options)
          then Promise_all promises
          else mapM await promises) (fun results w' =>
    ret (Dict.fromEntries
           (mapi_from 0
              (fun entry index => (fst entry, nth index results VUndefined))
              (Dict.entries (adaptersAt (adapters this) w')))) w')) w.

End Pipeline.

(* ================================================================== *)
(** ** adapters/load: the configuration of the load adapter *)

Module LoadAdapter.
Import Js Merge Loop.

Section Coercions.

(** [ToNumber] on a string and on an array or object, which the code
    reaches only if [vus] or [iterations] is not a number: whatever they
    are. *)
Variable StringToNumber : string -> number.
Variable ObjectToNumber : value -> number.

(** [ToNumber]. *)
Definition ToNumber (v : value) : number :=
  match v with
  | VUndefined => PrimFloat.nan
  | VNull => PrimFloat.zero
  | VBool b => if b then PrimFloat.one else PrimFloat.zero
  | VNumber n => n
  | VString s => StringToNumber s
  | VArray _ | VObject _ => ObjectToNumber v
  end.

(** [v < 1]. *)
Definition below_one (v : value) : bool := PrimFloat.ltb (ToNumber v) 1.

(** [v === undefined]. *)
Definition is_undefined (v : value) : bool :=
  match v with VUndefined => true | _ => false end.

(** [v.key] for a truthy [v] and a key that is neither an index nor
    [length]: an own property of an object, undefined on anything else. *)
Definition member (v : value) (key : string) : value :=
  match v with
  | VObject props => read key props
  | _ => VUndefined
  end.

(** [`${index}`]. *)
Definition index_string (index : nat) : string :=
  NilEmpty.string_of_uint (Nat.to_uint index).

(** [Array.isArray(scenario) ? scenario : [scenario]]. *)
Definition scenarios_of (scenario : value) : list value :=
  match scenario with
  | VArray elems => elems
  | _ => [scenario]
  end.

(** [!scenario || typeof scenario !== 'object']. *)
Definition not_an_object (scenario : value) : bool :=
  negb (truthy scenario) || negb (typeof_object scenario).

(** The loop of [validateConfig] over [scenarios.entries()], from
    [index] on. *)
Fixpoint checkScenarios (index : nat) (scenarios : list value)
  : Result unit :=
  match scenarios with
  | [] => Ok tt
  | scenario :: rest =>
      if not_an_object scenario then
        Throw (String.append "Scenario at index "
                 (String.append (index_string index) " must be an object"))
      else checkScenarios (S index) rest
  end.

(** [validateConfig]. *)
Definition validateConfig (config : Dict.t value) : Result unit :=
  if negb (truthy (read "options" config)) then
    Throw "Configuration options are required"
  else
    let vus := member (read "options" config) "vus" in
    let iterations := member (read "options" config) "iterations" in
    if is_undefined vus || below_one vus then
      Throw "vus must be a positive number"
    else if is_undefined iterations || below_one iterations then
      Throw "iterations must be a positive number"
    else if truthy (read "scenario" config) then
      checkScenarios 0 (scenarios_of (read "scenario" config))
    else Ok tt.

(** [{ options: { vus: 5, iterations: 10 } }]. *)
Definition defaults : Dict.t value :=
  [("options", VObject [("vus", VNumber 5); ("iterations", VNumber 10)])].

(** The beginning of [run], up to the engine: the input must be there, and
    the defaults merged with it must pass [validateConfig].  [None] is an
    absent input. *)
Definition configure (input : option (Dict.t value))
  : Result (Dict.t value) :=
  match input with
  | None => Throw "LoadAdapterConfig input is required"
  | Some i =>
      let config := deepMerge defaults i in
      match validateConfig config with
      | Ok _ => Ok config
      | Throw e => Throw e
      end
  end.

End Coercions.

(** [{ name: scenario.name || `scenario_${index}`, ...scenario }], the
    object [run] passes to [builder.addScenario] for the scenario at
    [index]. *)
Definition named (index : nat) (scenario : Dict.t value) : Dict.t value :=
  let scenarioName :=
    or_else (read "name" scenario)
      (VString (String.append "scenario_" (index_string index))) in
  fold_left (fun acc kv => Dict.set (fst kv) (snd kv) acc) scenario
    [("name", scenarioName)].

End LoadAdapter.

(* ================================================================== *)
(** * Vocabulary of the statements *)

(** ** Sanitizer *)

Module SanitizerSpec.
Import Js Report Sanitizer.

(** The first definition event of the stream for [name]. *)
Fixpoint firstDefinition (name : string) (evs : list K6Output)
  : option K6Metric :=
  match evs with
  | [] => None
  | Metric m :: rest =>
      if String.eqb (md_name (m_data m)) name then Some m
      else firstDefinition name rest
  | Point _ :: rest => firstDefinition name rest
  end.

(** The points of the stream for [name], in arrival order. *)
Fixpoint pointsOf (name : string) (evs : list K6Output) : list ReportPoint :=
  match evs with
  | [] => []
  | Point p :: rest =>
      if String.eqb (p_metric p) name then reportPoint p :: pointsOf name rest
      else pointsOf name rest
  | Metric _ :: rest => pointsOf name rest
  end.

(** The report a definition event registers. *)
Definition declared (m : K6Metric) : MetricReport :=
  {| mr_name := md_name (m_data m);
     mr_type := MetricType_string (md_type (m_data m));
     mr_description := getMetricDescription (md_name (m_data m));
     mr_unit := getUnitFromContains (md_contains (m_data m));
     mr_points := [];
     mr_summary := None |}.

(** The report created for a point whose metric was never defined. *)
Definition implicit (name : string) : MetricReport :=
  {| mr_name := name;
     mr_type := "unknown";
     mr_description := getMetricDescription name;
     mr_unit := None;
     mr_points := [];
     mr_summary := None |}.

Definition appendPoints (r : MetricReport) (pts : list ReportPoint)
  : MetricReport :=
  {| mr_name := mr_name r;
     mr_type := mr_type r;
     mr_description := mr_description r;
     mr_unit := mr_unit r;
     mr_points := mr_points r ++ pts;
     mr_summary := mr_summary r |}.

(** The report of [name] before the summary pass. *)
Definition collected (name : string) (evs : list K6Output)
  : option MetricReport :=
  match firstDefinition name evs with
  | Some m => Some (appendPoints (declared m) (pointsOf name evs))
  | None =>
      match pointsOf name evs with
      | [] => None
      | pts => Some (appendPoints (implicit name) pts)
      end
  end.

(** Events used in examples. *)
Definition example_metric (name : string) (t : MetricType) (c : Contains)
  : K6Output :=
  Metric {| m_data := {| md_name := name; md_type := t; md_contains := c;
                         md_thresholds := []; md_submetrics := None |};
            m_metric := name |}.

Definition example_point (name : string) (v : number) : K6Point :=
  {| p_metric := name;
     p_data := {| pd_time := "2024-05-01T10:00:00.000Z"; pd_value := v;
                  pd_tags := [("scenario", "default")] |} |}.

Definition definitionsPass (evs : list K6Output) (ms : Dict.t MetricReport) :=
  fold_left
    (fun ms item =>
       match item with
       | Metric m => addMetricDefinition m ms
       | Point _ => ms
       end) evs ms.

Definition pointsPass (evs : list K6Output) (ms : Dict.t MetricReport) :=
  fold_left
    (fun ms item =>
       match item with
       | Point p => addDataPoint p ms
       | Metric _ => ms
       end) evs ms.

End SanitizerSpec.

(** ** Summaries *)

Module SummarySpec.
Import Js Report Sanitizer SanitizerSpec.

(** The exact value of a finite number, as a rational. *)
Definition rational (x : number) : Q :=
  match Prim2SF x with
  | S754_finite s m e =>
      let q := (inject_Z (Zpos m) * Qpower (2 # 1) e)%Q in
      if s then Qopp q else q
  | _ => 0%Q
  end.

(** The arithmetic mean of the exact values of [vs]. *)
Definition arithmetic_mean (vs : list number) : Q :=
  (fold_right Qplus 0%Q (map rational vs)
   / inject_Z (Z.of_nat (List.length vs)))%Q.

(** C5 in the words of the specification, for the average: the summary's
    [avg] is the arithmetic mean of the point values. *)
Definition avg_is_arithmetic_mean (r : MetricReport) : Prop :=
  exists s,
    mr_summary r = Some s
    /\ (rational (sm_avg s) == arithmetic_mean (map pt_value (mr_points r)))%Q.

Definition tenths : list K6Output :=
  [example_metric "latency" trend contains_time;
   Point (example_point "latency" 0.1%float);
   Point (example_point "latency" 0.2%float);
   Point (example_point "latency" 0.3%float)].

Definition one_two_three : list K6Output :=
  [example_metric "latency" trend contains_time;
   Point (example_point "latency" 1%float);
   Point (example_point "latency" 2%float);
   Point (example_point "latency" 3%float)].

Definition report_of (evs : list K6Output) (name : string) : MetricReport :=
  match getMetricByName (new evs) name with
  | Some r => r
  | None => implicit name
  end.

End SummarySpec.

(** ** Deep merge *)

Module MergeSpec.
Import Js Merge.

(** A key-value tree: an object in which no key occurs twice, at every
    level that [deepMerge] descends into. *)
Inductive key_value_tree : Dict.t value -> Prop :=
| tree_intro (props : Dict.t value) :
    Dict.wf props ->
    (forall k sub, In (k, VObject sub) props -> key_value_tree sub) ->
    key_value_tree props.

Definition nested_config : Dict.t value :=
  [("options", VObject [("vus", VNumber 5); ("iterations", VNumber 10);
                        ("tags", VObject [("env", VString "ci")])]);
   ("scenario", VArray [VObject [("name", VString "smoke")]]);
   ("label", VNull)].

End MergeSpec.

(** ** Deep merge and prototypes *)

Module PrototypeSpec.
Import Js.

(** An object that has no key [__proto__], at any level that [deepMerge]
    descends into. *)
Inductive without_proto_key : Dict.t value -> Prop :=
| without_intro (props : Dict.t value) :
    ~ In "__proto__" (Dict.keys props) ->
    (forall k sub, In (k, VObject sub) props -> without_proto_key sub) ->
    without_proto_key props.

End PrototypeSpec.

(** ** Pipeline *)

Module PipelineSpec.
Import Js Loop Pipeline.

(** [finalConfig] of [run]. *)
Definition finalConfigOf (this : AdapterPipeline) (cfg : option (Dict.t value))
  (w : World) : Dict.t value :=
  Merge.deepMerge (configAt (config this) w)
    (match cfg with Some c => c | None => Dict.empty end).

(** The registry [run] iterates over. *)
Definition registryOf (this : AdapterPipeline) (w : World)
  : Dict.t Adapter :=
  adaptersAt (adapters this) w.

(** The promise the mapping step holds for an entry, when the step runs at
    instant [t]. *)
Definition promise_of (final : Dict.t value) (t : nat)
  (entry : string * Adapter) : option Promise :=
  if truthy (read (fst entry) final)
  then Some {| settles_at := t + latency (snd entry) (read (fst entry) final);
               outcome := respond (snd entry) (read (fst entry) final) |}
  else None.

(** What the mapping step appends to the trace for an entry. *)
Definition start_events (final : Dict.t value) (entry : string * Adapter)
  : list Event :=
  if truthy (read (fst entry) final)
  then
    Started (fst entry) (read (fst entry) final)
    :: (if latency (snd entry) (read (fst entry) final) =? 0
        then [Settled (fst entry) (respond (snd entry) (read (fst entry) final))]
        else [])
  else [].

(** The run it leaves in flight. *)
Definition start_inflight (final : Dict.t value) (t : nat)
  (entry : string * Adapter) : list InFlight :=
  if truthy (read (fst entry) final)
  then
    if latency (snd entry) (read (fst entry) final) =? 0 then []
    else [{| f_key := fst entry;
             f_due := t + latency (snd entry) (read (fst entry) final);
             f_outcome := respond (snd entry) (read (fst entry) final) |}]
  else [].

Definition is_settled (e : Event) : Prop :=
  match e with Settled _ _ => True | Started _ _ => False end.

Definition rejected (p : option Promise) : bool :=
  match p with
  | Some {| outcome := Rejected _ |} => true
  | _ => false
  end.

(** The error a sequence of awaits stops on: that of the first rejected
    promise of the array. *)
Fixpoint first_rejected (ps : list (option Promise)) : option string :=
  match ps with
  | [] => None
  | Some {| outcome := Rejected e |} :: _ => Some e
  | _ :: rest => first_rejected rest
  end.

(** Same registry objects in the store. *)
Definition same_store (w w' : World) : Prop :=
  adapterObjects w' = adapterObjects w /\ configObjects w' = configObjects w.

(** The world once [run] has mapped the registry to promises. *)
Definition after_starts (final : Dict.t value) (entries : Dict.t Adapter)
  (w : World) : World :=
  {| adapterObjects := adapterObjects w;
     configObjects := configObjects w;
     now := now w;
     inflight := inflight w ++ flat_map (start_inflight final (now w)) entries;
     trace := trace w ++ flat_map (start_events final) entries |}.

(** Sequential order, as the specification words it for two adapters:
    whenever [b] is started, [a] has settled before. *)
Definition started_after_settled (tr : list Event) (a b : string) : Prop :=
  forall pre input post,
    tr = pre ++ Started b input :: post ->
    exists o, In (Settled a o) pre.

(** *** Two registered adapters *)

Definition empty_world : World :=
  {| adapterObjects := []; configObjects := []; now := 0; inflight := [];
     trace := [] |}.

(** Resolves to ["report"] after [n] turns, whatever its input. *)
Definition reporting (n : nat) : Adapter :=
  {| latency := fun _ => n; respond := fun _ => Resolved (VString "report") |}.

(** Rejects with ["boom"] before suspending. *)
Definition failing : Adapter :=
  {| latency := fun _ => 0; respond := fun _ => Rejected "boom" |}.

Definition register_two (first second : Adapter) (cfg1 cfg2 : value)
  : M AdapterPipeline :=
  bind new (fun p0 =>
  bind (addAdapter "a" first cfg1 p0) (fun p1 =>
  addAdapter "b" second cfg2 p1)).

Definition pipeline_ab : AdapterPipeline := {| adapters := 2; config := 2 |}.

Definition world_ab (first second : Adapter) (cfg1 cfg2 : value) : World :=
  snd (register_two first second cfg1 cfg2 empty_world).

End PipelineSpec.

(** ** Sanitizer: streams *)

Module StreamSpec.
Import Js Report Sanitizer SanitizerSpec.

Definition is_definition (item : K6Output) : bool :=
  match item with Metric _ => true | Point _ => false end.

Definition is_point (item : K6Output) : bool :=
  match item with Point _ => true | Metric _ => false end.

(** The names the definition events of the stream define, in arrival
    order. *)
Fixpoint definedNames (evs : list K6Output) : list string :=
  match evs with
  | [] => []
  | Metric m :: rest => md_name (m_data m) :: definedNames rest
  | Point _ :: rest => definedNames rest
  end.

(** The point events of the stream for [name], in arrival order. *)
Fixpoint pointEvents (name : string) (evs : list K6Output) : list K6Point :=
  match evs with
  | [] => []
  | Point p :: rest =>
      if String.eqb (p_metric p) name then p :: pointEvents name rest
      else pointEvents name rest
  | Metric _ :: rest => pointEvents name rest
  end.

(** The metric names of the point events of the stream, in arrival order. *)
Fixpoint pointNames (evs : list K6Output) : list string :=
  match evs with
  | [] => []
  | Point p :: rest => p_metric p :: pointNames rest
  | Metric _ :: rest => pointNames rest
  end.

(** [l] without the names of [seen] and without repetitions, each name at
    its first occurrence. *)
Fixpoint distinct (seen l : list string) : list string :=
  match l with
  | [] => []
  | x :: rest =>
      if existsb (String.eqb x) seen then distinct seen rest
      else x :: distinct (x :: seen) rest
  end.

(** The kinds a report can have. *)
Definition kinds : list string :=
  ["gauge"; "counter"; "trend"; "rate"; "unknown"].

(** The last element of a list, if any. *)
Definition last_of (A : Type) (l : list A) : option A := hd_error (rev l).

End StreamSpec.

(** ** Pipeline: failures and duration *)

Module RunSpec.
Import Js Loop Pipeline.

(** The error of the first executable adapter, in the order of the
    registry, whose promise rejects. *)
Fixpoint firstFailure (final : Dict.t value) (entries : Dict.t Adapter)
  : option string :=
  match entries with
  | [] => None
  | (key, adapter) :: rest =>
      if truthy (read key final) then
        match respond adapter (read key final) with
        | Rejected e => Some e
        | Resolved _ => firstFailure final rest
        end
      else firstFailure final rest
  end.

(** The latency of the slowest executable adapter. *)
Fixpoint slowest (final : Dict.t value) (entries : Dict.t Adapter) : nat :=
  match entries with
  | [] => 0
  | (key, adapter) :: rest =>
      if truthy (read key final)
      then Nat.max (latency adapter (read key final)) (slowest final rest)
      else slowest final rest
  end.

End RunSpec.

(** ** Load adapter *)

Module LoadSpec.
Import Js Merge Loop LoadAdapter.

(** The message of [validateConfig] for the scenario at [index]. *)
Definition scenario_message (index : nat) : string :=
  String.append "Scenario at index "
    (String.append (index_string index) " must be an object").

(** The index of the first scenario that is not an object, if any. *)
Fixpoint firstNonObject (scenarios : list value) : option nat :=
  match scenarios with
  | [] => None
  | scenario :: rest =>
      if not_an_object scenario then Some 0
      else option_map S (firstNonObject rest)
  end.

(** A [ToNumber] for strings and objects, for the examples. *)
Definition no_number (A : Type) (_ : A) : number := PrimFloat.nan.

End LoadSpec.

(* ================================================================== *)
(** * Properties *)

(** ** Dictionaries *)

Section DictFacts.
Variable V : Type.
Implicit Types (d : Dict.t V) (k : string) (v : V).

Lemma get_set_same k v d : Dict.get k (Dict.set k v d) = Some v.
Proof.
  induction d as [|[k' v'] d IH]; simpl.
  - now rewrite String.eqb_refl.
  - destruct (String.eqb k k') eqn:E; simpl; rewrite ?String.eqb_refl, ?E; auto.
Qed.

Lemma get_set_other k k' v d :
  k <> k' -> Dict.get k' (Dict.set k v d) = Dict.get k' d.
Proof.
  intros Hne. induction d as [|[k0 v0] d IH]; simpl.
  - destruct (String.eqb_spec k' k); congruence.
  - destruct (String.eqb_spec k k0) as [->|]; simpl.
    + destruct (String.eqb_spec k' k0); congruence.
    + now rewrite IH.
Qed.

Lemma get_set k k' v d :
  Dict.get k' (Dict.set k v d)
  = if String.eqb k' k then Some v else Dict.get k' d.
Proof.
  destruct (String.eqb_spec k' k) as [->|Hne].
  - apply get_set_same.
  - apply get_set_other; congruence.
Qed.

Lemma get_In_keys k d : Dict.get k d <> None <-> In k (Dict.keys d).
Proof.
  induction d as [|[k' v'] d IH]; simpl.
  - tauto.
  - destruct (String.eqb_spec k k') as [->|Hne].
    + split; [now left | discriminate].
    + rewrite IH. split; [now right | intros [E|H]; congruence].
Qed.

Lemma get_None_keys k d : Dict.get k d = None <-> ~ In k (Dict.keys d).
Proof.
  rewrite <- get_In_keys. destruct (Dict.get k d); split; intros H.
  - discriminate.
  - exfalso. apply H. discriminate.
  - intros H'. now apply H'.
  - reflexivity.
Qed.

Lemma has_true k d : Dict.has k d = true <-> In k (Dict.keys d).
Proof.
  rewrite <- get_In_keys. unfold Dict.has.
  destruct (Dict.get k d); split; congruence.
Qed.

Lemma has_false k d : Dict.has k d = false <-> Dict.get k d = None.
Proof.
  unfold Dict.has. destruct (Dict.get k d); split; congruence.
Qed.

Lemma keys_set_present k v d :
  In k (Dict.keys d) -> Dict.keys (Dict.set k v d) = Dict.keys d.
Proof.
  induction d as [|[k' v'] d IH]; simpl; [tauto|].
  intros H. destruct (String.eqb_spec k k') as [->|Hne]; simpl; auto.
  f_equal. apply IH. destruct H; congruence.
Qed.

Lemma keys_set_absent k v d :
  ~ In k (Dict.keys d) -> Dict.keys (Dict.set k v d) = Dict.keys d ++ [k].
Proof.
  induction d as [|[k' v'] d IH]; simpl; auto.
  intros H. destruct (String.eqb_spec k k') as [->|Hne]; simpl.
  - tauto.
  - f_equal. apply IH. tauto.
Qed.

Lemma wf_set k v d : Dict.wf d -> Dict.wf (Dict.set k v d).
Proof.
  unfold Dict.wf. intros Hwf.
  destruct (in_dec string_dec k (Dict.keys d)) as [Hin|Hnin].
  - now rewrite keys_set_present.
  - rewrite keys_set_absent by assumption.
    apply NoDup_app; auto.
    + constructor; [simpl; tauto | constructor].
    + intros x Hx [<-|[]]. contradiction.
Qed.

Lemma In_get k v d : Dict.wf d -> In (k, v) d -> Dict.get k d = Some v.
Proof.
  unfold Dict.wf. induction d as [|[k' v'] d IH]; simpl; [tauto|].
  intros Hwf [E|Hin].
  - inversion E; subst. now rewrite String.eqb_refl.
  - inversion Hwf as [|? ? Hnin Hwf']; subst.
    destruct (String.eqb_spec k k') as [->|Hne].
    + exfalso. apply Hnin. change k' with (fst (k', v)). now apply in_map.
    + now apply IH.
Qed.

Lemma get_In k v d : Dict.get k d = Some v -> In (k, v) d.
Proof.
  induction d as [|[k' v'] d IH]; simpl; [discriminate|].
  destruct (String.eqb_spec k k') as [->|Hne].
  - intros [= ->]. now left.
  - intros H. right. now apply IH.
Qed.

(** Writing back what a key already holds changes nothing. *)
Lemma set_get_same k v d : Dict.get k d = Some v -> Dict.set k v d = d.
Proof.
  induction d as [|[k' v'] d IH]; simpl; [discriminate|].
  destruct (String.eqb_spec k k') as [->|Hne].
  - now intros [= ->].
  - intros H. now rewrite IH.
Qed.

End DictFacts.

(* ================================================================== *)
(** ** Sanitizer: what the three passes compute *)

Module SanitizerFacts.
Import Js Report Sanitizer SanitizerSpec.

Lemma metrics_new evs :
  metrics (new evs)
  = calculateSummaries (pointsPass evs (definitionsPass evs Dict.empty)).
Proof. reflexivity. Qed.

Lemma appendPoints_nil r : appendPoints r [] = r.
Proof. destruct r; unfold appendPoints; simpl. now rewrite app_nil_r. Qed.

Lemma appendPoints_app r p q :
  appendPoints (appendPoints r p) q = appendPoints r (p ++ q).
Proof. unfold appendPoints; simpl. now rewrite app_assoc. Qed.

Lemma get_addMetricDefinition m ms n :
  Dict.get n (addMetricDefinition m ms)
  = match Dict.get n ms with
    | Some r => Some r
    | None =>
        if String.eqb (md_name (m_data m)) n then Some (declared m) else None
    end.
Proof.
  unfold addMetricDefinition.
  destruct (Dict.has (md_name (m_data m)) ms) eqn:Hhas; simpl.
  - destruct (Dict.get n ms) eqn:G; auto.
    destruct (String.eqb_spec (md_name (m_data m)) n) as [E|]; auto.
    apply has_true, get_In_keys in Hhas. congruence.
  - apply has_false in Hhas. rewrite get_set.
    rewrite (String.eqb_sym n).
    destruct (String.eqb_spec (md_name (m_data m)) n) as [E|].
    + subst n. now rewrite Hhas.
    + now destruct (Dict.get n ms).
Qed.

Lemma get_definitionsPass evs : forall ms n,
  Dict.get n (definitionsPass evs ms)
  = match Dict.get n ms with
    | Some r => Some r
    | None => option_map declared (firstDefinition n evs)
    end.
Proof.
  induction evs as [|[m|p] evs IH]; intros ms n; simpl.
  - now destruct (Dict.get n ms).
  - unfold definitionsPass in *. simpl. rewrite IH, get_addMetricDefinition.
    destruct (Dict.get n ms); auto.
    now destruct (String.eqb (md_name (m_data m)) n).
  - apply IH.
Qed.

Lemma get_addDataPoint p ms n :
  Dict.get n (addDataPoint p ms)
  = if String.eqb (p_metric p) n
    then Some (appendPoints
                 (match Dict.get n ms with
                  | Some r => r
                  | None => implicit n
                  end) [reportPoint p])
    else Dict.get n ms.
Proof.
  unfold addDataPoint.
  destruct (Dict.has (p_metric p) ms) eqn:Hhas; simpl.
  - unfold Dict.has in Hhas.
    destruct (Dict.get (p_metric p) ms) as [r|] eqn:G; [|discriminate].
    rewrite get_set, (String.eqb_sym n).
    destruct (String.eqb_spec (p_metric p) n) as [E|]; auto.
    subst n. now rewrite G.
  - apply has_false in Hhas. rewrite get_set_same, !get_set.
    rewrite (String.eqb_sym n).
    destruct (String.eqb_spec (p_metric p) n) as [E|]; auto.
    subst n. now rewrite Hhas.
Qed.

Lemma get_pointsPass evs : forall ms n,
  Dict.get n (pointsPass evs ms)
  = match Dict.get n ms with
    | Some r => Some (appendPoints r (pointsOf n evs))
    | None =>
        match pointsOf n evs with
        | [] => None
        | pts => Some (appendPoints (implicit n) pts)
        end
    end.
Proof.
  induction evs as [|[m|p] evs IH]; intros ms n; simpl.
  - destruct (Dict.get n ms); [now rewrite appendPoints_nil | reflexivity].
  - apply IH.
  - unfold pointsPass in *. simpl. rewrite IH, get_addDataPoint.
    destruct (String.eqb (p_metric p) n).
    + rewrite appendPoints_app. simpl. now destruct (Dict.get n ms).
    + reflexivity.
Qed.

Lemma get_calculateSummaries ms n :
  Dict.get n (calculateSummaries ms) = option_map withSummary (Dict.get n ms).
Proof.
  induction ms as [|[k r] ms IH]; simpl; auto.
  now destruct (String.eqb n k).
Qed.

(** The report the sanitizer holds for each name. *)
Lemma get_metrics_new evs n :
  Dict.get n (metrics (new evs)) = option_map withSummary (collected n evs).
Proof.
  rewrite metrics_new, get_calculateSummaries, get_pointsPass,
    get_definitionsPass.
  unfold collected. simpl.
  destruct (firstDefinition n evs); simpl; auto.
Qed.

Lemma firstDefinition_name n evs m :
  firstDefinition n evs = Some m -> md_name (m_data m) = n.
Proof.
  induction evs as [|[m'|p] evs IH]; simpl; try discriminate; auto.
  destruct (String.eqb_spec (md_name (m_data m')) n); auto.
  now intros [= <-].
Qed.

Lemma withSummary_fields r :
  mr_name (withSummary r) = mr_name r
  /\ mr_type (withSummary r) = mr_type r
  /\ mr_description (withSummary r) = mr_description r
  /\ mr_unit (withSummary r) = mr_unit r
  /\ mr_points (withSummary r) = mr_points r.
Proof. unfold withSummary. destruct (0 <? _); simpl; auto. Qed.

Lemma collected_name n evs r : collected n evs = Some r -> mr_name r = n.
Proof.
  unfold collected.
  destruct (firstDefinition n evs) as [m|] eqn:F.
  - intros [= <-]. simpl. eapply firstDefinition_name; eauto.
  - destruct (pointsOf n evs); [discriminate|]. now intros [= <-].
Qed.

Lemma collected_summary n evs r : collected n evs = Some r -> mr_summary r = None.
Proof.
  unfold collected.
  destruct (firstDefinition n evs) as [m|].
  - now intros [= <-].
  - destruct (pointsOf n evs); [discriminate|]. now intros [= <-].
Qed.

Lemma collected_points n evs r :
  collected n evs = Some r -> mr_points r = pointsOf n evs.
Proof.
  unfold collected.
  destruct (firstDefinition n evs) as [m|].
  - now intros [= <-].
  - destruct (pointsOf n evs) eqn:E; [discriminate|]. now intros [= <-].
Qed.

Lemma wf_definitionsPass evs : forall ms,
  Dict.wf ms -> Dict.wf (definitionsPass evs ms).
Proof.
  induction evs as [|[m|p] evs IH]; intros ms Hwf; simpl; auto.
  apply IH. unfold addMetricDefinition.
  destruct (negb _); auto using wf_set.
Qed.

Lemma wf_pointsPass evs : forall ms,
  Dict.wf ms -> Dict.wf (pointsPass evs ms).
Proof.
  induction evs as [|[m|p] evs IH]; intros ms Hwf; simpl; auto.
  apply IH. unfold addDataPoint.
  destruct (negb _); simpl;
    destruct (Dict.get _ _); auto using wf_set.
Qed.

Lemma keys_calculateSummaries ms :
  Dict.keys (calculateSummaries ms) = Dict.keys ms.
Proof.
  unfold calculateSummaries, Dict.keys. rewrite map_map. reflexivity.
Qed.

Lemma wf_metrics_new evs : Dict.wf (metrics (new evs)).
Proof.
  rewrite metrics_new. unfold Dict.wf. rewrite keys_calculateSummaries.
  apply wf_pointsPass, wf_definitionsPass. constructor.
Qed.

(** Every report is stored under its own name. *)
Lemma entry_name evs k r : In (k, r) (metrics (new evs)) -> mr_name r = k.
Proof.
  intros Hin. apply In_get in Hin; [|apply wf_metrics_new].
  rewrite get_metrics_new in Hin.
  destruct (collected k evs) as [r0|] eqn:C; [|discriminate].
  injection Hin as <-.
  destruct (withSummary_fields r0) as [-> _]. eapply collected_name; eauto.
Qed.

Lemma names_are_keys evs :
  map mr_name (getSanitizedOutput (new evs)) = Dict.keys (metrics (new evs)).
Proof.
  unfold getSanitizedOutput, Dict.values, Dict.keys.
  rewrite map_map. apply map_ext_in. intros [k r] Hin. simpl.
  eapply entry_name; eauto.
Qed.

Lemma output_names_NoDup evs :
  NoDup (map mr_name (getSanitizedOutput (new evs))).
Proof. rewrite names_are_keys. apply wf_metrics_new. Qed.

Lemma In_output evs r :
  In r (getSanitizedOutput (new evs))
  <-> getMetricByName (new evs) (mr_name r) = Some r.
Proof.
  unfold getSanitizedOutput, getMetricByName, Dict.values. split.
  - intros Hin. apply in_map_iff in Hin as [[k r'] [E Hin]].
    simpl in E. subst r'. pose proof (entry_name _ _ _ Hin) as ->.
    apply In_get; auto using wf_metrics_new.
  - intros G. apply get_In in G.
    change r with (snd (mr_name r, r)). now apply in_map.
Qed.

(** The points collected for [name] are its point events, each kept with
    its time string, its value, its tags and the date made from its time
    string. *)
Lemma pointsOf_pointEvents name evs :
  pointsOf name evs
  = map (fun q =>
           {| pt_time := pd_time (p_data q);
              pt_value := pd_value (p_data q);
              pt_tags := pd_tags (p_data q);
              pt_timestamp := Some (NewDate (pd_time (p_data q))) |})
      (StreamSpec.pointEvents name evs).
Proof.
  induction evs as [|[m|p] evs IH]; simpl; auto.
  destruct (String.eqb (p_metric p) name); simpl; [f_equal|]; auto.
Qed.

Lemma In_pointEvents name evs p :
  In p (StreamSpec.pointEvents name evs)
  <-> In (Point p) evs /\ p_metric p = name.
Proof.
  induction evs as [|[m|q] evs IH]; simpl.
  - tauto.
  - rewrite IH. split; [tauto|]. intros [[E|H] Hn]; [discriminate | tauto].
  - destruct (String.eqb_spec (p_metric q) name) as [E|Hne]; simpl;
      rewrite IH; split.
    + intros [->|[H Hn]]; auto.
    + intros [[[= ->]|H] Hn]; auto.
    + tauto.
    + intros [[[= ->]|H] Hn]; [contradiction | auto].
Qed.

End SanitizerFacts.

(* ================================================================== *)
(** ** The order of numbers, [Math.min] and [Math.max] *)

Module NumberOrder.
Import Js.

Local Open Scope float_scope.

Lemma cont_Eq_is_compare m n : PosDef.Pos.compare_cont Eq m n = Pos.compare m n.
Proof. reflexivity. Qed.

Ltac order_cases :=
  repeat match goal with
  | |- context [Z.compare ?a ?b] => destruct (Z.compare_spec a b)
  | H : context [Z.compare ?a ?b] |- _ => destruct (Z.compare_spec a b)
  | |- context [Pos.compare ?a ?b] => destruct (Pos.compare_spec a b)
  | H : context [Pos.compare ?a ?b] |- _ => destruct (Pos.compare_spec a b)
  end.

Ltac by_cases_on_floats :=
  intros;
  repeat match goal with
  | a : spec_float |- _ => destruct a as [[|]|[|]| |[|] ? ?]
  end;
  cbn in *; try discriminate; try reflexivity; try contradiction;
  repeat (progress (rewrite ?cont_Eq_is_compare in *; order_cases; subst;
                    cbn in *));
  try discriminate; try reflexivity; try lia.

Lemma SFleb_trans a b c :
  SFleb a b = true -> SFleb b c = true -> SFleb a c = true.
Proof. unfold SFleb. by_cases_on_floats. Qed.

Lemma SFleb_refl a : a <> S754_nan -> SFleb a a = true.
Proof.
  unfold SFleb. destruct a as [[|]|[|]| |[|] m e]; cbn; try congruence;
    rewrite Z.compare_refl, cont_Eq_is_compare, Pos.compare_refl; reflexivity.
Qed.

Lemma SFltb_leb a b : SFltb a b = true -> SFleb a b = true.
Proof. unfold SFltb, SFleb. now destruct (SFcompare a b) as [[| |]|]. Qed.

Lemma SFcompare_opp a b :
  SFcompare b a = option_map CompOpp (SFcompare a b).
Proof.
  revert a b. by_cases_on_floats.
Qed.

Lemma SFnot_ltb_leb a b :
  a <> S754_nan -> b <> S754_nan -> SFltb a b = false -> SFleb b a = true.
Proof.
  unfold SFltb, SFleb. intros Ha Hb. rewrite (SFcompare_opp a b).
  destruct (SFcompare a b) as [[| |]|] eqn:E; cbn; try congruence.
  destruct a, b; cbn in E; congruence.
Qed.

Lemma SFeqb_zero a :
  SFeqb a (S754_zero false) = true -> exists s, a = S754_zero s.
Proof.
  unfold SFeqb. destruct a as [s|[|]| |[|] m e]; cbn; try discriminate.
  now exists s.
Qed.

Lemma Prim2SF_zero : Prim2SF zero = S754_zero false.
Proof. reflexivity. Qed.

Lemma Prim2SF_infinity : Prim2SF infinity = S754_infinity false.
Proof. reflexivity. Qed.

Lemma Prim2SF_neg_infinity : Prim2SF neg_infinity = S754_infinity true.
Proof. reflexivity. Qed.

Lemma is_nan_false x : is_nan x = false <-> Prim2SF x <> S754_nan.
Proof.
  unfold is_nan. rewrite eqb_spec. unfold SFeqb. split.
  - intros H E. rewrite E in H. discriminate.
  - intros H. pose proof (SFleb_refl H) as R. unfold SFleb in R.
    destruct (SFcompare (Prim2SF x) (Prim2SF x)) as [[| |]|] eqn:E;
      try reflexivity; try discriminate.
    pose proof (SFcompare_opp (Prim2SF x) (Prim2SF x)) as O.
    rewrite E in O. discriminate.
Qed.

Lemma leb_not_nan x y :
  (x <=? y) = true -> is_nan x = false /\ is_nan y = false.
Proof.
  rewrite leb_spec, !is_nan_false. unfold SFleb.
  destruct (Prim2SF x), (Prim2SF y); cbn; try discriminate;
    split; discriminate.
Qed.

Lemma leb_refl x : is_nan x = false -> (x <=? x) = true.
Proof. rewrite is_nan_false, leb_spec. apply SFleb_refl. Qed.

Lemma leb_trans x y z :
  (x <=? y) = true -> (y <=? z) = true -> (x <=? z) = true.
Proof. rewrite !leb_spec. apply SFleb_trans. Qed.

Lemma ltb_leb x y : (x <? y) = true -> (x <=? y) = true.
Proof. rewrite ltb_spec, leb_spec. apply SFltb_leb. Qed.

Lemma not_ltb_leb x y :
  is_nan x = false -> is_nan y = false ->
  (x <? y) = false -> (y <=? x) = true.
Proof. rewrite !is_nan_false, ltb_spec, leb_spec. apply SFnot_ltb_leb. Qed.

Lemma zeros_leb x y : is_zero x = true -> is_zero y = true -> (x <=? y) = true.
Proof.
  unfold is_zero. rewrite !eqb_spec, leb_spec, Prim2SF_zero.
  intros Hx Hy. apply SFeqb_zero in Hx as [sx ->], Hy as [sy ->].
  reflexivity.
Qed.

Lemma leb_infinity x : is_nan x = false -> (x <=? infinity) = true.
Proof.
  rewrite is_nan_false, leb_spec, Prim2SF_infinity.
  destruct (Prim2SF x) as [[|]|[|]| |[|] m e]; cbn; congruence.
Qed.

Lemma neg_infinity_leb x : is_nan x = false -> (neg_infinity <=? x) = true.
Proof.
  rewrite is_nan_false, leb_spec, Prim2SF_neg_infinity.
  destruct (Prim2SF x) as [[|]|[|]| |[|] m e]; cbn; congruence.
Qed.

Lemma infinity_leb_inv x : (infinity <=? x) = true -> x = infinity.
Proof.
  rewrite leb_spec, Prim2SF_infinity. intros H. apply Prim2SF_inj.
  rewrite Prim2SF_infinity.
  destruct (Prim2SF x) as [[|]|[|]| |[|] m e]; cbn in H;
    try discriminate; reflexivity.
Qed.

Lemma leb_neg_infinity_inv x : (x <=? neg_infinity) = true -> x = neg_infinity.
Proof.
  rewrite leb_spec, Prim2SF_neg_infinity. intros H. apply Prim2SF_inj.
  rewrite Prim2SF_neg_infinity.
  destruct (Prim2SF x) as [[|]|[|]| |[|] m e]; cbn in H;
    try discriminate; reflexivity.
Qed.

Lemma is_nan_nan : is_nan nan = true.
Proof. reflexivity. Qed.

(** *** [Math.min] *)

Lemma min_from_nan l : forall lowest,
  Exists (fun v => is_nan v = true) l -> min_from lowest l = nan.
Proof.
  induction l as [|x l IH]; intros lowest H; inversion H; subst; simpl.
  - now rewrite H1.
  - destruct (is_nan x); auto.
Qed.

Lemma min_from_spec l : forall lowest,
  is_nan lowest = false ->
  Forall (fun v => is_nan v = false) l ->
  (min_from lowest l = lowest \/ In (min_from lowest l) l)
  /\ (min_from lowest l <=? lowest) = true
  /\ Forall (fun v => (min_from lowest l <=? v) = true) l.
Proof.
  induction l as [|x l IH]; intros lowest Hl Hall.
  - simpl. auto using leb_refl.
  - inversion Hall as [|? ? Hx Hall']; subst.
    pose (lowest1 :=
            if is_neg_zero x && is_pos_zero lowest then x else lowest).
    pose (lowest2 := if x <? lowest1 then x else lowest1).
    assert (Hstep : min_from lowest (x :: l) = min_from lowest2 l)
      by (cbn [min_from]; rewrite Hx; reflexivity).
    rewrite Hstep. cbn [In].
    assert (H1 : (lowest1 = x \/ lowest1 = lowest)
                 /\ (lowest1 <=? lowest) = true
                 /\ is_nan lowest1 = false).
    { unfold lowest1, is_neg_zero, is_pos_zero.
      destruct (is_zero x) eqn:Zx, (get_sign x), (is_zero lowest) eqn:Zl,
        (get_sign lowest); simpl; auto using leb_refl, zeros_leb. }
    destruct H1 as (H1a & H1b & H1c).
    assert (H2 : (lowest2 = x \/ lowest2 = lowest)
                 /\ (lowest2 <=? lowest) = true
                 /\ (lowest2 <=? x) = true
                 /\ is_nan lowest2 = false).
    { unfold lowest2. destruct (x <? lowest1) eqn:C.
      - repeat split; auto using leb_refl.
        apply leb_trans with lowest1; auto using ltb_leb.
      - repeat split; auto. now apply not_ltb_leb. }
    destruct H2 as (H2a & H2b & H2c & H2d).
    destruct (IH lowest2 H2d Hall') as (Ia & Ib & Ic).
    split; [|split].
    + destruct Ia as [->|Ia]; [|now right; right].
      destruct H2a as [->| ->]; [right; now left | now left].
    + eapply leb_trans; eauto.
    + constructor; [eapply leb_trans; eauto | exact Ic].
Qed.

(** Without NaN among them, [Math.min] of a non-empty list is one of its
    elements and is below every element. *)
Lemma Math_min_is_minimum l :
  l <> [] ->
  Forall (fun v => is_nan v = false) l ->
  In (Math_min l) l /\ Forall (fun v => (Math_min l <=? v) = true) l.
Proof.
  intros Hne Hall.
  destruct (@min_from_spec l infinity eq_refl Hall) as (Ha & _ & Hc).
  fold (Math_min l) in *. split; [|exact Hc].
  destruct Ha as [E|Hin]; [|exact Hin].
  destruct l as [|x l]; [congruence|].
  inversion Hc as [|? ? Hx _]; subst. rewrite E in Hx.
  apply infinity_leb_inv in Hx. rewrite E, Hx. now left.
Qed.

(** *** [Math.max] *)

Lemma max_from_nan l : forall highest,
  Exists (fun v => is_nan v = true) l -> max_from highest l = nan.
Proof.
  induction l as [|x l IH]; intros highest H; inversion H; subst; simpl.
  - now rewrite H1.
  - destruct (is_nan x); auto.
Qed.

Lemma max_from_spec l : forall highest,
  is_nan highest = false ->
  Forall (fun v => is_nan v = false) l ->
  (max_from highest l = highest \/ In (max_from highest l) l)
  /\ (highest <=? max_from highest l) = true
  /\ Forall (fun v => (v <=? max_from highest l) = true) l.
Proof.
  induction l as [|x l IH]; intros highest Hl Hall.
  - simpl. auto using leb_refl.
  - inversion Hall as [|? ? Hx Hall']; subst.
    pose (highest1 :=
            if is_pos_zero x && is_neg_zero highest then x else highest).
    pose (highest2 := if highest1 <? x then x else highest1).
    assert (Hstep : max_from highest (x :: l) = max_from highest2 l)
      by (cbn [max_from]; rewrite Hx; reflexivity).
    rewrite Hstep. cbn [In].
    assert (H1 : (highest1 = x \/ highest1 = highest)
                 /\ (highest <=? highest1) = true
                 /\ is_nan highest1 = false).
    { unfold highest1, is_neg_zero, is_pos_zero.
      destruct (is_zero x) eqn:Zx, (get_sign x), (is_zero highest) eqn:Zl,
        (get_sign highest); simpl; auto using leb_refl, zeros_leb. }
    destruct H1 as (H1a & H1b & H1c).
    assert (H2 : (highest2 = x \/ highest2 = highest)
                 /\ (highest <=? highest2) = true
                 /\ (x <=? highest2) = true
                 /\ is_nan highest2 = false).
    { unfold highest2. destruct (highest1 <? x) eqn:C.
      - repeat split; auto using leb_refl.
        apply leb_trans with highest1; auto using ltb_leb.
      - repeat split; auto. now apply not_ltb_leb. }
    destruct H2 as (H2a & H2b & H2c & H2d).
    destruct (IH highest2 H2d Hall') as (Ia & Ib & Ic).
    split; [|split].
    + destruct Ia as [->|Ia]; [|now right; right].
      destruct H2a as [->| ->]; [right; now left | now left].
    + eapply leb_trans; eauto.
    + constructor; [eapply leb_trans; eauto | exact Ic].
Qed.

(** Without NaN among them, [Math.max] of a non-empty list is one of its
    elements and is above every element. *)
Lemma Math_max_is_maximum l :
  l <> [] ->
  Forall (fun v => is_nan v = false) l ->
  In (Math_max l) l /\ Forall (fun v => (v <=? Math_max l) = true) l.
Proof.
  intros Hne Hall.
  destruct (@max_from_spec l neg_infinity eq_refl Hall) as (Ha & _ & Hc).
  fold (Math_max l) in *. split; [|exact Hc].
  destruct Ha as [E|Hin]; [|exact Hin].
  destruct l as [|x l]; [congruence|].
  inversion Hc as [|? ? Hx _]; subst. rewrite E in Hx.
  apply leb_neg_infinity_inv in Hx. rewrite E, Hx. now left.
Qed.

End NumberOrder.

(* ================================================================== *)
(** ** Sanitizer: description lookup, implicit metrics, deduplication,
       minimal output *)

Module SanitizerClaims.
Import Js Report Sanitizer SanitizerSpec SanitizerFacts.

Lemma descriptions_nonempty name d :
  Dict.get name descriptions = Some d -> String.eqb d "" = false.
Proof.
  intros G. apply get_In in G. unfold descriptions in G. simpl in G.
  repeat (destruct G as [G|G]; [injection G as <- <-; reflexivity|]).
  destruct G.
Qed.

(** C2, as amended.  The description lookup is a total function.  For a name
    of the static table it returns the table's description; for any other
    name that is not a member inherited from [Object.prototype] it returns
    the generic description made of the word "Métrica", a colon, a space and
    the name. *)
Theorem getMetricDescription_lookup (name : string) :
  (forall d, Dict.get name descriptions = Some d ->
             getMetricDescription name = Text d)
  /\ (Dict.get name descriptions = None -> inherited name = false ->
      getMetricDescription name = Text (String.append "Métrica: " name)).
Proof.
  unfold getMetricDescription. split.
  - intros d G. rewrite G. now rewrite (descriptions_nonempty _ G).
  - intros -> ->. reflexivity.
Qed.

Lemma getMetricDescription_lookup_witness :
  getMetricDescription "vus"
  = Text "Virtual Users - Número de usuarios virtuales activos"
  /\ getMetricDescription "my_counter" = Text "Métrica: my_counter".
Proof.
  split.
  - apply (proj1 (getMetricDescription_lookup "vus")). reflexivity.
  - apply (proj2 (getMetricDescription_lookup "my_counter")); reflexivity.
Defined.

(** C2, as stated, fails: for a name outside the table the lookup does not
    return "Metric: my_counter" but "Métrica: my_counter"; and for a name
    such as "constructor" it returns no string at all. *)
Lemma generic_description_is_not_Metric_colon :
  Dict.get "my_counter" descriptions = None
  /\ getMetricDescription "my_counter" <> Text "Metric: my_counter"
  /\ getMetricDescription "my_counter" = Text "Métrica: my_counter"
  /\ Dict.get "constructor" descriptions = None
  /\ getMetricDescription "constructor" = Inherited "constructor".
Proof. repeat split; try reflexivity. discriminate. Qed.

(** C3.  A point whose metric name has no definition event is never dropped:
    the sanitizer holds a report for that name with kind "unknown", no unit
    and the description of the standard lookup.  Its points are the point
    events of the stream for that name in arrival order, each kept with its
    own time string, value and tags and with the date made from its time
    string; the given point is one of these events, so the report holds it
    with exactly its time, value and tags. *)
Theorem undefined_metric_point_is_kept (evs : list K6Output) (p : K6Point) :
  In (Point p) evs ->
  (forall m, In (Metric m) evs -> md_name (m_data m) <> p_metric p) ->
  exists r,
    getMetricByName (new evs) (p_metric p) = Some r
    /\ In r (getSanitizedOutput (new evs))
    /\ mr_name r = p_metric p
    /\ mr_type r = "unknown"
    /\ mr_unit r = None
    /\ mr_description r = getMetricDescription (p_metric p)
    /\ mr_points r
       = map (fun q =>
                {| pt_time := pd_time (p_data q);
                   pt_value := pd_value (p_data q);
                   pt_tags := pd_tags (p_data q);
                   pt_timestamp := Some (NewDate (pd_time (p_data q))) |})
           (StreamSpec.pointEvents (p_metric p) evs)
    /\ In p (StreamSpec.pointEvents (p_metric p) evs)
    /\ In {| pt_time := pd_time (p_data p);
             pt_value := pd_value (p_data p);
             pt_tags := pd_tags (p_data p);
             pt_timestamp := Some (NewDate (pd_time (p_data p))) |}
         (mr_points r).
Proof.
  intros Hp Hundef.
  assert (F : firstDefinition (p_metric p) evs = None).
  { clear Hp. induction evs as [|[m|q] evs IH]; simpl; auto.
    - destruct (String.eqb_spec (md_name (m_data m)) (p_metric p)) as [E|].
      + exfalso. apply (Hundef m); simpl; auto.
      + apply IH. intros m' Hin. apply Hundef. now right.
    - apply IH. intros m' Hin. apply Hundef. now right. }
  assert (P : In (reportPoint p) (pointsOf (p_metric p) evs)).
  { clear Hundef F. induction evs as [|[m|q] evs IH]; simpl in *.
    - contradiction.
    - destruct Hp as [E|Hp]; [discriminate | auto].
    - destruct Hp as [E|Hp].
      + injection E as ->. rewrite String.eqb_refl. now left.
      + destruct (String.eqb (p_metric q) (p_metric p)); [right|]; auto. }
  pose proof (get_metrics_new evs (p_metric p)) as G.
  unfold collected in G. rewrite F in G.
  destruct (pointsOf (p_metric p) evs) as [|q qs] eqn:E; [contradiction|].
  simpl in G.
  set (r0 := appendPoints (implicit (p_metric p)) (q :: qs)) in *.
  destruct (withSummary_fields r0) as (Hn & Ht & Hd & Hu & Hpts).
  exists (withSummary r0).
  assert (Hname : mr_name (withSummary r0) = p_metric p) by now rewrite Hn.
  split; [exact G|]. split; [apply In_output; now rewrite Hname|].
  assert (Hin : In p (StreamSpec.pointEvents (p_metric p) evs))
    by (apply In_pointEvents; auto).
  assert (Pts : mr_points r0
                = map (fun q =>
                         {| pt_time := pd_time (p_data q);
                            pt_value := pd_value (p_data q);
                            pt_tags := pd_tags (p_data q);
                            pt_timestamp :=
                              Some (NewDate (pd_time (p_data q))) |})
                    (StreamSpec.pointEvents (p_metric p) evs)).
  { unfold r0. simpl. rewrite <- E. apply pointsOf_pointEvents. }
  rewrite Hn, Ht, Hu, Hd, Hpts, Pts.
  repeat (split; [reflexivity|]). split; [exact Hin|].
  apply (in_map (fun q =>
                   {| pt_time := pd_time (p_data q);
                      pt_value := pd_value (p_data q);
                      pt_tags := pd_tags (p_data q);
                      pt_timestamp := Some (NewDate (pd_time (p_data q))) |})
           _ _ Hin).
Qed.

Lemma undefined_metric_point_is_kept_witness :
  let evs := [example_metric "vus" gauge contains_default;
              Point (example_point "orphan" 7%float)] in
  exists r,
    getMetricByName (new evs) "orphan" = Some r
    /\ In r (getSanitizedOutput (new evs))
    /\ mr_name r = "orphan"
    /\ mr_type r = "unknown"
    /\ mr_unit r = None
    /\ mr_description r = getMetricDescription "orphan"
    /\ mr_points r
       = [{| pt_time := "2024-05-01T10:00:00.000Z";
             pt_value := 7%float;
             pt_tags := [("scenario", "default")];
             pt_timestamp := Some (NewDate "2024-05-01T10:00:00.000Z") |}]
    /\ In (example_point "orphan" 7%float)
         (StreamSpec.pointEvents "orphan" evs)
    /\ In {| pt_time := "2024-05-01T10:00:00.000Z";
             pt_value := 7%float;
             pt_tags := [("scenario", "default")];
             pt_timestamp := Some (NewDate "2024-05-01T10:00:00.000Z") |}
         (mr_points r).
Proof.
  apply (undefined_metric_point_is_kept
           [example_metric "vus" gauge contains_default;
            Point (example_point "orphan" 7%float)]
           (example_point "orphan" 7%float)).
  - simpl. auto.
  - intros m [E|[E|[]]]; [|discriminate].
    injection E as <-. discriminate.
Defined.

Lemma firstDefinition_first pre m post :
  (forall m', In (Metric m') pre -> md_name (m_data m') <> md_name (m_data m)) ->
  firstDefinition (md_name (m_data m)) (pre ++ Metric m :: post) = Some m.
Proof.
  induction pre as [|[m'|q] pre IH]; intros Hpre; simpl.
  - now rewrite String.eqb_refl.
  - destruct (String.eqb_spec (md_name (m_data m')) (md_name (m_data m))) as [E|].
    + exfalso. apply (Hpre m'); simpl; auto.
    + apply IH. intros m0 Hin. apply Hpre. now right.
  - apply IH. intros m0 Hin. apply Hpre. now right.
Qed.

Lemma definitionsPass_app a b ms :
  definitionsPass (a ++ b) ms = definitionsPass b (definitionsPass a ms).
Proof. apply fold_left_app. Qed.

Lemma pointsPass_app a b ms :
  pointsPass (a ++ b) ms = pointsPass b (pointsPass a ms).
Proof. apply fold_left_app. Qed.

Lemma has_definitionsPass evs : forall ms n,
  Dict.has n ms = true -> Dict.has n (definitionsPass evs ms) = true.
Proof.
  intros ms n. unfold Dict.has. rewrite get_definitionsPass.
  now destruct (Dict.get n ms).
Qed.

(** A definition event for a name that an earlier event already defined
    leaves the sanitizer exactly as if it were not in the stream. *)
Lemma later_definition_ignored pre m mid m' post :
  md_name (m_data m') = md_name (m_data m) ->
  metrics (new (pre ++ Metric m :: mid ++ Metric m' :: post))
  = metrics (new (pre ++ Metric m :: mid ++ post)).
Proof.
  intros E. rewrite !metrics_new. f_equal.
  assert (D : forall ms,
             definitionsPass (pre ++ Metric m :: mid ++ Metric m' :: post) ms
             = definitionsPass (pre ++ Metric m :: mid ++ post) ms).
  { intros ms. rewrite !definitionsPass_app. simpl.
    rewrite !definitionsPass_app. simpl. f_equal.
    set (ms1 := definitionsPass mid _).
    assert (H : Dict.has (md_name (m_data m')) ms1 = true).
    { apply has_definitionsPass. rewrite E. unfold Dict.has.
      rewrite get_addMetricDefinition, String.eqb_refl.
      now destruct (Dict.get _ _). }
    unfold addMetricDefinition. now rewrite H. }
  rewrite D.
  change (pre ++ Metric m :: mid ++ Metric m' :: post)
    with (pre ++ (Metric m :: mid) ++ Metric m' :: post).
  change (pre ++ Metric m :: mid ++ post)
    with (pre ++ (Metric m :: mid) ++ post).
  rewrite !app_assoc. rewrite !pointsPass_app. reflexivity.
Qed.

(** C4.  Each metric name yields at most one report in the output; the first
    definition event seen for a name determines the kind, unit and
    description of its report; and a later definition event for that name is
    ignored: the sanitizer holds what it would hold without that event. *)
Theorem one_report_per_name_first_definition_wins (evs : list K6Output) :
  NoDup (map mr_name (getSanitizedOutput (new evs)))
  /\ (forall pre m post,
        evs = pre ++ Metric m :: post ->
        (forall m', In (Metric m') pre ->
                    md_name (m_data m') <> md_name (m_data m)) ->
        exists r,
          getMetricByName (new evs) (md_name (m_data m)) = Some r
          /\ mr_type r = MetricType_string (md_type (m_data m))
          /\ mr_unit r = getUnitFromContains (md_contains (m_data m))
          /\ mr_description r = getMetricDescription (md_name (m_data m)))
  /\ (forall pre m mid m' post,
        evs = pre ++ Metric m :: mid ++ Metric m' :: post ->
        md_name (m_data m') = md_name (m_data m) ->
        metrics (new evs) = metrics (new (pre ++ Metric m :: mid ++ post))).
Proof.
  split; [|split].
  - apply output_names_NoDup.
  - intros pre m post -> Hpre.
    pose proof (get_metrics_new (pre ++ Metric m :: post) (md_name (m_data m)))
      as G.
    unfold collected in G. rewrite firstDefinition_first in G by exact Hpre.
    simpl in G. eexists. split; [exact G|].
    match goal with |- context [withSummary ?r] =>
      destruct (withSummary_fields r) as (_ & -> & -> & -> & _) end.
    auto.
  - intros pre m mid m' post -> E. now apply later_definition_ignored.
Qed.

Lemma one_report_per_name_first_definition_wins_witness :
  let evs := [example_metric "vus" gauge contains_default;
              Point (example_point "vus" 3%float);
              example_metric "vus" trend contains_time] in
  NoDup (map mr_name (getSanitizedOutput (new evs)))
  /\ (exists r,
        getMetricByName (new evs) "vus" = Some r
        /\ mr_type r = "gauge"
        /\ mr_unit r = None
        /\ mr_description r = getMetricDescription "vus")
  /\ metrics (new evs)
     = metrics (new [example_metric "vus" gauge contains_default;
                     Point (example_point "vus" 3%float)]).
Proof.
  pose proof (one_report_per_name_first_definition_wins
                [example_metric "vus" gauge contains_default;
                 Point (example_point "vus" 3%float);
                 example_metric "vus" trend contains_time]) as (H1 & H2 & H3).
  split; [exact H1|]. split.
  - exact (H2 [] _ _ eq_refl (fun m' (H : In (Metric m') []) => match H with end)).
  - exact (H3 [] _ [Point (example_point "vus" 3%float)] _ [] eq_refl eq_refl).
Defined.

Lemma get_fold_set_other (B : Type) (f : MetricReport -> B) l : forall acc n,
  ~ In n (map mr_name l) ->
  Dict.get n
    (fold_left (fun acc m => Dict.set (mr_name m) (f m) acc) l acc)
  = Dict.get n acc.
Proof.
  induction l as [|r0 l IH]; intros acc n Hn; simpl in *; auto.
  rewrite IH by tauto. apply get_set_other. tauto.
Qed.

Lemma get_fold_set (B : Type) (f : MetricReport -> B) l : forall acc r,
  NoDup (map mr_name l) -> In r l ->
  Dict.get (mr_name r)
    (fold_left (fun acc m => Dict.set (mr_name m) (f m) acc) l acc)
  = Some (f r).
Proof.
  induction l as [|r0 l IH]; intros acc r Hnd Hin; simpl in *; [tauto|].
  inversion Hnd as [|? ? Hn Hnd']; subst.
  destruct Hin as [->|Hin].
  - rewrite get_fold_set_other by assumption. apply get_set_same.
  - now apply IH.
Qed.

(** C10.  When the processed state holds a report with zero points,
    [toMinimalOutput] returns an object that has an entry for that metric
    name, whose [lastValue] and [summary] are both undefined; indexing the
    empty point sequence at [length - 1] reads as undefined and nothing is
    raised. *)
Theorem minimal_output_of_empty_report
  (evs : list K6Output) (name : string) (r : MetricReport) :
  getMetricByName (new evs) name = Some r ->
  mr_points r = [] ->
  Dict.get name (toMinimalOutput (new evs))
  = Some {| me_summary := None; me_lastValue := None; me_unit := mr_unit r |}.
Proof.
  intros G Hpts.
  assert (Hname : mr_name r = name).
  { eapply entry_name. apply get_In. exact G. }
  assert (Hsum : mr_summary r = None).
  { unfold getMetricByName in G. rewrite get_metrics_new in G.
    destruct (collected name evs) as [r0|] eqn:C; [|discriminate].
    injection G as <-.
    destruct (withSummary_fields r0) as (_ & _ & _ & _ & P).
    rewrite P in Hpts. unfold withSummary. rewrite Hpts. simpl.
    eapply collected_summary; eauto. }
  unfold toMinimalOutput. rewrite <- Hname.
  rewrite get_fold_set with (r := r).
  - unfold lastValue. now rewrite Hsum, Hpts.
  - apply output_names_NoDup.
  - apply In_output. now rewrite Hname.
Qed.

Lemma minimal_output_of_empty_report_witness :
  Dict.get "vus"
    (toMinimalOutput
       (new [example_metric "vus" gauge contains_default;
             example_metric "data_sent" counter contains_data;
             Point (example_point "data_sent" 512%float)]))
  = Some {| me_summary := None; me_lastValue := None; me_unit := None |}.
Proof.
  apply (@minimal_output_of_empty_report
           [example_metric "vus" gauge contains_default;
            example_metric "data_sent" counter contains_data;
            Point (example_point "data_sent" 512%float)]
           "vus"
           {| mr_name := "vus"; mr_type := "gauge";
              mr_description := getMetricDescription "vus";
              mr_unit := None; mr_points := []; mr_summary := None |});
    reflexivity.
Defined.

End SanitizerClaims.

(* ================================================================== *)
(** ** Sanitizer: summaries *)

Module SummaryClaims.
Import Js Report Sanitizer SanitizerSpec SummarySpec SanitizerFacts NumberOrder.

Lemma summary_withSummary r0 :
  mr_summary (withSummary r0)
  = match mr_points r0 with
    | [] => mr_summary r0
    | _ => Some (summarize (map pt_value (mr_points r0)))
    end.
Proof. unfold withSummary. now destruct (mr_points r0). Qed.

(** C5, as amended.  For every report of the output: with zero points the
    summary is absent; with at least one point the summary is present, its
    [count] is the length of the point sequence, its [avg] is the
    double-precision quotient of the left-to-right double-precision sum of
    the point values (starting from 0) by the count, and its [min] and [max]
    are the minimum and the maximum of the point values: elements of the
    point values that are respectively below and above every point value
    when no value is NaN, and NaN when some value is. *)
Theorem summary_of_report (evs : list K6Output) (r : MetricReport) :
  In r (getSanitizedOutput (new evs)) ->
  (mr_points r = [] -> mr_summary r = None)
  /\ (mr_points r <> [] ->
      exists s,
        mr_summary r = Some s
        /\ sm_count s = List.length (mr_points r)
        /\ sm_avg s
           = PrimFloat.div (sum (map pt_value (mr_points r)))
               (of_nat (List.length (mr_points r)))
        /\ sm_min s = Math_min (map pt_value (mr_points r))
        /\ sm_max s = Math_max (map pt_value (mr_points r))
        /\ (Forall (fun v => PrimFloat.is_nan v = false)
              (map pt_value (mr_points r)) ->
            In (sm_min s) (map pt_value (mr_points r))
            /\ Forall (fun v => PrimFloat.leb (sm_min s) v = true)
                 (map pt_value (mr_points r))
            /\ In (sm_max s) (map pt_value (mr_points r))
            /\ Forall (fun v => PrimFloat.leb v (sm_max s) = true)
                 (map pt_value (mr_points r)))
        /\ (Exists (fun v => PrimFloat.is_nan v = true)
              (map pt_value (mr_points r)) ->
            sm_min s = PrimFloat.nan /\ sm_max s = PrimFloat.nan)).
Proof.
  intros Hin. apply In_output in Hin. unfold getMetricByName in Hin.
  rewrite get_metrics_new in Hin.
  destruct (collected (mr_name r) evs) as [r0|] eqn:C; [|discriminate].
  injection Hin as <-.
  destruct (withSummary_fields r0) as (_ & _ & _ & _ & ->).
  rewrite summary_withSummary, (collected_summary _ _ C).
  split.
  - now intros ->.
  - intros Hne. destruct (mr_points r0) as [|p pts] eqn:P; [congruence|].
    eexists. split; [reflexivity|]. unfold summarize.
    cbn [sm_count sm_avg sm_min sm_max]. rewrite !length_map.
    repeat (split; [reflexivity|]).
    split.
    + intros Hnan.
      assert (Hv : map pt_value (p :: pts) <> []) by discriminate.
      destruct (Math_min_is_minimum Hv Hnan), (Math_max_is_maximum Hv Hnan).
      auto.
    + intros Hnan. unfold Math_min, Math_max.
      now rewrite min_from_nan, max_from_nan.
Qed.

Lemma summary_of_report_witness :
  exists s,
    mr_summary (report_of one_two_three "latency") = Some s
    /\ sm_count s = 3
    /\ sm_avg s = PrimFloat.div (sum [1; 2; 3]%float) (of_nat 3)
    /\ In (sm_min s) [1; 2; 3]%float
    /\ Forall (fun v => PrimFloat.leb (sm_min s) v = true) [1; 2; 3]%float
    /\ In (sm_max s) [1; 2; 3]%float
    /\ Forall (fun v => PrimFloat.leb v (sm_max s) = true) [1; 2; 3]%float.
Proof.
  assert (Hin : In (report_of one_two_three "latency")
                  (getSanitizedOutput (new one_two_three)))
    by (vm_compute; left; reflexivity).
  assert (Hne : mr_points (report_of one_two_three "latency") <> [])
    by (vm_compute; discriminate).
  assert (Hnan : Forall (fun v => PrimFloat.is_nan v = false)
                   (map pt_value
                      (mr_points (report_of one_two_three "latency"))))
    by (vm_compute; repeat constructor).
  destruct (proj2 (summary_of_report one_two_three _ Hin) Hne)
    as (s & Hs & Hc & Ha & _ & _ & Hm & _).
  destruct (Hm Hnan) as (M1 & M2 & M3 & M4).
  exists s. repeat split; assumption.
Defined.

(** The example of the specification: values 1, 2, 3 give count 3, avg 2,
    min 1, max 3. *)
Lemma summary_one_two_three :
  mr_summary (report_of one_two_three "latency")
  = Some {| sm_count := 3; sm_avg := 2%float;
            sm_min := 1%float; sm_max := 3%float |}.
Proof. vm_compute. reflexivity. Qed.

(** C5, as stated, fails for the average: over the point values 0.1, 0.2 and
    0.3 the summary's [avg] is 0.20000000000000004, which is not the
    arithmetic mean of the three values, nor the number nearest to it: 0.2
    is nearer. *)
Lemma avg_is_not_the_arithmetic_mean :
  In (report_of tenths "latency") (getSanitizedOutput (new tenths))
  /\ mr_points (report_of tenths "latency") <> []
  /\ option_map sm_avg (mr_summary (report_of tenths "latency"))
     = Some 0.20000000000000004%float
  /\ ~ avg_is_arithmetic_mean (report_of tenths "latency")
  /\ (Qabs (rational 0.2%float
            - arithmetic_mean [0.1; 0.2; 0.3]%float)
      < Qabs (rational 0.20000000000000004%float
              - arithmetic_mean [0.1; 0.2; 0.3]%float))%Q.
Proof.
  split; [vm_compute; left; reflexivity|].
  split; [vm_compute; discriminate|].
  split; [vm_compute; reflexivity|].
  split.
  - intros (s & Hs & Hq).
    vm_compute in Hs. injection Hs as <-.
    vm_compute in Hq. discriminate Hq.
  - vm_compute. reflexivity.
Qed.

End SummaryClaims.

(* ================================================================== *)
(** ** Deep merge *)

Module MergeClaims.
Import Js Merge MergeSpec.

Lemma isObject_true v : isObject v = true <-> exists props, v = VObject props.
Proof.
  split.
  - destruct v; try discriminate. eauto.
  - now intros [props ->].
Qed.

Lemma has_read_isObject k (t : Dict.t value) :
  Dict.has k t && isObject (read k t) = isObject (read k t).
Proof.
  unfold Dict.has, read. now destruct (Dict.get k t).
Qed.

(** [deepMerge] is its loop over the entries of [source], started from a
    copy of [target]. *)
Lemma deepMerge_unfold target source :
  deepMerge target source = merge_loop target target source.
Proof.
  unfold deepMerge. cbn [deepMerge_on].
  match goal with
  | |- ?loop target source = _ =>
      enough (H : forall result,
                 loop result source = merge_loop target result source)
        by apply H
  end.
  induction source as [|[key v] rest IH]; intros result.
  - reflexivity.
  - cbn [merge_loop]. rewrite <- IH. cbn beta iota. f_equal. f_equal.
    unfold written, Dict.has, read.
    destruct (Dict.get key target) as [[]|]; destruct v; reflexivity.
Qed.

Lemma get_merge_loop target : forall src result k,
  Dict.wf src ->
  Dict.get k (merge_loop target result src)
  = match Dict.get k src with
    | Some v => Some (written target k v)
    | None => Dict.get k result
    end.
Proof.
  unfold Dict.wf.
  induction src as [|[k0 v0] rest IH]; intros result k Hwf; simpl.
  - reflexivity.
  - inversion Hwf as [|? ? Hnin Hwf']; subst. rewrite IH by assumption.
    destruct (String.eqb_spec k k0) as [->|Hne].
    + apply get_None_keys in Hnin. rewrite Hnin. apply get_set_same.
    + destruct (Dict.get k rest); [reflexivity|].
      apply get_set_other. congruence.
Qed.

(** What [deepMerge] holds under each key. *)
Lemma get_deepMerge target source k :
  Dict.wf source ->
  Dict.get k (deepMerge target source)
  = match Dict.get k source with
    | Some v => Some (written target k v)
    | None => Dict.get k target
    end.
Proof. intros Hwf. rewrite deepMerge_unfold. now apply get_merge_loop. Qed.

(** The example of the specification: [{a:[1,2]}] merged with [{a:[3]}] is
    [{a:[3]}]. *)
Lemma deepMerge_replaces_arrays :
  deepMerge [("a", VArray [VNumber 1; VNumber 2])] [("a", VArray [VNumber 3])]
  = [("a", VArray [VNumber 3])].
Proof. reflexivity. Qed.

Lemma merge_loop_fixed target : forall src result,
  (forall k v, In (k, v) src ->
     Dict.get k result = Some v /\ written target k v = v) ->
  merge_loop target result src = result.
Proof.
  induction src as [|[k0 v0] rest IH]; intros result H; simpl.
  - reflexivity.
  - destruct (H k0 v0) as [G ->]; [now left|].
    rewrite (set_get_same _ _ G). apply IH.
    intros k v Hin. apply H. now right.
Qed.

(** C9.  Merging a key-value tree onto itself gives the tree back. *)
Theorem deepMerge_idempotent (x : Dict.t value) :
  key_value_tree x -> deepMerge x x = x.
Proof.
  induction 1 as [props Hwf Hsub IH].
  rewrite deepMerge_unfold. apply merge_loop_fixed.
  intros k v Hin. pose proof (In_get _ _ Hwf Hin) as G.
  split; [exact G|].
  unfold written. rewrite has_read_isObject. unfold read. rewrite G.
  destruct (isObject v) eqn:C; simpl; [|reflexivity].
  apply isObject_true in C as [sub ->]. f_equal. eapply IH; eauto.
Qed.

Lemma nested_config_tree : key_value_tree nested_config.
Proof.
  constructor.
  - repeat constructor; simpl; intuition discriminate.
  - intros k sub [E|[E|[E|[]]]]; try discriminate.
    injection E as <- <-. constructor.
    + repeat constructor; simpl; intuition discriminate.
    + intros k' sub' [E|[E|[E|[]]]]; try discriminate.
      injection E as <- <-. constructor.
      * repeat constructor; simpl; intuition discriminate.
      * intros k2 sub2 [E|[]]. discriminate.
Defined.

Lemma deepMerge_idempotent_witness :
  deepMerge nested_config nested_config = nested_config.
Proof. exact (deepMerge_idempotent nested_config_tree). Defined.

End MergeClaims.

(* ================================================================== *)
(** ** Deep merge and the prototype of the result *)

Module PrototypeFacts.
Import Js Prototype PrototypeSpec.

(** [deepMerge] is its loop over the entries of [source], started from a
    copy of [target] whose prototype is [Object.prototype]. *)
Lemma deepMerge_on_unfold t source :
  deepMerge_on t (VObject source) = merge_loop t None (spread t) source.
Proof.
  cbn [deepMerge_on].
  match goal with
  | |- ?loop None (spread t) source = _ =>
      enough (H : forall proto result,
                 loop proto result source = merge_loop t proto result source)
        by apply H
  end.
  induction source as [|[key v] rest IH]; intros proto result.
  - reflexivity.
  - cbn [merge_loop]. rewrite <- !IH. reflexivity.
Qed.

Lemma get_spread_plain k t :
  Dict.get k (spread (Plain t)) = option_map Given (Dict.get k t).
Proof.
  simpl. induction t as [|[k' v'] t IH]; simpl; auto.
  destruct (String.eqb k k'); auto.
Qed.

Lemma has_spread_plain k t : Dict.has k (spread (Plain t)) = Dict.has k t.
Proof.
  unfold Dict.has. rewrite get_spread_plain. now destruct (Dict.get k t).
Qed.

Lemma keys_spread_plain t : Dict.keys (spread (Plain t)) = Dict.keys t.
Proof. simpl. unfold Dict.keys. rewrite map_map. reflexivity. Qed.

(** The own properties of the result, key by key: the assignment under
    [__proto__] writes nothing when [result] has no such property. *)
Lemma get_merge_loop_own t : forall src proto result k,
  Dict.wf src ->
  Dict.get k (ownProperties (merge_loop t proto result src))
  = match Dict.get k src with
    | Some v =>
        if String.eqb k "__proto__" && negb (Dict.has k result) then None
        else Some (written t k v)
    | None => Dict.get k result
    end.
Proof.
  unfold Dict.wf.
  induction src as [|[k0 v0] rest IH]; intros proto result k Hwf.
  - reflexivity.
  - inversion Hwf as [|? ? Hnin Hwf']; subst. cbn [merge_loop].
    apply get_None_keys in Hnin.
    destruct (String.eqb k0 "__proto__" && negb (Dict.has k0 result)) eqn:C;
      rewrite IH by assumption; simpl;
      destruct (String.eqb_spec k k0) as [->|Hne].
    + rewrite Hnin, C. apply andb_prop in C as [_ C]. unfold Dict.has in C.
      now destruct (Dict.get k0 result).
    + reflexivity.
    + now rewrite Hnin, get_set_same, C.
    + assert (H : Dict.has k (Dict.set k0 (written t k0 v0) result)
                  = Dict.has k result).
      { unfold Dict.has. now rewrite get_set_other by congruence. }
      rewrite H. destruct (Dict.get k rest); [reflexivity|].
      apply get_set_other. congruence.
Qed.

Lemma In_keys_set (V : Type) k k0 (v : V) (d : Dict.t V) :
  In k (Dict.keys (Dict.set k0 v d)) <-> In k (Dict.keys d) \/ k = k0.
Proof.
  induction d as [|[k' v'] d IH]; simpl.
  - intuition.
  - destruct (String.eqb_spec k0 k') as [->|Hne]; simpl.
    + intuition.
    + rewrite IH. intuition.
Qed.

(** The keys of the result: those of [result], and those of [source]
    other than [__proto__]. *)
Lemma keys_merge_loop_own t : forall src proto result k,
  In k (Dict.keys (ownProperties (merge_loop t proto result src)))
  <-> In k (Dict.keys result)
      \/ (In k (Dict.keys src) /\ k <> "__proto__").
Proof.
  induction src as [|[k0 v0] rest IH]; intros proto result k.
  - simpl. tauto.
  - cbn [merge_loop].
    destruct (String.eqb k0 "__proto__" && negb (Dict.has k0 result)) eqn:C;
      rewrite IH; simpl.
    + apply andb_prop in C as [C _]. apply String.eqb_eq in C. subst k0.
      split; [tauto|]. intros [H|[[<-|H] Hne]]; tauto.
    + rewrite In_keys_set. split; [|intuition auto].
      intros [[H| ->]|H]; try tauto.
      apply andb_false_iff in C as [C|C].
      * apply String.eqb_neq in C. tauto.
      * apply negb_false_iff, has_true in C. tauto.
Qed.

(** The prototype of the result is left alone unless [source] has a key
    [__proto__] that [result] has not. *)
Lemma prototypeOf_merge_loop t : forall src proto result,
  (In "__proto__" (Dict.keys src) -> Dict.has "__proto__" result = true) ->
  prototypeOf (merge_loop t proto result src) = proto.
Proof.
  induction src as [|[k0 v0] rest IH]; intros proto result H.
  - reflexivity.
  - cbn [merge_loop].
    destruct (String.eqb k0 "__proto__" && negb (Dict.has k0 result)) eqn:C.
    + apply andb_prop in C as [C1 C2]. apply String.eqb_eq in C1. subst k0.
      rewrite H in C2 by (simpl; auto). discriminate.
    + apply IH. intros Hin. unfold Dict.has.
      destruct (String.eqb_spec k0 "__proto__") as [->|Hne].
      * now rewrite get_set_same.
      * rewrite get_set_other by exact Hne. apply H. simpl. auto.
Qed.

(** When [source] has a key [__proto__] that [result] has not, the
    prototype of the result is what was assigned under it, if that is an
    object or [null]. *)
Lemma prototypeOf_merge_loop_set t : forall src proto result sv,
  Dict.wf src ->
  Dict.get "__proto__" src = Some sv ->
  Dict.has "__proto__" result = false ->
  prototypeOf (merge_loop t proto result src)
  = if object_or_null (written t "__proto__" sv)
    then Some (written t "__proto__" sv) else proto.
Proof.
  unfold Dict.wf.
  induction src as [|[k0 v0] rest IH]; intros proto result sv Hwf G Hhas.
  - discriminate.
  - inversion Hwf as [|? ? Hnin Hwf']; subst. cbn [merge_loop].
    cbn [Dict.get] in G.
    destruct (String.eqb_spec "__proto__" k0) as [<-|Hne].
    + injection G as ->. rewrite Hhas. cbn [andb negb String.eqb Ascii.eqb Bool.eqb].
      apply prototypeOf_merge_loop. tauto.
    + replace (String.eqb k0 "__proto__") with false
        by (symmetry; apply String.eqb_neq; congruence).
      cbn [andb]. apply IH; auto.
      unfold Dict.has. rewrite get_set_other by congruence. exact Hhas.
Qed.

Lemma ownValue_Merged p props :
  ownValue (Merged p props)
  = VObject (map (fun kv => (fst kv, ownValue (snd kv))) props).
Proof.
  cbn [ownValue]. f_equal.
  induction props as [|[k x] props IH]; simpl; [reflexivity|].
  now rewrite IH.
Qed.

Lemma ownValue_set k w (d : Dict.t object) :
  map (fun kv => (fst kv, ownValue (snd kv))) (Dict.set k w d)
  = Dict.set k (ownValue w) (map (fun kv => (fst kv, ownValue (snd kv))) d).
Proof.
  induction d as [|[k' x] d IH]; simpl; [reflexivity|].
  destruct (String.eqb k k'); simpl; [reflexivity|]. now rewrite IH.
Qed.

Lemma ownValue_spread t :
  map (fun kv => (fst kv, ownValue (snd kv))) (spread (Plain t)) = t.
Proof.
  simpl. rewrite map_map. simpl.
  induction t as [|[k v] t IH]; simpl; [reflexivity|]. now rewrite IH.
Qed.

(** On a source without [__proto__] keys the prototype plays no part:
    [deepMerge] leaves the prototype of the result alone, and the own
    properties of the result are those [Merge.deepMerge] computes. *)
Lemma deepMerge_without_proto_key s :
  without_proto_key s ->
  forall t,
    prototypeOf (deepMerge t s) = None
    /\ ownValue (deepMerge t s) = VObject (Merge.deepMerge t s).
Proof.
  induction 1 as [props Hno Hsub IH]. intros t.
  unfold deepMerge. rewrite deepMerge_on_unfold. split.
  - apply prototypeOf_merge_loop. intros Hin. contradiction.
  - assert (Loop : forall src,
               (forall k v, In (k, v) src -> In (k, v) props) ->
               forall proto result,
                 ownValue (merge_loop (Plain t) proto result src)
                 = VObject
                     (Merge.merge_loop t
                        (map (fun kv => (fst kv, ownValue (snd kv))) result)
                        src)).
    { induction src as [|[k0 v0] rest IHs]; intros Hall proto result.
      - apply ownValue_Merged.
      - cbn [merge_loop Merge.merge_loop].
        assert (Hk : String.eqb k0 "__proto__" = false).
        { apply String.eqb_neq. intros ->. apply Hno.
          apply (in_map fst _ _ (Hall "__proto__" v0 (or_introl eq_refl))). }
        rewrite Hk. cbn [andb].
        rewrite IHs by (intros k v Hin; apply Hall; now right).
        rewrite ownValue_set. f_equal. f_equal. f_equal.
        unfold written, Merge.written, object_at, Dict.has, read.
        destruct (Dict.get k0 t) as [tv|].
        + destruct tv; try (now destruct v0).
          destruct v0; try reflexivity. cbn [Merge.isObject].
          apply (IH k0 props1 (Hall _ _ (or_introl eq_refl))).
        + rewrite Hk. reflexivity. }
    rewrite Loop by auto.
    now rewrite ownValue_spread, MergeClaims.deepMerge_unfold.
Qed.

End PrototypeFacts.

Module PrototypeClaims.
Import Js Prototype PrototypeFacts.



(** Under a key [__proto__] that [t] does not have, nothing is written:
    the result has no such property, and what was to be written becomes
    its prototype when it is an object or [null]. *)
Lemma deepMerge_at_proto_key (t s : Dict.t value) (sv : value) :
  Dict.wf s ->
  Dict.get "__proto__" s = Some sv ->
  Dict.has "__proto__" t = false ->
  Dict.get "__proto__" (ownProperties (deepMerge t s)) = None
  /\ prototypeOf (deepMerge t s)
     = if object_or_null (written (Plain t) "__proto__" sv)
       then Some (written (Plain t) "__proto__" sv)
       else None.
Proof.
  intros Hwf G Hhas. unfold deepMerge. rewrite deepMerge_on_unfold. split.
  - rewrite get_merge_loop_own, G, has_spread_plain, Hhas by exact Hwf.
    reflexivity.
  - apply prototypeOf_merge_loop_set; auto.
    now rewrite has_spread_plain.
Qed.


End PrototypeClaims.

(* ================================================================== *)
(** ** Pipeline: what [run] does to the world *)

Module PipelineFacts.
Import Js Loop Pipeline PipelineSpec.

Lemma world_eta w :
  {| adapterObjects := adapterObjects w; configObjects := configObjects w;
     now := now w; inflight := inflight w; trace := trace w |} = w.
Proof. now destruct w. Qed.

Lemma start_spec final entry w :
  start final entry w
  = (Ok (promise_of final (now w) entry),
     {| adapterObjects := adapterObjects w;
        configObjects := configObjects w;
        now := now w;
        inflight := inflight w ++ start_inflight final (now w) entry;
        trace := trace w ++ start_events final entry |}).
Proof.
  destruct entry as [key adapter].
  unfold start, promise_of, start_events, start_inflight. simpl.
  destruct (truthy (read key final)).
  - unfold bind, call, ret, emit.
    destruct (latency adapter (read key final) =? 0); simpl;
      rewrite ?app_nil_r; reflexivity.
  - unfold ret. rewrite !app_nil_r. now rewrite world_eta.
Qed.

Lemma mapM_start_spec final : forall entries w,
  mapM (start final) entries w
  = (Ok (map (promise_of final (now w)) entries),
     {| adapterObjects := adapterObjects w;
        configObjects := configObjects w;
        now := now w;
        inflight :=
          inflight w ++ flat_map (start_inflight final (now w)) entries;
        trace := trace w ++ flat_map (start_events final) entries |}).
Proof.
  induction entries as [|entry entries IH]; intros w; simpl.
  - unfold ret. rewrite !app_nil_r. now rewrite world_eta.
  - unfold bind at 1. rewrite start_spec. unfold bind at 1. rewrite IH.
    unfold ret. simpl. now rewrite !app_assoc.
Qed.

(** Suspending only lets in-flight runs settle. *)
Lemma tick_trace w :
  exists evs, trace (tick w) = trace w ++ evs /\ Forall is_settled evs
              /\ same_store w (tick w).
Proof.
  eexists. split; [reflexivity|]. split; [|now split].
  apply Forall_forall. intros e Hin. apply in_map_iff in Hin as [f [<- _]].
  exact I.
Qed.

Lemma turns_trace n : forall w,
  exists evs, trace (turns n w) = trace w ++ evs /\ Forall is_settled evs
              /\ same_store w (turns n w).
Proof.
  induction n as [|n IH]; intros w; simpl.
  - exists []. rewrite app_nil_r. repeat split; auto.
  - destruct (tick_trace w) as (e1 & T1 & F1 & S1a & S1b).
    destruct (IH (tick w)) as (e2 & T2 & F2 & S2a & S2b).
    exists (e1 ++ e2). rewrite T2, T1, app_assoc.
    repeat split; [now apply Forall_app | congruence | congruence].
Qed.

Lemma suspend_until_trace t w :
  exists evs, trace (suspend_until t w) = trace w ++ evs
              /\ Forall is_settled evs
              /\ same_store w (suspend_until t w).
Proof. apply turns_trace. Qed.

Lemma await_spec p w :
  fst (await p w)
  = match p with
    | Some {| outcome := Rejected e |} => Throw e
    | _ => Ok (fulfilled p)
    end
  /\ exists evs, trace (snd (await p w)) = trace w ++ evs
                 /\ Forall is_settled evs
                 /\ same_store w (snd (await p w)).
Proof.
  destruct p as [[t [v|e]]|]; simpl.
  - split; [reflexivity|]. apply suspend_until_trace.
  - split; [reflexivity|]. apply suspend_until_trace.
  - split; [reflexivity|]. exists []. rewrite app_nil_r.
    repeat split; auto.
Qed.

Lemma mapM_await_spec : forall ps w,
  fst (mapM await ps w)
  = match first_rejected ps with
    | Some e => Throw e
    | None => Ok (map fulfilled ps)
    end
  /\ exists evs, trace (snd (mapM await ps w)) = trace w ++ evs
                 /\ Forall is_settled evs
                 /\ same_store w (snd (mapM await ps w)).
Proof.
  induction ps as [|p ps IH]; intros w.
  - simpl. split; [reflexivity|]. exists []. rewrite app_nil_r.
    repeat split; auto.
  - cbn [mapM]. unfold bind, ret.
    destruct (await_spec p w) as (R & e1 & T1 & F1 & S1a & S1b).
    destruct (await p w) as [[v|e] w1] eqn:A; simpl in R, T1, S1a, S1b.
    + destruct (IH w1) as (R2 & e2 & T2 & F2 & S2a & S2b).
      destruct (mapM await ps w1) as [[vs|e'] w2] eqn:B;
        simpl in R2, T2, S2a, S2b; simpl.
      * split.
        -- destruct p as [[t [v0|e0]]|]; try discriminate;
             simpl in *; destruct (first_rejected ps); try discriminate;
             injection R as ->; injection R2 as ->; reflexivity.
        -- exists (e1 ++ e2). rewrite T2, T1, app_assoc.
           repeat split; [now apply Forall_app | congruence | congruence].
      * split.
        -- destruct p as [[t [v0|e0]]|]; try discriminate;
             simpl in *; destruct (first_rejected ps); try discriminate;
             injection R2 as ->; reflexivity.
        -- exists (e1 ++ e2). rewrite T2, T1, app_assoc.
           repeat split; [now apply Forall_app | congruence | congruence].
    + simpl. split.
      * destruct p as [[t [v0|e0]]|]; try discriminate.
        simpl. now injection R as ->.
      * exists e1. repeat split; auto.
Qed.

Lemma first_rejection_first_rejected ps :
  match first_rejection ps, first_rejected ps with
  | None, None | Some _, Some _ => True
  | _, _ => False
  end.
Proof.
  induction ps as [|[[t [v|e]]|] ps IH]; simpl; auto.
  destruct (first_rejection ps) as [[t' e']|]; auto.
  now destruct (t' <? t).
Qed.

Lemma Promise_all_spec ps w :
  fst (Promise_all ps w)
  = match first_rejection ps with
    | Some (_, e) => Throw e
    | None => Ok (map fulfilled ps)
    end
  /\ exists evs, trace (snd (Promise_all ps w)) = trace w ++ evs
                 /\ Forall is_settled evs
                 /\ same_store w (snd (Promise_all ps w)).
Proof.
  unfold Promise_all. destruct (first_rejection ps) as [[t e]|]; simpl;
    (split; [reflexivity | apply suspend_until_trace]).
Qed.

End PipelineFacts.

Lemma set_absent (V : Type) k (v : V) (d : Dict.t V) :
  ~ In k (Dict.keys d) -> Dict.set k v d = d ++ [(k, v)].
Proof.
  induction d as [|[k' v'] d IH]; simpl; auto.
  intros H. destruct (String.eqb_spec k k') as [->|Hne].
  - tauto.
  - f_equal. apply IH. tauto.
Qed.

Lemma fold_set_fresh (V : Type) (l : list (string * V)) : forall acc,
  NoDup (Dict.keys acc ++ map fst l) ->
  fold_left (fun acc kv => Dict.set (fst kv) (snd kv) acc) l acc = acc ++ l.
Proof.
  induction l as [|[k v] l IH]; intros acc Hnd; simpl.
  - now rewrite app_nil_r.
  - simpl in Hnd. rewrite set_absent.
    + rewrite IH.
      * now rewrite <- app_assoc.
      * unfold Dict.keys in *. rewrite map_app. simpl.
        rewrite <- app_assoc. exact Hnd.
    + apply NoDup_remove_2 in Hnd. intros Hin. apply Hnd.
      apply in_or_app. now left.
Qed.

(** Built from pairs with distinct keys, an object holds exactly these
    pairs, in their order. *)
Lemma fromEntries_distinct (V : Type) (l : list (string * V)) :
  NoDup (map fst l) -> Dict.fromEntries l = l.
Proof. intros Hnd. unfold Dict.fromEntries. now rewrite fold_set_fresh. Qed.

Lemma get_map_entries (A B : Type) (g : string * A -> B) key :
  forall es : Dict.t A,
  Dict.get key (map (fun e => (fst e, g e)) es)
  = option_map (fun a => g (key, a)) (Dict.get key es).
Proof.
  induction es as [|[k a] es IH]; simpl; auto.
  destruct (String.eqb_spec key k) as [->|]; auto.
Qed.

Module PipelineRun.
Import Js Loop Pipeline PipelineSpec PipelineFacts.

Lemma mapi_from_nth (A : Type) (g : string * A -> value) :
  forall (es : list (string * A)) (pre : list value),
  mapi_from (List.length pre)
    (fun entry index => (fst entry, nth index (pre ++ map g es) VUndefined))
    es
  = map (fun e => (fst e, g e)) es.
Proof.
  induction es as [|e es IH]; intros pre; simpl; auto.
  f_equal.
  - f_equal. now rewrite nth_middle.
  - specialize (IH (pre ++ [g e])).
    rewrite length_app, Nat.add_1_r in IH. rewrite <- IH.
    now rewrite <- app_assoc.
Qed.

(** The result of the awaiting step, in either mode. *)
Lemma awaiting_spec (parallel : bool) ps w :
  (forallb (fun p => negb (rejected p)) ps = true ->
   fst ((if parallel then Promise_all ps else mapM await ps) w)
   = Ok (map fulfilled ps))
  /\ (forallb (fun p => negb (rejected p)) ps = false ->
      exists e,
        fst ((if parallel then Promise_all ps else mapM await ps) w)
        = Throw e)
  /\ exists evs,
       trace (snd ((if parallel then Promise_all ps else mapM await ps) w))
       = trace w ++ evs
       /\ Forall is_settled evs
       /\ same_store w
            (snd ((if parallel then Promise_all ps else mapM await ps) w)).
Proof.
  assert (R : forallb (fun p => negb (rejected p)) ps
              = match first_rejected ps with None => true | _ => false end).
  { induction ps as [|[[t [v|e]]|] ps IH]; simpl; auto. }
  pose proof (first_rejection_first_rejected ps) as L.
  destruct parallel.
  - destruct (Promise_all_spec ps w) as [F T]. rewrite F, R.
    destruct (first_rejection ps) as [[t e]|], (first_rejected ps);
      try contradiction; repeat split; eauto; discriminate.
  - destruct (mapM_await_spec ps w) as [F T]. rewrite F, R.
    destruct (first_rejected ps);
      repeat split; eauto; discriminate.
Qed.

(** [run] first starts every adapter whose final configuration is truthy,
    whatever its options, and only then awaits. *)
Lemma run_unfold cfg options this w :
  run cfg options this w
  = bind (if is_true (runInParallel options)
          then Promise_all
                 (map (promise_of (finalConfigOf this cfg w) (now w))
                    (registryOf this w))
          else mapM await
                 (map (promise_of (finalConfigOf this cfg w) (now w))
                    (registryOf this w)))
      (fun results =>
         ret (Dict.fromEntries
                (mapi_from 0
                   (fun entry index =>
                      (fst entry, nth index results VUndefined))
                   (registryOf this w))))
      (after_starts (finalConfigOf this cfg w) (registryOf this w) w).
Proof.
  unfold run. unfold bind at 1. unfold Dict.entries.
  fold (finalConfigOf this cfg w). fold (registryOf this w).
  rewrite mapM_start_spec. fold (after_starts (finalConfigOf this cfg w)
                                   (registryOf this w) w).
  set (ps := map (promise_of (finalConfigOf this cfg w) (now w))
               (registryOf this w)).
  set (w1 := after_starts (finalConfigOf this cfg w) (registryOf this w) w).
  destruct (awaiting_spec (is_true (runInParallel options)) ps w1)
    as (_ & _ & evs & _ & _ & Sa & _).
  unfold bind, ret.
  destruct ((if is_true (runInParallel options)
             then Promise_all ps else mapM await ps) w1) as [[results|e] w2];
    [|reflexivity].
  simpl in Sa. unfold registryOf, adaptersAt. now rewrite Sa.
Qed.

Lemma bind_ret_fst (A B : Type) (m : M A) (f : A -> B) w :
  fst (bind m (fun r => ret (f r)) w)
  = match fst (m w) with Ok r => Ok (f r) | Throw e => Throw e end.
Proof. unfold bind, ret. now destruct (m w) as [[r|e] w1]. Qed.

Lemma bind_ret_snd (A B : Type) (m : M A) (f : A -> B) w :
  snd (bind m (fun r => ret (f r)) w) = snd (m w).
Proof. unfold bind, ret. now destruct (m w) as [[r|e] w1]. Qed.


(** The trace of [run], in either mode: the starts of all executable
    adapters (each followed at once by its settlement when it has no
    latency), then nothing but settlements. *)
Lemma run_trace cfg options this w :
  exists evs,
    trace (snd (run cfg options this w))
    = trace w
      ++ flat_map (start_events (finalConfigOf this cfg w)) (registryOf this w)
      ++ evs
    /\ Forall is_settled evs.
Proof.
  rewrite run_unfold, bind_ret_snd.
  destruct (awaiting_spec (is_true (runInParallel options))
              (map (promise_of (finalConfigOf this cfg w) (now w))
                 (registryOf this w))
              (after_starts (finalConfigOf this cfg w) (registryOf this w) w))
    as (_ & _ & evs & T & F & _).
  exists evs. split; [|exact F].
  rewrite T. unfold after_starts. simpl. now rewrite app_assoc.
Qed.

End PipelineRun.

(* ================================================================== *)
(** ** Pipeline: execution, registration, ordering *)

Module PipelineClaims.
Import Js Loop Pipeline PipelineSpec PipelineFacts PipelineRun.

Lemma started_in_start_events final entry key input :
  In (Started key input) (start_events final entry)
  <-> key = fst entry /\ truthy (read key final) = true
      /\ input = read key final.
Proof.
  unfold start_events. destruct entry as [k a]. simpl.
  destruct (truthy (read k final)) eqn:T; simpl.
  - split.
    + intros [E|Hin].
      * injection E as <- <-. auto.
      * destruct (latency a (read k final) =? 0); simpl in Hin;
          [destruct Hin as [E|[]]; discriminate | contradiction].
    + intros (-> & _ & ->). now left.
  - split; [contradiction|]. intros (-> & T' & _). congruence.
Qed.

Lemma not_rejected_fulfilled final t key adapter :
  negb (rejected (promise_of final t (key, adapter))) = true ->
  (truthy (read key final) = false ->
   fulfilled (promise_of final t (key, adapter)) = VNull)
  /\ (truthy (read key final) = true ->
      exists out,
        respond adapter (read key final) = Resolved out
        /\ fulfilled (promise_of final t (key, adapter)) = out).
Proof.
  unfold promise_of. simpl. intros H. split; intros T; rewrite T in *; simpl.
  - reflexivity.
  - simpl in H. destruct (respond adapter (read key final)) as [out|e];
      [eauto | discriminate].
Qed.

(** The configuration entries the specification lists as falsy are so. *)
Lemma falsy_entries :
  truthy VNull = false /\ truthy VUndefined = false
  /\ truthy (VString "") = false /\ truthy (VNumber 0) = false.
Proof. repeat split. Qed.

(** C7.  Whatever the override and the options, [run] starts a registered
    adapter if and only if the deep-merged configuration entry for its key
    is truthy, and passes it that entry.  When [run] returns a result map,
    the map has the keys of the registry in its order; under a key whose
    merged entry is falsy it holds [null], and under a key whose merged
    entry is truthy it holds the value the adapter's promise resolved to.
    [run] does return a result map whenever every started adapter
    resolves: an adapter that is skipped does not make it fail. *)
Theorem run_executes_exactly_the_truthy
  (w : World) (this : AdapterPipeline) (cfg : option (Dict.t value))
  (options : PipelineOptions) :
  Dict.wf (registryOf this w) ->
  (exists events,
     trace (snd (run cfg options this w)) = trace w ++ events
     /\ forall key input,
          In (Started key input) events
          <-> exists adapter,
                Dict.get key (registryOf this w) = Some adapter
                /\ truthy (read key (finalConfigOf this cfg w)) = true
                /\ input = read key (finalConfigOf this cfg w))
  /\ (forall result,
        fst (run cfg options this w) = Ok result ->
        Dict.keys result = Dict.keys (registryOf this w)
        /\ forall key adapter,
             Dict.get key (registryOf this w) = Some adapter ->
             (truthy (read key (finalConfigOf this cfg w)) = false ->
              Dict.get key result = Some VNull)
             /\ (truthy (read key (finalConfigOf this cfg w)) = true ->
                 exists out,
                   respond adapter (read key (finalConfigOf this cfg w))
                   = Resolved out
                   /\ Dict.get key result = Some out))
  /\ ((forall key adapter,
         Dict.get key (registryOf this w) = Some adapter ->
         truthy (read key (finalConfigOf this cfg w)) = true ->
         exists out,
           respond adapter (read key (finalConfigOf this cfg w))
           = Resolved out) ->
      exists result, fst (run cfg options this w) = Ok result).
Proof.
  intros Hwf. rewrite run_unfold.
  set (final := finalConfigOf this cfg w).
  set (es := registryOf this w) in *.
  set (ps := map (promise_of final (now w)) es).
  set (w1 := after_starts final es w).
  rewrite bind_ret_fst, bind_ret_snd.
  destruct (awaiting_spec (is_true (runInParallel options)) ps w1)
    as (Hok & Hthrow & evs & T & F & _).
  assert (Hres : forall results,
             results = map fulfilled ps ->
             Dict.fromEntries
               (mapi_from 0
                  (fun entry index =>
                     (fst entry, nth index results VUndefined)) es)
             = map (fun e => (fst e, fulfilled (promise_of final (now w) e)))
                 es).
  { intros results ->. unfold ps. rewrite map_map.
    pose proof (mapi_from_nth
                  (fun e => fulfilled (promise_of final (now w) e)) es [])
      as E.
    simpl in E. rewrite E. apply fromEntries_distinct.
    rewrite map_map. simpl. exact Hwf. }
  split; [|split].
  - exists (flat_map (start_events final) es ++ evs). split.
    + rewrite T. unfold w1, after_starts. simpl. now rewrite app_assoc.
    + intros key input. rewrite in_app_iff, in_flat_map. split.
      * intros [(entry & Hin & Hs)|Hin].
        -- apply started_in_start_events in Hs as (-> & Ht & ->).
           destruct entry as [k a]. exists a. split; auto.
           now apply In_get.
        -- rewrite Forall_forall in F. now apply F in Hin.
      * intros (adapter & G & Ht & ->). left. exists (key, adapter).
        split; [now apply get_In|].
        apply started_in_start_events. auto.
  - intros result R.
    destruct (forallb (fun p => negb (rejected p)) ps) eqn:All.
    + rewrite (Hok eq_refl) in R. injection R as <-.
      rewrite (Hres _ eq_refl). split.
      * unfold Dict.keys. now rewrite map_map.
      * intros key adapter G. rewrite get_map_entries, G. simpl.
        rewrite forallb_forall in All.
        assert (N : negb (rejected (promise_of final (now w) (key, adapter)))
                    = true).
        { apply All. unfold ps. apply in_map. now apply get_In. }
        destruct (not_rejected_fulfilled _ _ _ _ N) as [N1 N2].
        split.
        -- intros Ht. now rewrite (N1 Ht).
        -- intros Ht. destruct (N2 Ht) as (out & Hr & Hf).
           exists out. now rewrite Hf.
    + destruct (Hthrow eq_refl) as [e E]. rewrite E in R. discriminate.
  - intros Hall.
    assert (All : forallb (fun p => negb (rejected p)) ps = true).
    { apply forallb_forall. intros p Hin. unfold ps in Hin.
      apply in_map_iff in Hin as ([k a] & <- & Hin).
      apply In_get in Hin; [|exact Hwf].
      unfold promise_of. simpl.
      destruct (truthy (read k final)) eqn:Ht; [|reflexivity].
      destruct (Hall k a Hin Ht) as [out ->]. reflexivity. }
    rewrite (Hok All). eauto.
Qed.

Lemma register_two_returns first second cfg1 cfg2 :
  register_two first second cfg1 cfg2 empty_world
  = (Ok pipeline_ab, world_ab first second cfg1 cfg2).
Proof. reflexivity. Qed.

Lemma run_executes_exactly_the_truthy_witness :
  exists result,
    fst (run None no_options pipeline_ab
           (world_ab (reporting 1) (reporting 0)
              (VObject [("vus", VNumber 5)]) (VNumber 0)))
    = Ok result
    /\ Dict.get "a" result = Some (VString "report")
    /\ Dict.get "b" result = Some VNull.
Proof.
  set (w := world_ab (reporting 1) (reporting 0)
              (VObject [("vus", VNumber 5)]) (VNumber 0)).
  assert (Hwf : Dict.wf (registryOf pipeline_ab w)).
  { vm_compute. repeat constructor; simpl; intuition discriminate. }
  destruct (run_executes_exactly_the_truthy w pipeline_ab None no_options Hwf)
    as (_ & Hres & Hret).
  destruct Hret as [result R].
  { intros key adapter G _. apply get_In in G.
    change (In (key, adapter) [("a", reporting 1); ("b", reporting 0)]) in G.
    destruct G as [E|[E|[]]]; injection E as <- <-; eexists; reflexivity. }
  exists result. split; [exact R|].
  destruct (Hres result R) as [_ H]. split.
  - destruct (H "a" (reporting 1) eq_refl) as [_ Ha].
    destruct (Ha eq_refl) as (out & Hout & G). injection Hout as <-. exact G.
  - destruct (H "b" (reporting 0) eq_refl) as [Hb _]. exact (Hb eq_refl).
Defined.

(** *** Registration *)

Lemma nth_replace_at_other (A : Type) (d a : A) : forall l i j,
  i <> j -> nth j (replace_at i a l) d = nth j l d.
Proof.
  induction l as [|x l IH]; intros [|i] [|j] H; simpl; auto; try congruence.
Qed.

(** C6, as amended.  [addAdapter(k, a, c)] returns a new pipeline whose
    adapter registry is that of [p] with [k] set to [a], and whose config
    registry is that of [p] with [k] set to [c] when [c] is truthy and to
    [undefined] otherwise.  It does not execute [a]: the clock, the runs in
    flight and the trace are as before.  The registries of [p] are unchanged,
    and the new pipeline shares neither of them: a later [setConfig] on the
    new pipeline leaves what [p] holds as it was. *)
Theorem addAdapter_extends_a_copy
  (w : World) (this : AdapterPipeline) (key : string) (adapter : Adapter)
  (cfg : value) :
  adapters this < List.length (adapterObjects w) ->
  config this < List.length (configObjects w) ->
  exists this' w',
    addAdapter key adapter cfg this w = (Ok this', w')
    /\ registryOf this' w' = Dict.set key adapter (registryOf this w)
    /\ configAt (config this') w'
       = Dict.set key (if truthy cfg then cfg else VUndefined)
           (configAt (config this) w)
    /\ now w' = now w /\ inflight w' = inflight w /\ trace w' = trace w
    /\ registryOf this w' = registryOf this w
    /\ configAt (config this) w' = configAt (config this) w
    /\ forall k v,
         configAt (config this) (snd (setConfig k v this' w'))
         = configAt (config this) w
         /\ registryOf this (snd (setConfig k v this' w'))
            = registryOf this w.
Proof.
  intros Ha Hc. eexists. eexists. split; [reflexivity|].
  unfold registryOf, adaptersAt, configAt, or_else. simpl.
  rewrite !nth_middle.
  rewrite !app_nth1 by assumption.
  repeat (split; [reflexivity|]).
  intros k v. split; [|reflexivity].
  rewrite nth_replace_at_other by lia. now apply app_nth1.
Qed.

Lemma addAdapter_extends_a_copy_witness :
  exists this' w',
    addAdapter "b" (reporting 0) (VObject [("vus", VNumber 5)])
      {| adapters := 1; config := 1 |}
      (world_ab (reporting 1) (reporting 0) (VString "x") VNull)
    = (Ok this', w')
    /\ registryOf this' w' = [("a", reporting 1); ("b", reporting 0)]
    /\ configAt (config this') w'
       = [("a", VString "x"); ("b", VObject [("vus", VNumber 5)])]
    /\ trace w' = []
    /\ registryOf {| adapters := 1; config := 1 |} w' = [("a", reporting 1)]
    /\ configAt 1 w' = [("a", VString "x")]
    /\ configAt 1 (snd (setConfig "a" (VString "y") this' w'))
       = [("a", VString "x")].
Proof.
  destruct (@addAdapter_extends_a_copy
              (world_ab (reporting 1) (reporting 0) (VString "x") VNull)
              {| adapters := 1; config := 1 |} "b" (reporting 0)
              (VObject [("vus", VNumber 5)]))
    as (this' & w' & E & H1 & H2 & _ & _ & H3 & H4 & H5 & H6).
  - vm_compute. lia.
  - vm_compute. lia.
  - exists this', w'. split; [exact E|].
    split; [exact H1|]. split; [exact H2|]. split; [exact H3|].
    split; [exact H4|]. split; [exact H5|].
    exact (proj1 (H6 "a" (VString "y"))).
Defined.

(** C6, as stated, fails: registered with the configuration [0], the key
    holds [undefined] in the new config registry, not [0]. *)
Lemma addAdapter_stores_undefined_for_falsy_config :
  exists this' w',
    addAdapter "b" (reporting 0) (VNumber 0)
      {| adapters := 0; config := 0 |} (snd (new empty_world))
    = (Ok this', w')
    /\ getConfig "b" this' w' = VUndefined
    /\ configAt (config this') w'
       <> Dict.set "b" (VNumber 0) (configAt 0 (snd (new empty_world))).
Proof.
  eexists. eexists. split; [reflexivity|]. split; [reflexivity|].
  vm_compute. discriminate.
Qed.

(** *** Ordering *)

Lemma settled_in_start_events final entry key o :
  In (Settled key o) (start_events final entry) ->
  key = fst entry /\ latency (snd entry) (read key final) = 0.
Proof.
  unfold start_events. destruct entry as [k a]. simpl.
  destruct (truthy (read k final)); simpl; [|contradiction].
  intros [E|Hin]; [discriminate|].
  destruct (Nat.eqb_spec (latency a (read k final)) 0) as [Z|]; simpl in Hin;
    [|contradiction].
  destruct Hin as [E|[]]. injection E as <- _. auto.
Qed.

(** In either mode the trace of [run] splits in two: first the start of
    every executable adapter, then the rest; no adapter that takes time
    settles within the first part.  So every executable adapter is started
    before any adapter with latency settles. *)
Lemma starts_precede_delayed_settlements cfg options this w :
  Dict.wf (registryOf this w) ->
  exists starts rest,
    trace (snd (run cfg options this w)) = trace w ++ starts ++ rest
    /\ (forall key adapter,
          Dict.get key (registryOf this w) = Some adapter ->
          truthy (read key (finalConfigOf this cfg w)) = true ->
          In (Started key (read key (finalConfigOf this cfg w))) starts)
    /\ (forall key adapter o,
          Dict.get key (registryOf this w) = Some adapter ->
          0 < latency adapter (read key (finalConfigOf this cfg w)) ->
          ~ In (Settled key o) starts).
Proof.
  intros Hwf. destruct (run_trace cfg options this w) as (evs & T & _).
  eexists. exists evs. split; [exact T|]. split.
  - intros key adapter G Ht. apply in_flat_map. exists (key, adapter).
    split; [now apply get_In|]. apply started_in_start_events. auto.
  - intros key adapter o G Hlat Hin. apply in_flat_map in Hin
      as ([k a] & Hin & Hs).
    apply settled_in_start_events in Hs as [E Z]. simpl in E, Z. subst k.
    apply In_get in Hin; [|exact Hwf]. rewrite G in Hin.
    injection Hin as <-. lia.
Qed.

(** C1 does not hold of the code.  The claim: with [runInParallel] false or
    absent, an adapter is never started before the adapter registered before
    it has settled, and no adapter is started after a rejection.  The code:
    [run] has called [run] on every executable adapter before it awaits the
    first promise.  Adapter [b] is started while adapter [a], registered
    before it, has not settled; and when [a] rejects at once, [b] is started
    all the same and is left in flight when [run] rejects. *)
Theorem sequential_run_starts_every_adapter_first :
  trace (snd (run None no_options pipeline_ab
                (world_ab (reporting 1) (reporting 0)
                   (VString "x") (VString "y"))))
  = [Started "a" (VString "x");
     Started "b" (VString "y");
     Settled "b" (Resolved (VString "report"));
     Settled "a" (Resolved (VString "report"))]
  /\ ~ started_after_settled
        (trace (snd (run None no_options pipeline_ab
                       (world_ab (reporting 1) (reporting 0)
                          (VString "x") (VString "y")))))
        "a" "b"
  /\ fst (run None no_options pipeline_ab
            (world_ab failing (reporting 1) (VString "x") (VString "y")))
     = Throw "boom"
  /\ trace (snd (run None no_options pipeline_ab
                   (world_ab failing (reporting 1)
                      (VString "x") (VString "y"))))
     = [Started "a" (VString "x");
        Settled "a" (Rejected "boom");
        Started "b" (VString "y")]
  /\ inflight (snd (run None no_options pipeline_ab
                      (world_ab failing (reporting 1)
                         (VString "x") (VString "y"))))
     = [{| f_key := "b"; f_due := 1;
           f_outcome := Resolved (VString "report") |}].
Proof.
  split; [reflexivity|]. split; [|repeat split].
  intros H.
  destruct (H [Started "a" (VString "x")] (VString "y")
              [Settled "b" (Resolved (VString "report"));
               Settled "a" (Resolved (VString "report"))] eq_refl)
    as [o [E|[]]].
  discriminate E.
Qed.

End PipelineClaims.

(* ================================================================== *)
(** ** Lists of names without repetition *)

Module NameLists.
Import StreamSpec.

Lemma mem_In x l : existsb (String.eqb x) l = true <-> In x l.
Proof.
  rewrite existsb_exists. split.
  - intros (y & Hin & E). apply String.eqb_eq in E. now subst.
  - intros Hin. exists x. split; [exact Hin | apply String.eqb_refl].
Qed.

Lemma mem_ext x s1 s2 :
  (forall y, In y s1 <-> In y s2) ->
  existsb (String.eqb x) s1 = existsb (String.eqb x) s2.
Proof.
  intros H. destruct (existsb (String.eqb x) s2) eqn:E.
  - apply mem_In. apply H. now apply mem_In.
  - destruct (existsb (String.eqb x) s1) eqn:E1; [|reflexivity].
    apply mem_In, H, mem_In in E1. congruence.
Qed.

Lemma distinct_ext l : forall s1 s2,
  (forall y, In y s1 <-> In y s2) -> distinct s1 l = distinct s2 l.
Proof.
  induction l as [|x l IH]; intros s1 s2 H; simpl; auto.
  rewrite (@mem_ext x s1 s2 H). destruct (existsb (String.eqb x) s2).
  - now apply IH.
  - f_equal. apply IH. intros y. simpl. now rewrite H.
Qed.

Lemma distinct_app a : forall s b,
  distinct s (a ++ b) = distinct s a ++ distinct (s ++ distinct s a) b.
Proof.
  induction a as [|x a IH]; intros s b; simpl.
  - now rewrite app_nil_r.
  - destruct (existsb (String.eqb x) s) eqn:E.
    + apply IH.
    + simpl. f_equal. rewrite IH. f_equal. apply distinct_ext.
      intros y. simpl. rewrite !in_app_iff. simpl. tauto.
Qed.

Lemma distinct_fresh l : forall seen,
  NoDup l -> (forall x, In x l -> ~ In x seen) -> distinct seen l = l.
Proof.
  induction l as [|x l IH]; intros seen Hnd Hfresh; simpl; auto.
  inversion Hnd as [|? ? Hn Hnd']; subst.
  destruct (existsb (String.eqb x) seen) eqn:E.
  - apply mem_In in E. exfalso. apply (Hfresh x); simpl; auto.
  - f_equal. apply IH; auto.
    intros y Hy [<-|Hs]; [contradiction|]. apply (Hfresh y); simpl; auto.
Qed.

Lemma distinct_NoDup l : forall seen,
  NoDup (distinct seen l)
  /\ forall x, In x (distinct seen l) <-> In x l /\ ~ In x seen.
Proof.
  induction l as [|x l IH]; intros seen; simpl.
  - split; [constructor | tauto].
  - destruct (existsb (String.eqb x) seen) eqn:E.
    + apply mem_In in E. destruct (IH seen) as [N I]. split; auto.
      intros y. rewrite I. split; [tauto|].
      intros [[<-|H] Hn]; [contradiction | tauto].
    + assert (Hx : ~ In x seen)
        by (intros H; apply mem_In in H; congruence).
      destruct (IH (x :: seen)) as [N I]. split.
      * constructor; auto. rewrite I. simpl. tauto.
      * intros y. simpl. rewrite I. simpl. split.
        -- intros [<-|[H1 H2]]; [auto | tauto].
        -- intros [[<-|H] Hn]; [auto|].
           destruct (string_dec x y) as [<-|Hne]; [auto|]. right. tauto.
Qed.

End NameLists.

(* ================================================================== *)
(** ** Sanitizer: reports, order and views *)

Module SanitizerCoverage.
Import Js Report Sanitizer SanitizerSpec StreamSpec SanitizerFacts NameLists.

Lemma firstDefinition_None n evs :
  firstDefinition n evs = None
  <-> forall m, In (Metric m) evs -> md_name (m_data m) <> n.
Proof.
  induction evs as [|[m|p] evs IH]; simpl.
  - split; [intros _ m [] | reflexivity].
  - destruct (String.eqb_spec (md_name (m_data m)) n) as [E|Hne].
    + split; [discriminate|]. intros H. exfalso. apply (H m); auto.
    + rewrite IH. split.
      * intros H m' [E|Hin]; [injection E as <-; exact Hne | now apply H].
      * intros H m' Hin. apply H. now right.
  - rewrite IH. split.
    + intros H m' [E|Hin]; [discriminate | now apply H].
    + intros H m' Hin. apply H. now right.
Qed.

Lemma pointsOf_nil n evs :
  pointsOf n evs = []
  <-> forall p, In (Point p) evs -> p_metric p <> n.
Proof.
  induction evs as [|[m|p] evs IH]; simpl.
  - split; [intros _ p [] | reflexivity].
  - rewrite IH. split.
    + intros H p' [E|Hin]; [discriminate | now apply H].
    + intros H p' Hin. apply H. now right.
  - destruct (String.eqb_spec (p_metric p) n) as [E|Hne].
    + split; [discriminate|]. intros H. exfalso. apply (H p); auto.
    + rewrite IH. split.
      * intros H p' [E|Hin]; [injection E as <-; exact Hne | now apply H].
      * intros H p' Hin. apply H. now right.
Qed.

Lemma collected_None n evs :
  collected n evs = None
  <-> (forall m, In (Metric m) evs -> md_name (m_data m) <> n)
      /\ (forall p, In (Point p) evs -> p_metric p <> n).
Proof.
  rewrite <- firstDefinition_None, <- pointsOf_nil. unfold collected.
  destruct (firstDefinition n evs); [split; [discriminate | intros [H _]; discriminate]|].
  destruct (pointsOf n evs); split; auto; try discriminate.
  intros [_ H]. discriminate.
Qed.

(** X1.  [getMetricByName(name)] is undefined exactly when the stream has
    neither a definition event nor a point event for [name]. *)
Theorem getMetricByName_undefined_iff (evs : list K6Output) (name : string) :
  getMetricByName (new evs) name = None
  <-> (forall m, In (Metric m) evs -> md_name (m_data m) <> name)
      /\ (forall p, In (Point p) evs -> p_metric p <> name).
Proof.
  unfold getMetricByName. rewrite get_metrics_new, <- collected_None.
  now destruct (collected name evs).
Qed.

Lemma report_points evs name r :
  getMetricByName (new evs) name = Some r -> mr_points r = pointsOf name evs.
Proof.
  unfold getMetricByName. rewrite get_metrics_new.
  destruct (collected name evs) as [r0|] eqn:C; [|discriminate].
  intros [= <-]. destruct (withSummary_fields r0) as (_ & _ & _ & _ & ->).
  eapply collected_points; eauto.
Qed.

(** X2.  Whatever the metric, defined or not, the points of its report are
    the point events of the stream for its name, each with its time string,
    the date made from it, its value and its tags, in arrival order:
    nothing is re-sorted, and points that arrive before the definition of
    their metric are kept like the others. *)
Theorem report_points_in_arrival_order
  (evs : list K6Output) (name : string) (r : MetricReport) :
  getMetricByName (new evs) name = Some r ->
  mr_points r
  = map (fun q =>
           {| pt_time := pd_time (p_data q);
              pt_value := pd_value (p_data q);
              pt_tags := pd_tags (p_data q);
              pt_timestamp := Some (NewDate (pd_time (p_data q))) |})
      (pointEvents name evs).
Proof.
  rewrite <- pointsOf_pointEvents.
  unfold getMetricByName. rewrite get_metrics_new.
  destruct (collected name evs) as [r0|] eqn:C; [|discriminate].
  intros [= <-]. destruct (withSummary_fields r0) as (_ & _ & _ & _ & ->).
  unfold collected in C. destruct (firstDefinition name evs).
  - now injection C as <-.
  - destruct (pointsOf name evs) eqn:E; [discriminate|]. now injection C as <-.
Qed.

Lemma report_points_in_arrival_order_witness :
  mr_points
    {| mr_name := "vus"; mr_type := "gauge";
       mr_description := getMetricDescription "vus"; mr_unit := None;
       mr_points :=
         [{| pt_time := "2024-05-01T10:00:00.000Z"; pt_value := 1%float;
             pt_tags := [("scenario", "default")];
             pt_timestamp := Some (NewDate "2024-05-01T10:00:00.000Z") |};
          {| pt_time := "2024-05-01T10:00:00.000Z"; pt_value := 9%float;
             pt_tags := [("scenario", "default")];
             pt_timestamp := Some (NewDate "2024-05-01T10:00:00.000Z") |}];
       mr_summary := Some (summarize [1; 9]%float) |}
  = map (fun q =>
           {| pt_time := pd_time (p_data q);
              pt_value := pd_value (p_data q);
              pt_tags := pd_tags (p_data q);
              pt_timestamp := Some (NewDate (pd_time (p_data q))) |})
      [example_point "vus" 1%float; example_point "vus" 9%float].
Proof.
  apply (@report_points_in_arrival_order
           [Point (example_point "vus" 1%float);
            example_metric "vus" gauge contains_default;
            Point (example_point "other" 4%float);
            Point (example_point "vus" 9%float)] "vus").
  vm_compute. reflexivity.
Defined.

Lemma MetricType_string_known t : MetricType_string t <> "unknown".
Proof. destruct t; discriminate. Qed.

(** X3.  A report has kind "unknown" exactly when the stream holds no
    definition event for its name, wherever in the stream: a definition that
    arrives after the points of its metric still gives the report its
    kind. *)
Theorem unknown_kind_iff_never_defined (evs : list K6Output) (r : MetricReport) :
  In r (getSanitizedOutput (new evs)) ->
  (mr_type r = "unknown"
   <-> forall m, In (Metric m) evs -> md_name (m_data m) <> mr_name r).
Proof.
  intros Hin. apply In_output in Hin.
  remember (mr_name r) as n eqn:Hn. unfold getMetricByName in Hin.
  rewrite get_metrics_new in Hin.
  destruct (collected n evs) as [r0|] eqn:C; [|discriminate].
  injection Hin as <-.
  destruct (withSummary_fields r0) as (_ & -> & _).
  rewrite <- firstDefinition_None. unfold collected in C.
  destruct (firstDefinition n evs) as [m|].
  - injection C as <-. simpl.
    split; [intros H; now apply MetricType_string_known in H | discriminate].
  - destruct (pointsOf n evs); [discriminate|].
    injection C as <-. simpl. split; reflexivity.
Qed.

Lemma unknown_kind_iff_never_defined_witness :
  mr_type
    {| mr_name := "vus"; mr_type := "gauge";
       mr_description := getMetricDescription "vus"; mr_unit := None;
       mr_points := [reportPoint (example_point "vus" 1%float)];
       mr_summary := Some (summarize [1]%float) |}
  = "unknown"
  <-> forall m,
        In (Metric m)
          [Point (example_point "vus" 1%float);
           example_metric "vus" gauge contains_default] ->
        md_name (m_data m) <> "vus".
Proof.
  apply (@unknown_kind_iff_never_defined
           [Point (example_point "vus" 1%float);
            example_metric "vus" gauge contains_default]
           {| mr_name := "vus"; mr_type := "gauge";
              mr_description := getMetricDescription "vus"; mr_unit := None;
              mr_points := [reportPoint (example_point "vus" 1%float)];
              mr_summary := Some (summarize [1]%float) |}).
  vm_compute. left. reflexivity.
Defined.

Lemma definitionsPass_definitions evs : forall ms,
  definitionsPass (filter is_definition evs) ms = definitionsPass evs ms.
Proof. induction evs as [|[m|p] evs IH]; intros ms; simpl; auto. Qed.

Lemma definitionsPass_points evs : forall ms,
  definitionsPass (filter is_point evs) ms = ms.
Proof. induction evs as [|[m|p] evs IH]; intros ms; simpl; auto. Qed.

Lemma pointsPass_points evs : forall ms,
  pointsPass (filter is_point evs) ms = pointsPass evs ms.
Proof. induction evs as [|[m|p] evs IH]; intros ms; simpl; auto. Qed.

Lemma pointsPass_definitions evs : forall ms,
  pointsPass (filter is_definition evs) ms = ms.
Proof. induction evs as [|[m|p] evs IH]; intros ms; simpl; auto. Qed.

(** X4.  How definition events and point events interleave in the stream
    does not matter: the sanitizer ends in the state it reaches on the
    definition events of the stream followed by its point events. *)
Theorem interleaving_is_irrelevant (evs : list K6Output) :
  metrics (new evs)
  = metrics (new (filter is_definition evs ++ filter is_point evs)).
Proof.
  rewrite !metrics_new. f_equal.
  unfold definitionsPass, pointsPass. rewrite !fold_left_app.
  fold (definitionsPass (filter is_definition evs) Dict.empty).
  rewrite definitionsPass_definitions.
  fold (definitionsPass (filter is_point evs) (definitionsPass evs Dict.empty)).
  rewrite definitionsPass_points.
  fold (pointsPass (filter is_definition evs) (definitionsPass evs Dict.empty)).
  rewrite pointsPass_definitions.
  fold (pointsPass (filter is_point evs) (definitionsPass evs Dict.empty)).
  now rewrite pointsPass_points.
Qed.

Lemma keys_addMetricDefinition m ms :
  Dict.keys (addMetricDefinition m ms)
  = Dict.keys ms ++ distinct (Dict.keys ms) [md_name (m_data m)].
Proof.
  unfold addMetricDefinition. simpl.
  destruct (Dict.has (md_name (m_data m)) ms) eqn:H; simpl.
  - apply has_true, mem_In in H. rewrite H. now rewrite app_nil_r.
  - assert (N : ~ In (md_name (m_data m)) (Dict.keys ms)).
    { intros Hin. apply has_true in Hin. congruence. }
    rewrite keys_set_absent by exact N.
    destruct (existsb _ _) eqn:E; [apply mem_In in E; contradiction|].
    reflexivity.
Qed.

Lemma keys_addDataPoint p ms :
  Dict.keys (addDataPoint p ms)
  = Dict.keys ms ++ distinct (Dict.keys ms) [p_metric p].
Proof.
  unfold addDataPoint. simpl.
  destruct (Dict.has (p_metric p) ms) eqn:H; simpl.
  - pose proof H as H'. apply has_true in H'.
    unfold Dict.has in H. destruct (Dict.get (p_metric p) ms); [|discriminate].
    rewrite keys_set_present by exact H'.
    apply mem_In in H'. rewrite H'. now rewrite app_nil_r.
  - assert (N : ~ In (p_metric p) (Dict.keys ms)).
    { intros Hin. apply has_true in Hin. congruence. }
    rewrite get_set_same. rewrite keys_set_present.
    + rewrite keys_set_absent by exact N.
      destruct (existsb _ _) eqn:E; [apply mem_In in E; contradiction|].
      reflexivity.
    + rewrite keys_set_absent by exact N. apply in_or_app. right. now left.
Qed.

Lemma keys_definitionsPass evs : forall ms,
  Dict.keys (definitionsPass evs ms)
  = Dict.keys ms ++ distinct (Dict.keys ms) (definedNames evs).
Proof.
  induction evs as [|[m|p] evs IH]; intros ms; simpl.
  - now rewrite app_nil_r.
  - unfold definitionsPass in *. simpl. rewrite IH, keys_addMetricDefinition.
    simpl. destruct (existsb _ (Dict.keys ms)) eqn:E.
    + now rewrite app_nil_r.
    + rewrite <- app_assoc. simpl. f_equal. f_equal. apply distinct_ext.
      intros y. rewrite in_app_iff. simpl. tauto.
  - apply IH.
Qed.

Lemma keys_pointsPass evs : forall ms,
  Dict.keys (pointsPass evs ms)
  = Dict.keys ms ++ distinct (Dict.keys ms) (pointNames evs).
Proof.
  induction evs as [|[m|p] evs IH]; intros ms; simpl.
  - now rewrite app_nil_r.
  - apply IH.
  - unfold pointsPass in *. simpl. rewrite IH, keys_addDataPoint.
    simpl. destruct (existsb _ (Dict.keys ms)) eqn:E.
    + now rewrite app_nil_r.
    + rewrite <- app_assoc. simpl. f_equal. f_equal. apply distinct_ext.
      intros y. rewrite in_app_iff. simpl. tauto.
Qed.

(** X5.  The output lists the reports in a fixed order: the defined metrics
    in the order of their first definition event, then the metrics that
    only points mention, in the order of their first point. *)
Theorem output_order (evs : list K6Output) :
  map mr_name (getSanitizedOutput (new evs))
  = distinct [] (definedNames evs ++ pointNames evs).
Proof.
  rewrite names_are_keys, metrics_new, keys_calculateSummaries.
  rewrite keys_pointsPass, keys_definitionsPass, distinct_app.
  reflexivity.
Qed.

Lemma count_one (k : string) (K : list string) :
  NoDup K -> In k K ->
  list_sum (map (fun k' => if String.eqb k k' then 1 else 0) K) = 1.
Proof.
  induction K as [|k0 K IH]; intros Hnd Hin; [contradiction|].
  inversion Hnd as [|? ? Hn Hnd']; subst. simpl.
  destruct (String.eqb_spec k k0) as [->|Hne].
  - f_equal. clear IH Hin Hnd. induction K as [|k1 K IH]; simpl; auto.
    destruct (String.eqb_spec k0 k1) as [->|]; [exfalso; apply Hn; now left|].
    apply IH.
    + intros H. apply Hn. now right.
    + now inversion Hnd'.
  - apply IH; auto. destruct Hin; congruence.
Qed.

Lemma points_counted (K : list string) : forall evs,
  NoDup K ->
  (forall n, In n (pointNames evs) -> In n K) ->
  list_sum (map (fun k => List.length (pointsOf k evs)) K)
  = List.length (pointNames evs).
Proof.
  intros evs Hnd. induction evs as [|[m|p] evs IH]; intros Hcov; simpl.
  - clear. induction K; simpl; auto.
  - apply IH. exact Hcov.
  - assert (E : list_sum
                  (map (fun k =>
                          List.length
                            (if String.eqb (p_metric p) k
                             then reportPoint p :: pointsOf k evs
                             else pointsOf k evs)) K)
                = list_sum
                    (map (fun k' => if String.eqb (p_metric p) k' then 1 else 0)
                       K)
                  + list_sum (map (fun k => List.length (pointsOf k evs)) K)).
    { clear. induction K as [|k K IHK]; simpl; auto.
      rewrite IHK. destruct (String.eqb (p_metric p) k); simpl; lia. }
    rewrite E, count_one, IH; auto.
    + intros n Hin. apply Hcov. now right.
    + apply Hcov. now left.
Qed.

Lemma pointNames_reported evs n :
  In n (pointNames evs) -> In n (Dict.keys (metrics (new evs))).
Proof.
  intros Hin. apply get_In_keys. rewrite get_metrics_new.
  destruct (collected n evs) eqn:C; [discriminate|].
  apply collected_None in C as [_ C]. exfalso.
  induction evs as [|[m|p] evs IH]; simpl in Hin.
  - contradiction.
  - apply IH; auto. intros q Hq. apply C. now right.
  - destruct Hin as [E|Hin].
    + apply (C p); simpl; auto.
    + apply IH; auto. intros q Hq. apply C. now right.
Qed.

(** X6.  No point is lost and none is counted twice: the numbers of points
    of the reports of the output add up to the number of point events of
    the stream. *)
Theorem points_are_conserved (evs : list K6Output) :
  list_sum (map (fun r => List.length (mr_points r))
              (getSanitizedOutput (new evs)))
  = List.length (filter is_point evs).
Proof.
  assert (L : List.length (filter is_point evs)
              = List.length (pointNames evs)).
  { induction evs as [|[m|p] evs IH]; simpl; auto. }
  rewrite L.
  rewrite <- (@points_counted (Dict.keys (metrics (new evs))) evs).
  - unfold getSanitizedOutput, Dict.values, Dict.keys. rewrite !map_map.
    f_equal. apply map_ext_in. intros [k r] Hin. simpl. f_equal.
    apply report_points. unfold getMetricByName.
    apply In_get; [apply wf_metrics_new | exact Hin].
  - apply wf_metrics_new.
  - intros n. apply pointNames_reported.
Qed.

Lemma fold_set_reports (B : Type) (f : MetricReport -> B) l : forall acc,
  fold_left (fun acc m => Dict.set (mr_name m) (f m) acc) l acc
  = fold_left (fun acc kv => Dict.set (fst kv) (snd kv) acc)
      (map (fun m => (mr_name m, f m)) l) acc.
Proof. induction l as [|r l IH]; intros acc; simpl; auto. Qed.

(** A view built by [view[metric.name] = f(metric)] over the reports has
    one entry per report. *)
Lemma view_entries (B : Type) (f : MetricReport -> B) evs :
  fold_left (fun acc m => Dict.set (mr_name m) (f m) acc)
    (getSanitizedOutput (new evs)) Dict.empty
  = map (fun m => (mr_name m, f m)) (getSanitizedOutput (new evs)).
Proof.
  rewrite fold_set_reports. apply fold_set_fresh. simpl.
  rewrite map_map. simpl. apply output_names_NoDup.
Qed.

Lemma get_view (B : Type) (f : MetricReport -> B) evs r :
  In r (getSanitizedOutput (new evs)) ->
  Dict.get (mr_name r)
    (map (fun m => (mr_name m, f m)) (getSanitizedOutput (new evs)))
  = Some (f r).
Proof.
  intros Hin. apply In_get.
  - unfold Dict.wf, Dict.keys. rewrite map_map. simpl.
    apply output_names_NoDup.
  - apply in_map_iff. exists r. auto.
Qed.

(** X7.  Reading [getSummary()] under the name of a report gives an entry
    with the report's kind, description, unit and summary, whose
    [dataPoints] is the number of point events of the stream for that name;
    and a name other than [__proto__] is a key of [getSummary()] exactly
    when it is the name of a report.  (Under the name [__proto__] the
    assignment makes the entry the prototype of the object: reading that
    name returns it, and it is no key.) *)
Theorem getSummary_view (evs : list K6Output) :
  (forall name,
     name <> "__proto__" ->
     (In name (Dict.keys (getSummary (new evs)))
      <-> In name (map mr_name (getSanitizedOutput (new evs)))))
  /\ forall r,
       In r (getSanitizedOutput (new evs)) ->
       Dict.get (mr_name r) (getSummary (new evs))
       = Some {| se_type := mr_type r;
                 se_description := mr_description r;
                 se_unit := mr_unit r;
                 se_dataPoints := List.length (pointEvents (mr_name r) evs);
                 se_summary := mr_summary r |}.
Proof.
  unfold getSummary. fold (getSanitizedOutput (new evs)).
  rewrite view_entries. split.
  - intros name _. unfold Dict.keys. rewrite map_map. simpl. tauto.
  - intros r Hin. rewrite get_view by exact Hin.
    apply In_output in Hin.
    now rewrite (report_points _ _ Hin), pointsOf_pointEvents, length_map.
Qed.

Lemma index_last (A : Type) (l : list A) :
  index l (Z.of_nat (List.length l) - 1) = last_of l.
Proof.
  unfold index, last_of.
  destruct l as [|a l'] using rev_ind; [reflexivity|].
  rewrite length_app, rev_app_distr. simpl.
  replace (Z.of_nat (List.length l' + 1) - 1)%Z
    with (Z.of_nat (List.length l')) by lia.
  destruct (Z.ltb_spec (Z.of_nat (List.length l')) 0); [lia|].
  rewrite Nat2Z.id. now rewrite nth_error_app2, Nat.sub_diag by lia.
Qed.

Lemma last_of_map (A B : Type) (f : A -> B) (l : list A) :
  last_of (map f l) = option_map f (last_of l).
Proof.
  unfold last_of. rewrite <- map_rev. now destruct (rev l).
Qed.

(** X8.  Reading [toMinimalOutput()] under the name of a report gives an
    entry with the report's unit and summary, whose [lastValue] is the
    value of the last point event of the stream for that name, undefined
    when there is none; and a name other than [__proto__] is a key of
    [toMinimalOutput()] exactly when it is the name of a report.  (Under
    the name [__proto__] the assignment makes the entry the prototype of
    the object: reading that name returns it, and it is no key.) *)
Theorem toMinimalOutput_view (evs : list K6Output) :
  (forall name,
     name <> "__proto__" ->
     (In name (Dict.keys (toMinimalOutput (new evs)))
      <-> In name (map mr_name (getSanitizedOutput (new evs)))))
  /\ forall r,
       In r (getSanitizedOutput (new evs)) ->
       Dict.get (mr_name r) (toMinimalOutput (new evs))
       = Some {| me_summary := mr_summary r;
                 me_lastValue :=
                   option_map (fun q => pd_value (p_data q))
                     (last_of (pointEvents (mr_name r) evs));
                 me_unit := mr_unit r |}.
Proof.
  unfold toMinimalOutput. fold (getSanitizedOutput (new evs)).
  rewrite view_entries. split.
  - intros name _. unfold Dict.keys. rewrite map_map. simpl. tauto.
  - intros r Hin. rewrite get_view by exact Hin.
    apply In_output in Hin. unfold lastValue.
    rewrite index_last, (report_points _ _ Hin), pointsOf_pointEvents.
    rewrite last_of_map. now destruct (last_of (pointEvents (mr_name r) evs)).
Qed.

Lemma reportPoint_timestamp name evs :
  Forall (fun pt => pt_timestamp pt = Some (NewDate (pt_time pt)))
    (pointsOf name evs).
Proof.
  induction evs as [|[m|p] evs IH]; simpl; auto.
  destruct (String.eqb (p_metric p) name); auto.
Qed.

(** A report is what its first definition event declares, or the implicit
    report of its name, with the points of the stream and their summary. *)
Lemma report_shape evs r :
  In r (getSanitizedOutput (new evs)) ->
  (exists m,
     firstDefinition (mr_name r) evs = Some m
     /\ md_name (m_data m) = mr_name r
     /\ r = withSummary
              (appendPoints (declared m) (pointsOf (mr_name r) evs)))
  \/ (firstDefinition (mr_name r) evs = None
      /\ r = withSummary
               (appendPoints (implicit (mr_name r))
                  (pointsOf (mr_name r) evs))).
Proof.
  intros Hin. apply In_output in Hin.
  remember (mr_name r) as n eqn:Hn. unfold getMetricByName in Hin.
  rewrite get_metrics_new in Hin. unfold collected in Hin.
  destruct (firstDefinition n evs) as [m|] eqn:F.
  - left. exists m. simpl in Hin. injection Hin as <-.
    split; [reflexivity|]. split; [|reflexivity].
    eapply firstDefinition_name; eauto.
  - right. destruct (pointsOf n evs) eqn:P; [discriminate|].
    simpl in Hin. injection Hin as <-. auto.
Qed.

(** X9.  Every report of the output is consistent: its kind is one of
    gauge, counter, trend, rate and unknown; its description is the
    description lookup of its own name; its unit is absent, "ms" or "bytes",
    and absent when the kind is unknown; each of its points carries the date
    made from its own time string.  Accordingly [getMetricsByType] is empty
    for any string that is not one of the five kinds. *)
Theorem report_invariants (evs : list K6Output) :
  (forall r,
     In r (getSanitizedOutput (new evs)) ->
     In (mr_type r) kinds
     /\ mr_description r = getMetricDescription (mr_name r)
     /\ In (mr_unit r) [None; Some "ms"; Some "bytes"]
     /\ (mr_type r = "unknown" -> mr_unit r = None)
     /\ Forall (fun pt => pt_timestamp pt = Some (NewDate (pt_time pt)))
          (mr_points r))
  /\ forall t, ~ In t kinds -> getMetricsByType (new evs) t = [].
Proof.
  assert (H : forall r,
             In r (getSanitizedOutput (new evs)) ->
             In (mr_type r) kinds
             /\ mr_description r = getMetricDescription (mr_name r)
             /\ In (mr_unit r) [None; Some "ms"; Some "bytes"]
             /\ (mr_type r = "unknown" -> mr_unit r = None)
             /\ Forall (fun pt => pt_timestamp pt = Some (NewDate (pt_time pt)))
                  (mr_points r)).
  { intros r Hin.
    assert (P : mr_points r = pointsOf (mr_name r) evs)
      by (apply report_points; now apply In_output).
    rewrite P.
    destruct (report_shape _ _ Hin) as [(m & _ & N & E)|[_ E]];
      pose proof (f_equal mr_type E) as T;
      pose proof (f_equal mr_unit E) as U;
      pose proof (f_equal mr_description E) as D;
      match type of E with _ = withSummary ?r0 =>
        destruct (withSummary_fields r0) as (_ & Ht & Hd & Hu & _);
        rewrite Ht in T; rewrite Hu in U; rewrite Hd in D end;
      simpl in T, U, D; rewrite T, U, D;
      (split; [|split; [|split; [|split]]]);
      try apply reportPoint_timestamp.
    - destruct (md_type (m_data m)); simpl; auto 6.
    - now rewrite N.
    - destruct (md_contains (m_data m)); simpl; auto.
    - intros K. now apply MetricType_string_known in K.
    - simpl. auto 6.
    - reflexivity.
    - simpl. auto.
    - reflexivity. }
  split; [exact H|].
  intros t Hnot. unfold getMetricsByType.
  fold (getSanitizedOutput (new evs)).
  induction (getSanitizedOutput (new evs)) as [|r l IH]; simpl; auto.
  destruct (String.eqb_spec (mr_type r) t) as [E|_].
  - exfalso. apply Hnot. rewrite <- E. apply (H r). now left.
  - apply IH. intros r' Hin. apply H. now right.
Qed.

(** X10.  The output is empty only for the empty stream: every event,
    definition or point, leaves a report in the output. *)
Theorem output_empty_iff (evs : list K6Output) :
  getSanitizedOutput (new evs) = [] <-> evs = [].
Proof.
  split; [|now intros ->].
  destruct evs as [|e rest]; [reflexivity|]. intros H. exfalso.
  set (n := match e with
            | Metric m => md_name (m_data m)
            | Point p => p_metric p
            end).
  destruct (Dict.get n (metrics (new (e :: rest)))) as [r|] eqn:G.
  - apply get_In in G.
    assert (Hin : In r (getSanitizedOutput (new (e :: rest)))).
    { unfold getSanitizedOutput, Dict.values.
      change r with (snd (n, r)). now apply in_map. }
    rewrite H in Hin. contradiction.
  - rewrite get_metrics_new in G.
    destruct (collected n (e :: rest)) eqn:C; [discriminate|].
    apply collected_None in C as [Cm Cp].
    destruct e as [m|p]; [apply (Cm m) | apply (Cp p)]; simpl; auto.
Qed.

Lemma pointsOf_app n a b :
  pointsOf n (a ++ b) = pointsOf n a ++ pointsOf n b.
Proof.
  induction a as [|[m|p] a IH]; simpl; auto.
  destruct (String.eqb (p_metric p) n); simpl; now rewrite IH.
Qed.

Lemma firstDefinition_app n a b :
  firstDefinition n (a ++ b)
  = match firstDefinition n a with
    | Some m => Some m
    | None => firstDefinition n b
    end.
Proof.
  induction a as [|[m|p] a IH]; simpl; auto.
  now destruct (String.eqb (md_name (m_data m)) n).
Qed.

(** X11.  Sanitizing a longer stream only extends what a shorter one gives:
    a metric reported for [evs] is reported for [evs ++ more] under the same
    name and description, with the same points followed by the points that
    [more] brings for it; and unless its kind was unknown, its kind and
    unit are unchanged. *)
Theorem longer_stream_extends_reports
  (evs more : list K6Output) (name : string) (r : MetricReport) :
  getMetricByName (new evs) name = Some r ->
  exists r',
    getMetricByName (new (evs ++ more)) name = Some r'
    /\ mr_name r' = mr_name r
    /\ mr_description r' = mr_description r
    /\ mr_points r' = mr_points r ++ pointsOf name more
    /\ (mr_type r <> "unknown" ->
        mr_type r' = mr_type r /\ mr_unit r' = mr_unit r).
Proof.
  unfold getMetricByName. rewrite !get_metrics_new. unfold collected.
  rewrite firstDefinition_app, pointsOf_app.
  destruct (firstDefinition name evs) as [m|] eqn:F.
  - simpl. intros [= <-]. eexists. split; [reflexivity|].
    repeat match goal with |- context [withSummary ?r0] =>
      let H := fresh in
      destruct (withSummary_fields r0) as (-> & -> & -> & -> & ->) end.
    simpl. auto.
  - destruct (pointsOf name evs) as [|q qs] eqn:P; [discriminate|].
    simpl. intros [= <-].
    destruct (firstDefinition name more) as [m|] eqn:F'; simpl;
      (eexists; split; [reflexivity|]);
      repeat match goal with |- context [withSummary ?r0] =>
        destruct (withSummary_fields r0) as (-> & -> & -> & -> & ->) end;
      simpl.
    + pose proof (firstDefinition_name _ _ F') as N. rewrite N.
      repeat split; auto; congruence.
    + repeat split; auto.
Qed.

Lemma longer_stream_extends_reports_witness :
  exists r',
    getMetricByName
      (new ([example_metric "vus" gauge contains_default;
             Point (example_point "vus" 1%float)]
            ++ [Point (example_point "vus" 2%float);
                example_metric "vus" trend contains_time])) "vus"
    = Some r'
    /\ mr_points r'
       = [reportPoint (example_point "vus" 1%float);
          reportPoint (example_point "vus" 2%float)]
    /\ mr_type r' = "gauge" /\ mr_unit r' = None.
Proof.
  destruct (@longer_stream_extends_reports
              [example_metric "vus" gauge contains_default;
               Point (example_point "vus" 1%float)]
              [Point (example_point "vus" 2%float);
               example_metric "vus" trend contains_time]
              "vus"
              {| mr_name := "vus"; mr_type := "gauge";
                 mr_description := getMetricDescription "vus";
                 mr_unit := None;
                 mr_points := [reportPoint (example_point "vus" 1%float)];
                 mr_summary := Some (summarize [1]%float) |})
    as (r' & G & _ & _ & P & K).
  - vm_compute. reflexivity.
  - exists r'. split; [exact G|]. split; [exact P|].
    apply K. discriminate.
Defined.

End SanitizerCoverage.

(* ================================================================== *)
(** ** Deep merge: identities, keys, well-formedness, repetition *)

Module MergeCoverage.
Import Js Merge MergeSpec StreamSpec NameLists MergeClaims.

Lemma written_absent k v : written [] k v = v.
Proof. reflexivity. Qed.

Lemma merge_loop_empty_target : forall src result,
  merge_loop [] result src
  = fold_left (fun acc kv => Dict.set (fst kv) (snd kv) acc) src result.
Proof. induction src as [|[k v] src IH]; intros result; simpl; auto. Qed.

Lemma deepMerge_empty_target s : Dict.wf s -> deepMerge [] s = s.
Proof.
  intros Hwf. rewrite deepMerge_unfold, merge_loop_empty_target.
  now rewrite fold_set_fresh.
Qed.

Lemma keys_set (V : Type) k (v : V) (d : Dict.t V) :
  Dict.keys (Dict.set k v d) = Dict.keys d ++ distinct (Dict.keys d) [k].
Proof.
  simpl. destruct (existsb (String.eqb k) (Dict.keys d)) eqn:E.
  - apply mem_In in E. rewrite keys_set_present by exact E.
    now rewrite app_nil_r.
  - apply keys_set_absent. intros H. apply mem_In in H. congruence.
Qed.

Lemma keys_merge_loop target : forall src result,
  Dict.keys (merge_loop target result src)
  = Dict.keys result ++ distinct (Dict.keys result) (Dict.keys src).
Proof.
  induction src as [|[k v] src IH]; intros result; simpl.
  - now rewrite app_nil_r.
  - rewrite IH, keys_set. simpl.
    destruct (existsb (String.eqb k) (Dict.keys result)) eqn:E.
    + now rewrite app_nil_r.
    + rewrite <- app_assoc. simpl. f_equal. f_equal. apply distinct_ext.
      intros y. rewrite in_app_iff. simpl. tauto.
Qed.

Lemma wf_merge_loop target : forall src result,
  Dict.wf result -> Dict.wf (merge_loop target result src).
Proof.
  induction src as [|[k v] src IH]; intros result Hwf; simpl; auto.
  apply IH. now apply wf_set.
Qed.

Lemma tree_wf x : key_value_tree x -> Dict.wf x.
Proof. now intros []. Qed.

Lemma tree_sub x k sub :
  key_value_tree x -> In (k, VObject sub) x -> key_value_tree sub.
Proof. intros [props Hwf Hsub] Hin. eapply Hsub; eauto. Qed.

(** [deepMerge] of two key-value trees is a key-value tree: no key
    occurs twice in the result, at any level. *)
Lemma deepMerge_tree (t s : Dict.t value) :
  key_value_tree t -> key_value_tree s -> key_value_tree (deepMerge t s).
Proof.
  intros Ht Hs. revert t Ht.
  induction Hs as [s Hwf Hsub IH]. intros t Ht.
  assert (W : Dict.wf (deepMerge t s)).
  { rewrite deepMerge_unfold. apply wf_merge_loop. now apply tree_wf. }
  constructor; [exact W|].
  intros k sub Hin. apply (In_get _ _ W) in Hin.
  rewrite get_deepMerge in Hin by exact Hwf.
  destruct (Dict.get k s) as [v|] eqn:G.
  - apply get_In in G. injection Hin as Hin. unfold written in Hin.
    destruct (Dict.has k t && isObject (read k t) && isObject v) eqn:C.
    + apply andb_prop in C as [C Cv]. apply andb_prop in C as [_ Ct].
      apply isObject_true in Ct as [tp Etp], Cv as [sp ->].
      rewrite Etp in Hin. injection Hin as <-.
      apply (IH k sp G). apply (@tree_sub t k tp Ht).
      apply get_In. unfold read in Etp.
      destruct (Dict.get k t); [now subst | discriminate].
    + subst v. eapply Hsub; eauto.
  - apply get_In in Hin. eapply tree_sub; eauto.
Qed.

Lemma deepMerge_tree_witness :
  key_value_tree (deepMerge nested_config nested_config).
Proof.
  exact (deepMerge_tree nested_config_tree nested_config_tree).
Defined.

Lemma merge_loop_settled target : forall src result,
  (forall k v, In (k, v) src ->
     Dict.get k result = Some (written target k v)) ->
  merge_loop target result src = result.
Proof.
  induction src as [|[k0 v0] rest IH]; intros result H; simpl.
  - reflexivity.
  - rewrite (set_get_same _ _ (H k0 v0 (or_introl eq_refl))).
    apply IH. intros k v Hin. apply H. now right.
Qed.

(** X14.  Merging the same override a second time changes nothing: for
    every target [t] and every key-value tree [s],
    [deepMerge(deepMerge(t, s), s)] is [deepMerge(t, s)]. *)
Theorem deepMerge_again (t s : Dict.t value) :
  key_value_tree s -> deepMerge (deepMerge t s) s = deepMerge t s.
Proof.
  intros Hs. revert t. induction Hs as [s Hwf Hsub IH]. intros t.
  rewrite (deepMerge_unfold (deepMerge t s) s). apply merge_loop_settled.
  intros k v Hin. pose proof (In_get _ _ Hwf Hin) as G.
  assert (R : Dict.get k (deepMerge t s) = Some (written t k v))
    by (rewrite get_deepMerge, G by exact Hwf; reflexivity).
  rewrite R. f_equal. symmetry.
  unfold written at 1. rewrite has_read_isObject. unfold read at 1 2.
  rewrite R.
  destruct (isObject v) eqn:Cv.
  - apply isObject_true in Cv as [sp ->].
    unfold written. rewrite has_read_isObject.
    destruct (isObject (read k t)) eqn:Ct; simpl.
    + apply isObject_true in Ct as [tp ->]. simpl. f_equal.
      now apply (IH k sp Hin).
    + destruct (read k t); simpl; try discriminate; f_equal;
        rewrite <- (deepMerge_empty_target (tree_wf (Hsub k sp Hin))) at 1 3;
        now apply (IH k sp Hin).
  - rewrite andb_false_r. unfold written.
    now rewrite Cv, andb_false_r.
Qed.

Lemma deepMerge_again_witness :
  deepMerge (deepMerge [("options", VObject [("vus", VNumber 5)])]
               nested_config) nested_config
  = deepMerge [("options", VObject [("vus", VNumber 5)])] nested_config.
Proof.
  exact (deepMerge_again [("options", VObject [("vus", VNumber 5)])]
           nested_config_tree).
Defined.

End MergeCoverage.

(* ================================================================== *)
(** ** Deep merge with prototypes: the empty object, keys and frame *)

Module PrototypeCoverage.
Import Js Prototype PrototypeFacts.

Lemma merge_loop_onto_empty : forall src proto result,
  NoDup (Dict.keys result ++ Dict.keys src) ->
  ~ In "__proto__" (Dict.keys src) ->
  merge_loop (Plain []) proto result src
  = Merged proto (result ++ spread (Plain src)).
Proof.
  induction src as [|[k0 v0] rest IH]; intros proto result Hnd Hno.
  - simpl. now rewrite app_nil_r.
  - cbn [merge_loop].
    assert (Hk : String.eqb k0 "__proto__" = false).
    { apply String.eqb_neq. intros ->. apply Hno. simpl. auto. }
    rewrite Hk. cbn [andb]. unfold written. simpl object_at. rewrite Hk.
    rewrite set_absent.
    + rewrite IH.
      * simpl. now rewrite <- app_assoc.
      * unfold Dict.keys in *. rewrite map_app. simpl in *.
        now rewrite <- app_assoc.
      * simpl in Hno. tauto.
    + simpl in Hnd. apply NoDup_remove_2 in Hnd. rewrite in_app_iff in Hnd.
      tauto.
Qed.

(** X12.  The empty object is neutral on both sides: [deepMerge(x, {})] is
    a copy of [x], with the own properties of [x] and [Object.prototype]
    for prototype, and so is [deepMerge({}, x)] when [x] has no key
    [__proto__]. *)
Theorem deepMerge_empty (x : Dict.t value) :
  deepMerge x [] = Merged None (spread (Plain x))
  /\ (Dict.wf x ->
      ~ In "__proto__" (Dict.keys x) ->
      deepMerge [] x = Merged None (spread (Plain x))).
Proof.
  split; [reflexivity|]. intros Hwf Hno.
  unfold deepMerge. rewrite deepMerge_on_unfold.
  now rewrite merge_loop_onto_empty.
Qed.

Lemma deepMerge_empty_witness :
  deepMerge [("a", VNumber 1)] [] = Merged None [("a", Given (VNumber 1))]
  /\ deepMerge [] [("a", VNumber 1)] = Merged None [("a", Given (VNumber 1))].
Proof.
  split.
  - exact (proj1 (deepMerge_empty [("a", VNumber 1)])).
  - apply (proj2 (deepMerge_empty [("a", VNumber 1)])).
    + repeat constructor. simpl. tauto.
    + simpl. intuition discriminate.
Defined.

(** X13.  The properties [deepMerge(target, source)] has of its own are
    under the keys of the target and the keys of the source other than
    [__proto__], none lost and none invented; its own property under a key
    that the source does not have is the target's, untouched; and its
    prototype is [Object.prototype] unless the source has a key [__proto__]
    that the target has not. *)
Theorem deepMerge_keys_and_frame (t s : Dict.t value) :
  Dict.wf s ->
  (forall k,
     In k (Dict.keys (ownProperties (deepMerge t s)))
     <-> In k (Dict.keys t) \/ (In k (Dict.keys s) /\ k <> "__proto__"))
  /\ (forall k,
        ~ In k (Dict.keys s) ->
        Dict.get k (ownProperties (deepMerge t s))
        = option_map Given (Dict.get k t))
  /\ ((In "__proto__" (Dict.keys s) -> In "__proto__" (Dict.keys t)) ->
      prototypeOf (deepMerge t s) = None).
Proof.
  intros Hwf. unfold deepMerge. rewrite deepMerge_on_unfold.
  split; [|split].
  - intros k. now rewrite keys_merge_loop_own, keys_spread_plain.
  - intros k Hk. rewrite get_merge_loop_own by exact Hwf.
    apply get_None_keys in Hk. rewrite Hk. apply get_spread_plain.
  - intros H. apply prototypeOf_merge_loop. intros Hin.
    rewrite has_spread_plain. apply has_true. auto.
Qed.

Lemma deepMerge_keys_and_frame_witness :
  In "scenario"
    (Dict.keys
       (ownProperties
          (deepMerge
             [("options", VObject [("vus", VNumber 5)]); ("label", VNull)]
             [("scenario", VArray []);
              ("options", VObject [("vus", VNumber 9)])])))
  /\ Dict.get "label"
       (ownProperties
          (deepMerge
             [("options", VObject [("vus", VNumber 5)]); ("label", VNull)]
             [("scenario", VArray []);
              ("options", VObject [("vus", VNumber 9)])]))
     = Some (Given VNull)
  /\ prototypeOf
       (deepMerge
          [("options", VObject [("vus", VNumber 5)]); ("label", VNull)]
          [("scenario", VArray []);
           ("options", VObject [("vus", VNumber 9)])])
     = None.
Proof.
  destruct (@deepMerge_keys_and_frame
              [("options", VObject [("vus", VNumber 5)]); ("label", VNull)]
              [("scenario", VArray []);
               ("options", VObject [("vus", VNumber 9)])])
    as (K & F & P).
  - repeat constructor; simpl; intuition discriminate.
  - split; [apply (K "scenario"); simpl; right; split;
            [tauto | discriminate]|].
    split.
    + apply (F "label"). simpl. intuition discriminate.
    + apply P. simpl. intuition discriminate.
Defined.

End PrototypeCoverage.

(* ================================================================== *)
(** ** Pipeline: configuration, store, failures, modes and duration *)

Module PipelineCoverage.
Import Js Loop Pipeline PipelineSpec RunSpec PipelineFacts PipelineRun.
Import PipelineClaims.

Lemma nth_replace_at_same (A : Type) (d a : A) : forall l i,
  i < List.length l -> nth i (replace_at i a l) d = a.
Proof.
  induction l as [|x l IH]; intros [|i] H; simpl in *; try lia; auto.
  apply IH. lia.
Qed.

Lemma read_set_same k v (d : Dict.t value) : read k (Dict.set k v d) = v.
Proof. unfold read. now rewrite get_set_same. Qed.

Lemma read_set_other k k' v (d : Dict.t value) :
  k <> k' -> read k' (Dict.set k v d) = read k' d.
Proof. intros H. unfold read. now rewrite get_set_other. Qed.

(** X15.  For a key other than [__proto__], [setConfig(key, value)] returns
    the pipeline it was called on and writes the entry in place:
    [getConfig(key)] then reads [value], the other entries of that config
    registry read as before, and every pipeline value that holds the same
    config registry sees the change.  No other registry of the store
    changes, and nothing is executed.  (Under [__proto__] the assignment
    may reach the accessor of [Object.prototype] instead of writing an
    entry.) *)
Theorem setConfig_writes_in_place
  (w : World) (this : AdapterPipeline) (key : string) (v : value) :
  key <> "__proto__" ->
  config this < List.length (configObjects w) ->
  fst (setConfig key v this w) = Ok this
  /\ getConfig key this (snd (setConfig key v this w)) = v
  /\ (forall k, k <> key ->
        getConfig k this (snd (setConfig key v this w)) = getConfig k this w)
  /\ (forall other,
        config other = config this ->
        getConfig key other (snd (setConfig key v this w)) = v)
  /\ (forall r, r <> config this ->
        configAt r (snd (setConfig key v this w)) = configAt r w)
  /\ adapterObjects (snd (setConfig key v this w)) = adapterObjects w
  /\ now (snd (setConfig key v this w)) = now w
  /\ inflight (snd (setConfig key v this w)) = inflight w
  /\ trace (snd (setConfig key v this w)) = trace w.
Proof.
  intros _ Hc. unfold setConfig, bind, writeConfig, ret, getConfig, configAt.
  simpl. split; [reflexivity|].
  rewrite nth_replace_at_same by exact Hc.
  split; [apply read_set_same|].
  split; [intros k Hk; apply read_set_other; congruence|].
  split.
  - intros other ->. rewrite nth_replace_at_same by exact Hc.
    apply read_set_same.
  - split; [|auto].
    intros r Hr. apply nth_replace_at_other. congruence.
Qed.

Lemma setConfig_writes_in_place_witness :
  getConfig "a" pipeline_ab
    (snd (setConfig "a" (VNumber 7) pipeline_ab
            (world_ab (reporting 1) (reporting 0) (VString "x") VNull)))
  = VNumber 7
  /\ configAt 1
       (snd (setConfig "a" (VNumber 7) pipeline_ab
               (world_ab (reporting 1) (reporting 0) (VString "x") VNull)))
     = [("a", VString "x")].
Proof.
  destruct (@setConfig_writes_in_place
              (world_ab (reporting 1) (reporting 0) (VString "x") VNull)
              pipeline_ab "a" (VNumber 7))
    as (_ & G & _ & _ & F & _).
  - discriminate.
  - vm_compute. lia.
  - split; [exact G|]. apply (F 1). discriminate.
Defined.

(** X16.  After [addAdapter(key, adapter, config)], [getAdapter(key)] on
    the new pipeline is [adapter] and [getConfig(key)] is [config] when it
    is truthy and undefined otherwise, while under every other key both
    getters read what they read on the original pipeline. *)
Theorem getters_after_addAdapter
  (w : World) (this : AdapterPipeline) (key : string) (adapter : Adapter)
  (cfg : value) :
  adapters this < List.length (adapterObjects w) ->
  config this < List.length (configObjects w) ->
  exists this' w',
    addAdapter key adapter cfg this w = (Ok this', w')
    /\ getAdapter key this' w' = Some adapter
    /\ getConfig key this' w' = (if truthy cfg then cfg else VUndefined)
    /\ forall k, k <> key ->
         getAdapter k this' w' = getAdapter k this w
         /\ getConfig k this' w' = getConfig k this w.
Proof.
  intros Ha Hc. eexists. eexists. split; [reflexivity|].
  unfold getAdapter, getConfig, adaptersAt, configAt, or_else. simpl.
  rewrite !nth_middle.
  split; [apply get_set_same|]. split; [apply read_set_same|].
  intros k Hk. split.
  - apply get_set_other. congruence.
  - apply read_set_other. congruence.
Qed.

Lemma getters_after_addAdapter_witness :
  exists this' w',
    addAdapter "b" (reporting 0) VNull {| adapters := 1; config := 1 |}
      (world_ab (reporting 1) (reporting 0) (VString "x") VNull)
    = (Ok this', w')
    /\ getAdapter "b" this' w' = Some (reporting 0)
    /\ getConfig "b" this' w' = VUndefined
    /\ getAdapter "a" this' w' = Some (reporting 1)
    /\ getConfig "a" this' w' = VString "x".
Proof.
  destruct (@getters_after_addAdapter
              (world_ab (reporting 1) (reporting 0) (VString "x") VNull)
              {| adapters := 1; config := 1 |} "b" (reporting 0) VNull)
    as (this' & w' & E & G1 & G2 & F).
  - vm_compute. lia.
  - vm_compute. lia.
  - exists this', w'. split; [exact E|]. split; [exact G1|].
    split; [exact G2|].
    destruct (F "a") as [F1 F2]; [discriminate|].
    split; [exact F1 | exact F2].
Defined.

(** X17.  On a pipeline just made by [new AdapterPipeline()], [getAdapter]
    and [getConfig] are undefined under every key that is not the name of a
    member inherited from [Object.prototype], and [run] resolves to the
    empty map, whatever the override and the options: it starts nothing,
    lets no time pass and leaves the world as it found it. *)
Theorem run_on_fresh_pipeline
  (w : World) (cfg : option (Dict.t value)) (options : PipelineOptions) :
  exists this w',
    new w = (Ok this, w')
    /\ (forall key,
          Sanitizer.inherited key = false ->
          getAdapter key this w' = None
          /\ getConfig key this w' = VUndefined)
    /\ run cfg options this w' = (Ok [], w').
Proof.
  eexists. eexists. split; [reflexivity|].
  unfold getAdapter, getConfig, configAt, run, adaptersAt, bind, ret. simpl.
  rewrite !nth_middle. simpl. split; [intros key _; split; reflexivity|].
  destruct (is_true (runInParallel options)).
  - unfold Promise_all. simpl. unfold suspend_until. simpl.
    unfold adaptersAt. simpl. rewrite nth_middle. simpl.
    rewrite ?app_nil_r. reflexivity.
  - simpl. unfold ret, adaptersAt. simpl. rewrite nth_middle. simpl.
    rewrite ?app_nil_r. reflexivity.
Qed.

Lemma run_store cfg options this w :
  same_store w (snd (run cfg options this w)).
Proof.
  rewrite run_unfold, bind_ret_snd.
  destruct (awaiting_spec (is_true (runInParallel options))
              (map (promise_of (finalConfigOf this cfg w) (now w))
                 (registryOf this w))
              (after_starts (finalConfigOf this cfg w) (registryOf this w) w))
    as (_ & _ & evs & _ & _ & Sa & Sc).
  split; [exact Sa | exact Sc].
Qed.

(** X18.  [run] never writes to the store: after it, in either mode and
    also when it rejects, every pipeline reads the adapters and the
    configuration entries it read before; the override is used for that
    run only. *)
Theorem run_leaves_registries
  (w : World) (this : AdapterPipeline) (cfg : option (Dict.t value))
  (options : PipelineOptions) :
  forall (other : AdapterPipeline) (key : string),
    getAdapter key other (snd (run cfg options this w))
    = getAdapter key other w
    /\ getConfig key other (snd (run cfg options this w))
       = getConfig key other w.
Proof.
  intros other key. destruct (run_store cfg options this w) as [Sa Sc].
  unfold getAdapter, getConfig, adaptersAt, configAt.
  now rewrite Sa, Sc.
Qed.

Lemma first_rejected_entries final t es :
  first_rejected (map (promise_of final t) es) = firstFailure final es.
Proof.
  induction es as [|[k a] es IH]; simpl; auto.
  unfold promise_of at 1. simpl.
  destruct (truthy (read k final)); [|exact IH].
  destruct (respond a (read k final)); [exact IH | reflexivity].
Qed.

Lemma firstFailure_Some final es :
  (exists e, firstFailure final es = Some e)
  <-> exists key adapter e,
        In (key, adapter) es
        /\ truthy (read key final) = true
        /\ respond adapter (read key final) = Rejected e.
Proof.
  induction es as [|[k a] es IH]; simpl.
  - split; [intros [e E]; discriminate | intros (? & ? & ? & [] & _)].
  - destruct (truthy (read k final)) eqn:T.
    + destruct (respond a (read k final)) as [out|e0] eqn:R.
      * rewrite IH. split.
        -- intros (key & adapter & e & Hin & H). exists key, adapter, e. auto.
        -- intros (key & adapter & e & [E|Hin] & Ht & Hr).
           ++ injection E as <- <-. congruence.
           ++ exists key, adapter, e. auto.
      * split; [|eauto]. intros _. exists k, a, e0. auto.
    + rewrite IH. split.
      * intros (key & adapter & e & Hin & H). exists key, adapter, e. auto.
      * intros (key & adapter & e & [E|Hin] & Ht & Hr).
        -- injection E as <- <-. congruence.
        -- exists key, adapter, e. auto.
Qed.

Lemma run_result cfg options this w :
  fst (run cfg options this w)
  = match
      fst ((if is_true (runInParallel options)
            then Promise_all
                   (map (promise_of (finalConfigOf this cfg w) (now w))
                      (registryOf this w))
            else mapM await
                   (map (promise_of (finalConfigOf this cfg w) (now w))
                      (registryOf this w)))
             (after_starts (finalConfigOf this cfg w) (registryOf this w) w))
    with
    | Ok results =>
        Ok (Dict.fromEntries
              (mapi_from 0
                 (fun entry index =>
                    (fst entry, nth index results VUndefined))
                 (registryOf this w)))
    | Throw e => Throw e
    end.
Proof. rewrite run_unfold. apply bind_ret_fst. Qed.

Lemma first_rejection_earliest final t : forall es t1 e,
  first_rejection (map (promise_of final t) es) = Some (t1, e) ->
  exists key adapter,
    In (key, adapter) es
    /\ truthy (read key final) = true
    /\ respond adapter (read key final) = Rejected e
    /\ t1 = t + latency adapter (read key final)
    /\ forall key' adapter' e',
         In (key', adapter') es ->
         truthy (read key' final) = true ->
         respond adapter' (read key' final) = Rejected e' ->
         t1 <= t + latency adapter' (read key' final).
Proof.
  induction es as [|[k a] es IH]; intros t1 e; [discriminate|].
  cbn [map first_rejection]. unfold promise_of at 1. cbn [fst snd].
  destruct (truthy (read k final)) eqn:T.
  - destruct (respond a (read k final)) as [out|e0] eqn:R.
    + intros H. destruct (IH _ _ H) as (key & adapter & Hin & Ht & Hr & Et & Hmin).
      exists key, adapter. split; [now right|]. do 3 (split; [assumption|]).
      intros key' adapter' e' [[= <- <-]|Hin'] Ht' Hr'; [congruence|eauto].
    + destruct (first_rejection (map (promise_of final t) es))
        as [[t' e']|] eqn:F.
      * destruct (IH _ _ eq_refl)
          as (key & adapter & Hin & Ht & Hr & Et & Hmin).
        destruct (Nat.ltb_spec t' (t + latency a (read k final))) as [L|L];
          intros [= <- <-].
        -- exists key, adapter. split; [now right|]. do 3 (split; [assumption|]).
           intros key' adapter' e'' [[= <- <-]|Hin'] Ht' Hr'; [lia|eauto].
        -- exists k, a. split; [now left|]. do 3 (split; [auto|]).
           intros key' adapter' e'' [[= <- <-]|Hin'] Ht' Hr'; [lia|].
           specialize (Hmin _ _ _ Hin' Ht' Hr'). lia.
      * intros [= <- <-]. exists k, a. split; [now left|]. do 3 (split; [auto|]).
        intros key' adapter' e'' [[= <- <-]|Hin'] Ht' Hr'; [lia|].
        exfalso.
        assert (N : first_rejected (map (promise_of final t) es) = None).
        { pose proof (first_rejection_first_rejected
                        (map (promise_of final t) es)) as L.
          rewrite F in L.
          now destruct (first_rejected (map (promise_of final t) es)). }
        rewrite first_rejected_entries in N.
        assert (S : exists x, firstFailure final es = Some x).
        { apply firstFailure_Some. exists key', adapter', e''. auto. }
        destruct S as [x S]. congruence.
  - intros H. destruct (IH _ _ H) as (key & adapter & Hin & Ht & Hr & Et & Hmin).
    exists key, adapter. split; [now right|]. do 3 (split; [assumption|]).
    intros key' adapter' e' [[= <- <-]|Hin'] Ht' Hr'; [congruence|eauto].
Qed.

(** X19.  With [runInParallel] true, [run] rejects exactly when some
    registered adapter that it starts returns a promise that rejects, and
    the error it rejects with is that of a started adapter whose promise
    rejects no later than that of any other. *)
Theorem parallel_run_rejects_iff
  (w : World) (this : AdapterPipeline) (cfg : option (Dict.t value))
  (options : PipelineOptions) :
  Dict.wf (registryOf this w) ->
  is_true (runInParallel options) = true ->
  ((exists e, fst (run cfg options this w) = Throw e)
   <-> exists key adapter e,
         Dict.get key (registryOf this w) = Some adapter
         /\ truthy (read key (finalConfigOf this cfg w)) = true
         /\ respond adapter (read key (finalConfigOf this cfg w))
            = Rejected e)
  /\ forall e,
       fst (run cfg options this w) = Throw e ->
       exists key adapter,
         Dict.get key (registryOf this w) = Some adapter
         /\ truthy (read key (finalConfigOf this cfg w)) = true
         /\ respond adapter (read key (finalConfigOf this cfg w))
            = Rejected e
         /\ forall key' adapter' e',
              Dict.get key' (registryOf this w) = Some adapter' ->
              truthy (read key' (finalConfigOf this cfg w)) = true ->
              respond adapter' (read key' (finalConfigOf this cfg w))
              = Rejected e' ->
              latency adapter (read key (finalConfigOf this cfg w))
              <= latency adapter' (read key' (finalConfigOf this cfg w)).
Proof.
  intros Hwf Hpar. rewrite run_result, Hpar.
  set (final := finalConfigOf this cfg w).
  set (es := registryOf this w) in *.
  set (ps := map (promise_of final (now w)) es).
  set (w1 := after_starts final es w).
  destruct (Promise_all_spec ps w1) as [-> _].
  pose proof (first_rejected_entries final (now w) es) as FR. fold ps in FR.
  pose proof (first_rejection_first_rejected ps) as L. rewrite FR in L.
  split.
  - assert (F : (exists e, firstFailure final es = Some e)
                <-> exists key adapter e,
                      Dict.get key es = Some adapter
                      /\ truthy (read key final) = true
                      /\ respond adapter (read key final) = Rejected e).
    { rewrite firstFailure_Some. split;
        intros (key & adapter & e & Hin & H); exists key, adapter, e;
        (split; [|exact H]); [now apply In_get | now apply get_In]. }
    rewrite <- F.
    destruct (first_rejection ps) as [[t e]|],
      (firstFailure final es) as [e'|]; try contradiction.
    + split; eauto.
    + split; intros [e E]; discriminate.
  - intros e. destruct (first_rejection ps) as [[t e0]|] eqn:R;
      [|discriminate].
    intros [= ->].
    destruct (first_rejection_earliest final (now w) es R)
      as (key & adapter & Hin & Ht & Hr & Et & Hmin).
    exists key, adapter. split; [now apply In_get|]. repeat split; auto.
    intros key' adapter' e' G' Ht' Hr'. apply get_In in G'.
    specialize (Hmin _ _ _ G' Ht' Hr'). lia.
Qed.

Lemma parallel_run_rejects_iff_witness :
  exists key adapter,
    Dict.get key
      (registryOf pipeline_ab
         (world_ab (reporting 1) failing (VString "x") (VString "y")))
    = Some adapter
    /\ truthy
         (read key
            (finalConfigOf pipeline_ab None
               (world_ab (reporting 1) failing (VString "x") (VString "y"))))
       = true
    /\ respond adapter
         (read key
            (finalConfigOf pipeline_ab None
               (world_ab (reporting 1) failing (VString "x") (VString "y"))))
       = Rejected "boom".
Proof.
  destruct (proj2 (@parallel_run_rejects_iff
                     (world_ab (reporting 1) failing
                        (VString "x") (VString "y"))
                     pipeline_ab None
                     {| runInParallel := Some true; timeout := None;
                        saveRaw := None |}
                     ltac:(vm_compute; repeat constructor; simpl;
                           intuition discriminate)
                     eq_refl) "boom" eq_refl)
    as (key & adapter & G & T & R & _).
  exists key, adapter. auto.
Defined.

(** X20.  [run] depends on its options only through the truthiness of
    [runInParallel] ([timeout] and [saveRaw] change nothing), and when
    [run] resolves under some options it resolves, to the same map, under
    any others: the mode does not change what [run] resolves to. *)
Theorem run_and_its_options
  (w : World) (this : AdapterPipeline) (cfg : option (Dict.t value))
  (o1 o2 : PipelineOptions) :
  (is_true (runInParallel o1) = is_true (runInParallel o2) ->
   run cfg o1 this w = run cfg o2 this w)
  /\ (forall result,
        fst (run cfg o1 this w) = Ok result ->
        fst (run cfg o2 this w) = Ok result).
Proof.
  split.
  - intros E. unfold run. now rewrite E.
  - intros result. rewrite !run_result.
    set (ps := map _ _). set (w1 := after_starts _ _ _).
    destruct (awaiting_spec (is_true (runInParallel o1)) ps w1)
      as (Ok1 & Th1 & _).
    destruct (awaiting_spec (is_true (runInParallel o2)) ps w1)
      as (Ok2 & Th2 & _).
    destruct (forallb (fun p => negb (rejected p)) ps).
    + now rewrite (Ok1 eq_refl), (Ok2 eq_refl).
    + destruct (Th1 eq_refl) as [e ->]. discriminate.
Qed.

Lemma now_turns n : forall w, now (turns n w) = now w + n.
Proof.
  induction n as [|n IH]; intros w; simpl; [lia|].
  rewrite IH. simpl. lia.
Qed.

Lemma now_suspend_until t w : now (suspend_until t w) = Nat.max (now w) t.
Proof. unfold suspend_until. rewrite now_turns. lia. Qed.

Lemma now_mapM_await : forall ps w,
  first_rejected ps = None ->
  now (snd (mapM await ps w)) = Nat.max (now w) (last_settlement ps).
Proof.
  induction ps as [|p ps IH]; intros w H.
  - simpl. lia.
  - cbn [mapM]. unfold bind at 1.
    destruct p as [[t [v|e]]|]; simpl in H; try discriminate.
    + cbn [await outcome settles_at]. rewrite bind_ret_snd, IH by exact H.
      rewrite now_suspend_until. simpl. lia.
    + cbn [await]. unfold ret at 1. rewrite bind_ret_snd, IH by exact H.
      reflexivity.
Qed.

Lemma latest_settlement final t es :
  Nat.max t (last_settlement (map (promise_of final t) es))
  = t + slowest final es.
Proof.
  induction es as [|[k a] es IH]; simpl; [lia|].
  unfold promise_of at 1. simpl.
  destruct (truthy (read k final)); simpl; lia.
Qed.

(** X21.  When [run] resolves, it does so at the instant the slowest adapter
    it started settles: the time it takes is the largest latency among the
    started adapters, in either mode, and not the sum of their latencies. *)
Theorem run_duration
  (w : World) (this : AdapterPipeline) (cfg : option (Dict.t value))
  (options : PipelineOptions) (result : Dict.t value) :
  fst (run cfg options this w) = Ok result ->
  now (snd (run cfg options this w))
  = now w + slowest (finalConfigOf this cfg w) (registryOf this w).
Proof.
  rewrite run_result, run_unfold, bind_ret_snd.
  set (final := finalConfigOf this cfg w).
  set (es := registryOf this w).
  set (ps := map (promise_of final (now w)) es).
  set (w1 := after_starts final es w).
  rewrite <- (latest_settlement final (now w) es). fold ps.
  change (Nat.max (now w) (last_settlement ps))
    with (Nat.max (now w1) (last_settlement ps)).
  destruct (is_true (runInParallel options)).
  - destruct (Promise_all_spec ps w1) as [-> _].
    unfold Promise_all.
    destruct (first_rejection ps) as [[t e]|]; [discriminate|].
    intros _. apply now_suspend_until.
  - destruct (mapM_await_spec ps w1) as [-> _].
    destruct (first_rejected ps) eqn:R; [discriminate|].
    intros _. now apply now_mapM_await.
Qed.

Lemma run_duration_witness :
  now (snd (run None no_options pipeline_ab
              (world_ab (reporting 3) (reporting 2) (VString "x") (VString "y"))))
  = now (world_ab (reporting 3) (reporting 2) (VString "x") (VString "y"))
    + slowest
        (finalConfigOf pipeline_ab None
           (world_ab (reporting 3) (reporting 2) (VString "x") (VString "y")))
        (registryOf pipeline_ab
           (world_ab (reporting 3) (reporting 2) (VString "x") (VString "y"))).
Proof.
  apply (@run_duration
           (world_ab (reporting 3) (reporting 2) (VString "x") (VString "y"))
           pipeline_ab None no_options
           [("a", VString "report"); ("b", VString "report")]).
  reflexivity.
Defined.

Lemma started_by_run cfg options this w key input :
  In (Started key input) (trace (snd (run cfg options this w)))
  <-> In (Started key input) (trace w)
      \/ exists adapter,
           In (key, adapter) (registryOf this w)
           /\ truthy (read key (finalConfigOf this cfg w)) = true
           /\ input = read key (finalConfigOf this cfg w).
Proof.
  destruct (run_trace cfg options this w) as (evs & -> & F).
  rewrite !in_app_iff, in_flat_map. split.
  - intros [H|[(entry & Hin & Hs)|H]].
    + now left.
    + right. apply started_in_start_events in Hs as (-> & Ht & ->).
      destruct entry as [k a]. exists a. auto.
    + rewrite Forall_forall in F. now apply F in H.
  - intros [H|(adapter & Hin & Ht & ->)]; [now left|].
    right. left. exists (key, adapter). split; [exact Hin|].
    apply started_in_start_events. auto.
Qed.

Lemma falsy_not_object v : truthy v = false -> Merge.isObject v = false.
Proof. now destruct v. Qed.

Lemma read_final_without_override this cfg w key :
  match cfg with
  | None => True
  | Some c => Dict.wf c /\ Dict.get key c = None
  end ->
  read key (finalConfigOf this cfg w) = getConfig key this w.
Proof.
  unfold finalConfigOf, getConfig, read. destruct cfg as [c|].
  - intros [Hwf G]. now rewrite MergeClaims.get_deepMerge, G.
  - reflexivity.
Qed.

Lemma read_final_with_falsy_override this c w key v :
  Dict.wf c -> Dict.get key c = Some v -> truthy v = false ->
  read key (finalConfigOf this (Some c) w) = v.
Proof.
  intros Hwf G T. unfold finalConfigOf, read.
  rewrite MergeClaims.get_deepMerge, G by exact Hwf.
  unfold Merge.written. now rewrite (falsy_not_object _ T), andb_false_r.
Qed.

(** X22.  The override decides per key.  An adapter whose key the override
    does not mention runs with the stored configuration when that is
    truthy; an adapter whose key the override sets to a falsy value is not
    started in that run, whatever the stored configuration. *)
Theorem override_per_key
  (w : World) (this : AdapterPipeline) (cfg : option (Dict.t value))
  (options : PipelineOptions) (key : string) :
  (forall adapter,
     Dict.get key (registryOf this w) = Some adapter ->
     match cfg with
     | None => True
     | Some c => Dict.wf c /\ Dict.get key c = None
     end ->
     truthy (getConfig key this w) = true ->
     In (Started key (getConfig key this w))
       (trace (snd (run cfg options this w))))
  /\ (forall c v input,
        cfg = Some c -> Dict.wf c -> Dict.get key c = Some v ->
        truthy v = false ->
        In (Started key input) (trace (snd (run cfg options this w))) ->
        In (Started key input) (trace w)).
Proof.
  split.
  - intros adapter G Hc Ht. apply started_by_run. right. exists adapter.
    rewrite (@read_final_without_override this cfg w key Hc).
    split; [now apply get_In | auto].
  - intros c v input -> Hwf G T Hin.
    apply started_by_run in Hin as [H|(adapter & _ & Ht & _)]; [exact H|].
    rewrite (@read_final_with_falsy_override this c w key v Hwf G T) in Ht.
    congruence.
Qed.

Lemma override_per_key_witness :
  In (Started "a" (VString "x"))
    (trace (snd (run (Some [("b", VNumber 0)]) no_options pipeline_ab
                   (world_ab (reporting 1) (reporting 0)
                      (VString "x") (VString "y")))))
  /\ ~ In (Started "b" (VString "y"))
         (trace (snd (run (Some [("b", VNumber 0)]) no_options pipeline_ab
                        (world_ab (reporting 1) (reporting 0)
                           (VString "x") (VString "y"))))).
Proof.
  split.
  - apply (proj1 (@override_per_key
                    (world_ab (reporting 1) (reporting 0)
                       (VString "x") (VString "y"))
                    pipeline_ab (Some [("b", VNumber 0)]) no_options "a")
             (reporting 1) eq_refl).
    + split; [repeat constructor; simpl; tauto | reflexivity].
    + reflexivity.
  - intros H.
    apply (proj2 (@override_per_key
                    (world_ab (reporting 1) (reporting 0)
                       (VString "x") (VString "y"))
                    pipeline_ab (Some [("b", VNumber 0)]) no_options "b")
             [("b", VNumber 0)] (VNumber 0) (VString "y") eq_refl) in H.
    + exact H.
    + repeat constructor. simpl. tauto.
    + reflexivity.
    + reflexivity.
Defined.

End PipelineCoverage.

(* ================================================================== *)
(** ** Load adapter: defaults and validation *)

Module LoadAdapterCoverage.
Import Js Merge Loop LoadAdapter LoadSpec StreamSpec NameLists.
Import MergeClaims MergeCoverage.

Section Coercions.
Variable StringToNumber : string -> number.
Variable ObjectToNumber : value -> number.

Lemma merged_options_absent i :
  Dict.wf i -> Dict.get "options" i = None ->
  read "options" (deepMerge defaults i)
  = VObject [("vus", VNumber 5); ("iterations", VNumber 10)].
Proof.
  intros Hwf G. unfold read. now rewrite get_deepMerge, G.
Qed.

Lemma merged_options_object i opts :
  Dict.wf i -> Dict.get "options" i = Some (VObject opts) ->
  read "options" (deepMerge defaults i)
  = VObject (deepMerge [("vus", VNumber 5); ("iterations", VNumber 10)] opts).
Proof.
  intros Hwf G. unfold read. now rewrite get_deepMerge, G.
Qed.

Lemma merged_option opts key :
  Dict.wf opts ->
  read key (deepMerge [("vus", VNumber 5); ("iterations", VNumber 10)] opts)
  = match Dict.get key opts with
    | Some v => v
    | None => read key [("vus", VNumber 5); ("iterations", VNumber 10)]
    end.
Proof.
  intros Hwf. unfold read at 1. rewrite get_deepMerge by exact Hwf.
  destruct (Dict.get key opts) as [v|]; [|reflexivity].
  unfold written, Dict.has, read. simpl.
  destruct (String.eqb key "vus"); [reflexivity|].
  destruct (String.eqb key "iterations"); reflexivity.
Qed.

(** X23.  The defaults [vus: 5] and [iterations: 10] apply per option: an
    input without [options] gets both; an input whose [options] is an
    object keeps what it gives, an explicit [undefined] included, and gets
    the default only for the option it does not mention. *)
Theorem defaults_per_option (i : Dict.t value) :
  Dict.wf i ->
  (Dict.get "options" i = None ->
   member (read "options" (deepMerge defaults i)) "vus" = VNumber 5
   /\ member (read "options" (deepMerge defaults i)) "iterations"
      = VNumber 10)
  /\ (forall opts,
        Dict.get "options" i = Some (VObject opts) -> Dict.wf opts ->
        member (read "options" (deepMerge defaults i)) "vus"
        = match Dict.get "vus" opts with
          | Some v => v
          | None => VNumber 5
          end
        /\ member (read "options" (deepMerge defaults i)) "iterations"
           = match Dict.get "iterations" opts with
             | Some v => v
             | None => VNumber 10
             end).
Proof.
  intros Hwf. split.
  - intros G. rewrite merged_options_absent by assumption. split; reflexivity.
  - intros opts G Hopts. rewrite (merged_options_object Hwf G). simpl.
    rewrite !merged_option by exact Hopts. split; reflexivity.
Qed.

Lemma defaults_per_option_witness :
  member
    (read "options"
       (deepMerge defaults
          [("options", VObject [("vus", VUndefined)]); ("scenario", VObject [])]))
    "vus"
  = VUndefined
  /\ member
       (read "options"
          (deepMerge defaults
             [("options", VObject [("vus", VUndefined)]);
              ("scenario", VObject [])]))
       "iterations"
     = VNumber 10.
Proof.
  apply (proj2 (@defaults_per_option
                  [("options", VObject [("vus", VUndefined)]);
                   ("scenario", VObject [])]
                  ltac:(repeat constructor; simpl; intuition discriminate))
           [("vus", VUndefined)] eq_refl).
  repeat constructor. simpl. tauto.
Defined.

Lemma checkScenarios_spec : forall l n,
  checkScenarios n l
  = match firstNonObject l with
    | Some j => Throw (scenario_message (n + j))
    | None => Ok tt
    end.
Proof.
  induction l as [|s l IH]; intros n; simpl; auto.
  destruct (not_an_object s).
  - now rewrite Nat.add_0_r.
  - rewrite IH. destruct (firstNonObject l); simpl; auto.
    now rewrite Nat.add_succ_r.
Qed.

Lemma firstNonObject_least : forall l j,
  j < List.length l ->
  not_an_object (nth j l VUndefined) = true ->
  (forall k, k < j -> not_an_object (nth k l VUndefined) = false) ->
  firstNonObject l = Some j.
Proof.
  induction l as [|s l IH]; intros j Hj Hbad Hgood; simpl in *; [lia|].
  destruct j as [|j].
  - now rewrite Hbad.
  - rewrite (Hgood 0) by lia. rewrite (IH j); auto; [lia|].
    intros k Hk. apply (Hgood (S k)). lia.
Qed.

Lemma firstNonObject_none l :
  Forall (fun s => not_an_object s = false) l -> firstNonObject l = None.
Proof.
  induction 1 as [|s l Hs _ IH]; simpl; auto. now rewrite Hs, IH.
Qed.

Lemma validate_with_defaults i :
  Dict.wf i -> Dict.get "options" i = None ->
  validateConfig StringToNumber ObjectToNumber (deepMerge defaults i)
  = if truthy (read "scenario" (deepMerge defaults i))
    then checkScenarios 0 (scenarios_of (read "scenario" (deepMerge defaults i)))
    else Ok tt.
Proof.
  intros Hwf G. unfold validateConfig.
  rewrite merged_options_absent by assumption. reflexivity.
Qed.

Lemma merged_scenario i :
  Dict.wf i ->
  read "scenario" (deepMerge defaults i) = read "scenario" i.
Proof.
  intros Hwf. unfold read. rewrite get_deepMerge by exact Hwf.
  now destruct (Dict.get "scenario" i).
Qed.

(** X24.  With the default options, the scenarios decide: when [scenario]
    is an array, the input is accepted if every element is an object, and
    otherwise rejected with the message that names the least index whose
    element is not one; the elements after it are not looked at. *)
Theorem scenarios_are_checked_in_order (i : Dict.t value) (elems : list value) :
  Dict.wf i ->
  Dict.get "options" i = None ->
  Dict.get "scenario" i = Some (VArray elems) ->
  (Forall (fun s => not_an_object s = false) elems ->
   configure StringToNumber ObjectToNumber (Some i) = Ok (deepMerge defaults i))
  /\ forall j,
       j < List.length elems ->
       not_an_object (nth j elems VUndefined) = true ->
       (forall k, k < j -> not_an_object (nth k elems VUndefined) = false) ->
       configure StringToNumber ObjectToNumber (Some i) = Throw (scenario_message j).
Proof.
  intros Hwf Go Gs. unfold configure.
  rewrite validate_with_defaults, merged_scenario by assumption.
  unfold read. rewrite Gs. simpl. rewrite checkScenarios_spec.
  split.
  - intros H. now rewrite firstNonObject_none.
  - intros j Hj Hbad Hgood.
    now rewrite (firstNonObject_least _ Hj Hbad Hgood).
Qed.

Lemma checkScenarios_throws : forall l n e,
  checkScenarios n l = Throw e -> exists j, e = scenario_message j.
Proof.
  intros l n e. rewrite checkScenarios_spec.
  destruct (firstNonObject l) as [j|]; [|discriminate].
  intros [= <-]. eauto.
Qed.

Lemma configure_throw i e :
  configure StringToNumber ObjectToNumber (Some i) = Throw e
  <-> validateConfig StringToNumber ObjectToNumber (deepMerge defaults i)
      = Throw e.
Proof.
  unfold configure.
  destruct (validateConfig StringToNumber ObjectToNumber
              (deepMerge defaults i)) as [[]|e'].
  - split; discriminate.
  - split; intros [= ->]; reflexivity.
Qed.

Lemma throws_options config :
  validateConfig StringToNumber ObjectToNumber config
  = Throw "Configuration options are required"
  <-> truthy (read "options" config) = false.
Proof.
  unfold validateConfig. destruct (truthy (read "options" config)); simpl.
  - split; [|discriminate].
    destruct (_ || _); [discriminate|].
    destruct (_ || _); [discriminate|].
    destruct (truthy (read "scenario" config)); [|discriminate].
    intros H. apply checkScenarios_throws in H as [j H]. discriminate H.
  - split; reflexivity.
Qed.

Lemma throws_vus config :
  truthy (read "options" config) = true ->
  validateConfig StringToNumber ObjectToNumber config
  = Throw "vus must be a positive number"
  <-> is_undefined (member (read "options" config) "vus")
      || below_one StringToNumber ObjectToNumber
           (member (read "options" config) "vus")
      = true.
Proof.
  intros T. unfold validateConfig. rewrite T. simpl.
  destruct (is_undefined (member (read "options" config) "vus")
            || below_one StringToNumber ObjectToNumber
                 (member (read "options" config) "vus")).
  - split; reflexivity.
  - split; [|discriminate].
    destruct (_ || _); [discriminate|].
    destruct (truthy (read "scenario" config)); [|discriminate].
    intros H. apply checkScenarios_throws in H as [j H]. discriminate H.
Qed.

Lemma merged_options_given i v :
  Dict.wf i -> Dict.get "options" i = Some v ->
  read "options" (deepMerge defaults i) = written defaults "options" v.
Proof.
  intros Hwf G. unfold read. now rewrite get_deepMerge, G.
Qed.

Lemma truthy_written_options v :
  truthy (written defaults "options" v) = truthy v.
Proof. destruct v; reflexivity. Qed.

(** X25.  Because of the defaults, an input without [options] is never
    rejected for it: [run] fails with "Configuration options are required"
    exactly when the input has an [options] property of its own whose value
    is falsy. *)
Theorem options_required_iff (i : Dict.t value) :
  Dict.wf i ->
  configure StringToNumber ObjectToNumber (Some i)
  = Throw "Configuration options are required"
  <-> exists v, Dict.get "options" i = Some v /\ truthy v = false.
Proof.
  intros Hwf. rewrite configure_throw, throws_options.
  destruct (Dict.get "options" i) as [v|] eqn:G.
  - rewrite (merged_options_given Hwf G), truthy_written_options. split.
    + intros T. exists v. auto.
    + intros (v' & [= <-] & T). exact T.
  - rewrite merged_options_absent by assumption. split.
    + discriminate.
    + intros (v & E & _). discriminate.
Qed.

(** X26.  [vus] is looked at after the merge with the defaults.  An input
    whose [options] object has no [vus] is never rejected for it, and one
    whose [options] object has a [vus] is rejected with "vus must be a
    positive number" exactly when that value is [undefined] or converts to
    a number below one: an explicit [undefined] hides the default, and a
    value such as NaN, which is not below one, is let through. *)
Theorem vus_is_checked_after_the_merge (i opts : Dict.t value) :
  Dict.wf i -> Dict.wf opts ->
  Dict.get "options" i = Some (VObject opts) ->
  match Dict.get "vus" opts with
  | None =>
      configure StringToNumber ObjectToNumber (Some i)
      <> Throw "vus must be a positive number"
  | Some v =>
      configure StringToNumber ObjectToNumber (Some i)
      = Throw "vus must be a positive number"
      <-> v = VUndefined
          \/ PrimFloat.ltb (ToNumber StringToNumber ObjectToNumber v) 1 = true
  end.
Proof.
  intros Hwf Hopts G.
  assert (T : truthy (read "options" (deepMerge defaults i)) = true)
    by now rewrite (merged_options_object Hwf G).
  assert (V : member (read "options" (deepMerge defaults i)) "vus"
              = match Dict.get "vus" opts with
                | Some v => v
                | None => VNumber 5
                end).
  { rewrite (merged_options_object Hwf G). cbn [member].
    rewrite merged_option by exact Hopts.
    destruct (Dict.get "vus" opts); reflexivity. }
  destruct (Dict.get "vus" opts) as [v|].
  - rewrite configure_throw, (throws_vus _ T), V, orb_true_iff.
    unfold below_one. split; (intros [H|H]; [left | now right]).
    + now destruct v.
    + rewrite H. reflexivity.
  - intros H. apply configure_throw in H. apply (throws_vus _ T) in H.
    rewrite V in H. vm_compute in H. discriminate.
Qed.

End Coercions.

Lemma options_required_iff_witness :
  configure (@no_number string) (@no_number value)
    (Some [("options", VNull)])
  = Throw "Configuration options are required"
  <-> exists v,
        Dict.get "options" [("options", VNull)] = Some v
        /\ truthy v = false.
Proof.
  apply (@options_required_iff (@no_number string) (@no_number value)
           [("options", VNull)]).
  repeat constructor. simpl. tauto.
Defined.

Lemma vus_is_checked_after_the_merge_witness :
  configure (@no_number string) (@no_number value)
    (Some [("options", VObject [("vus", VNumber PrimFloat.nan)])])
  = Throw "vus must be a positive number"
  <-> VNumber PrimFloat.nan = VUndefined
      \/ PrimFloat.ltb
           (ToNumber (@no_number string) (@no_number value)
              (VNumber PrimFloat.nan)) 1
         = true.
Proof.
  apply (@vus_is_checked_after_the_merge
           (@no_number string) (@no_number value)
           [("options", VObject [("vus", VNumber PrimFloat.nan)])]
           [("vus", VNumber PrimFloat.nan)]).
  - repeat constructor. simpl. tauto.
  - repeat constructor. simpl. tauto.
  - reflexivity.
Defined.

Lemma scenarios_are_checked_in_order_witness :
  configure (@no_number string) (@no_number value)
    (Some [("scenario",
            VArray [VObject [("name", VString "smoke")]; VString "soak";
                    VNull])])
  = Throw "Scenario at index 1 must be an object".
Proof.
  apply (proj2 (@scenarios_are_checked_in_order
                  (@no_number string) (@no_number value)
                  [("scenario",
                    VArray [VObject [("name", VString "smoke")];
                            VString "soak"; VNull])]
                  [VObject [("name", VString "smoke")]; VString "soak"; VNull]
                  ltac:(repeat constructor; simpl; tauto) eq_refl eq_refl) 1).
  - simpl. lia.
  - reflexivity.
  - intros k Hk. assert (k = 0) as -> by lia. reflexivity.
Defined.

Lemma get_spread (V : Type) k : forall (l acc : Dict.t V),
  Dict.wf l ->
  Dict.get k (fold_left (fun acc kv => Dict.set (fst kv) (snd kv) acc) l acc)
  = match Dict.get k l with
    | Some v => Some v
    | None => Dict.get k acc
    end.
Proof.
  induction l as [|[k' v'] l IH]; intros acc Hwf; simpl; auto.
  inversion Hwf as [|? ? Hn Hwf']; subst. rewrite IH by exact Hwf'.
  destruct (String.eqb_spec k k') as [->|Hne].
  - apply get_None_keys in Hn. rewrite Hn. apply get_set_same.
  - destruct (Dict.get k l); [reflexivity|].
    apply get_set_other. congruence.
Qed.

(** X27.  The scenario handed to the engine, for a scenario that is a plain
    object: its [name] is the scenario's own [name] whenever it has that
    property, also when the value is falsy, since the spread overwrites the
    computed name, and [scenario_<index>] only when it has none; every
    other property is the scenario's. *)
Theorem named_scenario (index : nat) (scenario : Dict.t value) :
  Dict.wf scenario ->
  Dict.get "name" (named index scenario)
  = Some (match Dict.get "name" scenario with
          | Some v => v
          | None => VString (String.append "scenario_" (index_string index))
          end)
  /\ forall k, k <> "name" ->
       Dict.get k (named index scenario) = Dict.get k scenario.
Proof.
  intros Hwf. unfold named. split.
  - rewrite get_spread by exact Hwf. unfold read, or_else.
    destruct (Dict.get "name" scenario); reflexivity.
  - intros k Hk. rewrite get_spread by exact Hwf.
    destruct (Dict.get k scenario); [reflexivity|]. simpl.
    destruct (String.eqb_spec k "name"); [contradiction | reflexivity].
Qed.

Lemma named_scenario_witness :
  Dict.get "name"
    (named 2 [("executor", VString "shared-iterations"); ("name", VNull)])
  = Some VNull
  /\ Dict.get "name" (named 2 [("executor", VString "shared-iterations")])
     = Some (VString "scenario_2").
Proof.
  split.
  - apply (proj1 (@named_scenario 2
                    [("executor", VString "shared-iterations");
                     ("name", VNull)]
                    ltac:(repeat constructor; simpl; intuition discriminate))).
  - apply (proj1 (@named_scenario 2
                    [("executor", VString "shared-iterations")]
                    ltac:(repeat constructor; simpl; tauto))).
Defined.

End LoadAdapterCoverage.
